(** * Lethe DEM solver: shallow embedding of [source/dem/dem.cc]

    The development follows the translation unit function by function:
    the constructor [DEMSolver<dim>::DEMSolver], [cell_weight],
    [read_mesh], [insert_particles], the particle-wall helpers,
    [reinitialize_force], the four [set_*] selectors and [solve].

    Everything that [dem.cc] only calls (deal.II, the search, force,
    insertion and integration classes, the simulation control) is an
    operation of the interface [Collaborators]; a member taken by
    non-const reference is an argument and a result of the operation. *)

From Stdlib Require Import NArith ZArith String Floats Lia Sorted.
From stdpp Require Import base option list.

Local Open Scope N_scope.

(** ** Numbers *)

(** [unsigned int] is 32 bits wide; arithmetic on it wraps around. *)
Definition unsigned_int_modulus : N := 2 ^ 32.

Definition to_unsigned_int (n : N) : N := n mod unsigned_int_modulus.

(** The value of [fmod(x, y)] when both arguments are [unsigned int]
    values converted to [double].  The conversion is exact (32 bits fit
    the 53-bit significand) and so is [fmod]; a zero divisor gives a
    NaN. *)
Inductive fmod_value : Type :=
  | NaN
  | finite (r : N).

Definition fmod (x y : N) : fmod_value :=
  if y =? 0 then NaN else finite (x mod y).

(** [d == k] and [d != k] against an integer literal; every comparison
    with a NaN is false except [!=]. *)
Definition double_eq (d : fmod_value) (k : N) : bool :=
  match d with
  | NaN => false
  | finite r => r =? k
  end.

Definition double_ne (d : fmod_value) (k : N) : bool := negb (double_eq d k).

(** ** Exceptions *)

Inductive exception : Type :=
  | runtime_error (what : string)      (* throw std::runtime_error(what) *)
  | thrown_literal (message : string)  (* throw "message" *)
  | ExcInternalError                   (* Assert(false, ExcInternalError()) *)
  | null_dereference.                  (* -> on an empty std::shared_ptr *)

(** ** Run-time parameters (namespace [Parameters]) *)

Module Parameters.

Inductive MeshType := gmsh | dealii | MeshType_unlisted (v : Z).

Inductive TimerType := timer_none | timer_end | TimerType_unlisted (v : Z).

Inductive InsertionMethod :=
  uniform | non_uniform | InsertionMethod_unlisted (v : Z).

Inductive IntegrationMethod :=
  velocity_verlet | explicit_euler | IntegrationMethod_unlisted (v : Z).

Inductive PPContactForceModel :=
  pp_linear | pp_nonlinear | PPContactForceModel_unlisted (v : Z).

Inductive PWContactForceModel :=
  pw_linear | pw_nonlinear | PWContactForceModel_unlisted (v : Z).

Record Mesh := {
  type : MeshType;
  file_name : string;
  grid_type : string;
  grid_arguments : string;
  initial_refinement : Z
}.

Record InsertionInfo := {
  insertion_method : InsertionMethod;
  insertion_frequency : N
}.

Record ModelParameters := {
  contact_detection_frequency : N;
  repartition_frequency : N;
  neighborhood_threshold : float;
  integration_method : IntegrationMethod;
  pp_contact_force_method : PPContactForceModel;
  pw_contact_force_method : PWContactForceModel
}.

Record PhysicalProperties := {
  gx : float;
  gy : float;
  gz : float;
  diameter : float
}.

Record Timer := { timer_type : TimerType }.

Record Testing := { enabled : bool }.

End Parameters.

(** ** Particles *)

(** A deal.II particle: where it is, its identifier, and its slice of the
    property pool.  [get_properties()] returns a view of the slice, so a
    store through the view is a store into the particle. *)
Record Particle := {
  location : list float;
  reference_location : list float;
  id : N;
  properties : list float
}.

Definition set_properties (p : Particle) (props : list float) : Particle :=
  {| location := location p;
     reference_location := reference_location p;
     id := id p;
     properties := props |}.

(** The enumerators of [DEM::PropertiesIndex] that [dem.cc] names, and
    [DEM::get_number_properties()]. *)
Record PropertiesIndex := {
  n_properties : nat;
  force_x : nat;
  force_y : nat;
  force_z : nat;
  M_x : nat;
  M_y : nat;
  M_z : nat
}.

Inductive CellStatus :=
  CELL_PERSIST | CELL_REFINE | CELL_COARSEN | CELL_INVALID.

Global Instance CellStatus_eq_dec : EqDecision CellStatus.
Proof. solve_decision. Defined.

(** ** The types [dem.cc] only passes around *)

(** Cells and mesh of the distributed triangulation, the book-keeping of
    the particle handler, the simulation control, and the entries of the
    containers declared in [dem/dem.h].  A [std::map] is the list of its
    entries. *)
Class Carriers := {
  Grid : Type;
  Cell : Type;
  HandlerData : Type;
  SimulationControl : Type;
  SimulationControlParameters : Type;
  boundary_cells_info_struct : Type;
  boundary_line : Type;
  boundary_point : Type;
  pp_candidate : Type;
  pw_candidate : Type;
  point_candidate : Type;
  line_candidate : Type;
  pp_contact_info_struct : Type;
  pw_contact_info_struct : Type;
  point_contact_info_struct : Type;
  line_contact_info_struct : Type;
  particle_iterator : Type
}.

(** The strategy objects behind the four [std::shared_ptr] members. *)
Inductive Insertion := UniformInsertion | NonUniformInsertion.
Inductive Integrator := VelocityVerletIntegrator | ExplicitEulerIntegrator.
Inductive PPContactForce := PPLinearForce | PPNonLinearForce.
Inductive PWContactForce := PWLinearForce | PWNonLinearForce.

Global Instance Insertion_eq_dec : EqDecision Insertion.
Proof. solve_decision. Defined.
Global Instance Integrator_eq_dec : EqDecision Integrator.
Proof. solve_decision. Defined.
Global Instance PPContactForce_eq_dec : EqDecision PPContactForce.
Proof. solve_decision. Defined.
Global Instance PWContactForce_eq_dec : EqDecision PWContactForce.
Proof. solve_decision. Defined.

(** Slots connected to the signals of the triangulation. *)
Inductive cell_weight_slot := slot_DEMSolver_cell_weight.

Inductive repartition_slot :=
  | slot_register_store_callback_function
  | slot_register_load_callback_function (serialization : bool).

Record Signals := {
  cell_weight_signal : list cell_weight_slot;
  pre_distributed_repartition : list repartition_slot;
  post_distributed_repartition : list repartition_slot
}.

Section Solver.

Context `{Carriers}.

Record DEMSolverParameters := {
  mesh : Parameters.Mesh;
  insertion_info : Parameters.InsertionInfo;
  model_parameters : Parameters.ModelParameters;
  physical_properties_prm : Parameters.PhysicalProperties;
  simulation_control_prm : SimulationControlParameters;
  timer : Parameters.Timer;
  test : Parameters.Testing
}.

Record Triangulation := {
  grid : Grid;
  signals : Signals
}.

(** [Particles::ParticleHandler<dim>]: [begin()..end()] ranges over
    [particles], the locally owned ones. *)
Record ParticleHandler := {
  particles : list Particle;
  ghost_particles : list Particle;
  n_properties_per_slot : nat;
  handler_data : HandlerData
}.

Definition set_particles (ph : ParticleHandler) (ps : list Particle)
  : ParticleHandler :=
  {| particles := ps;
     ghost_particles := ghost_particles ph;
     n_properties_per_slot := n_properties_per_slot ph;
     handler_data := handler_data ph |}.

(** The members of [DEMSolver<dim>] that [dem.cc] touches. *)
Record DEMSolver := {
  parameters : DEMSolverParameters;
  triangulation : Triangulation;
  particle_handler : ParticleHandler;
  computing_timer_output : bool;
  neighborhood_threshold : float;
  contact_detection_frequency : N;
  repartition_frequency : N;
  insertion_frequency : N;
  physical_properties : Parameters.PhysicalProperties;
  simulation_control : SimulationControl;
  cells_local_neighbor_list : list (list Cell);
  cells_ghost_neighbor_list : list (list Cell);
  boundary_cells_with_faces : list Cell;
  boundary_cells_with_lines : list boundary_line;
  boundary_cells_with_points : list boundary_point;
  boundary_cells_information : list boundary_cells_info_struct;
  local_contact_pair_candidates : list pp_candidate;
  ghost_contact_pair_candidates : list pp_candidate;
  pw_contact_candidates : list pw_candidate;
  particle_point_contact_candidates : list point_candidate;
  particle_line_contact_candidates : list line_candidate;
  local_adjacent_particles : list pp_contact_info_struct;
  ghost_adjacent_particles : list pp_contact_info_struct;
  pw_pairs_in_contact : list pw_contact_info_struct;
  particle_points_in_contact : list point_contact_info_struct;
  particle_lines_in_contact : list line_contact_info_struct;
  particle_container : list particle_iterator;
  ghost_particle_container : list particle_iterator;
  insertion_object : option Insertion;
  integrator_object : option Integrator;
  pp_contact_force_object : option PPContactForce;
  pw_contact_force_object : option PWContactForce
}.

(** Functional update of one member.  [eta_DEMSolver] rebuilds a solver
    from its members; [member_setter] abstracts one projection out of
    it, which leaves every other member as it was. *)
Definition eta_DEMSolver (s : DEMSolver) : DEMSolver :=
  Build_DEMSolver
    (parameters s) (triangulation s) (particle_handler s)
    (computing_timer_output s) (neighborhood_threshold s)
    (contact_detection_frequency s) (repartition_frequency s)
    (insertion_frequency s) (physical_properties s) (simulation_control s)
    (cells_local_neighbor_list s) (cells_ghost_neighbor_list s)
    (boundary_cells_with_faces s) (boundary_cells_with_lines s)
    (boundary_cells_with_points s) (boundary_cells_information s)
    (local_contact_pair_candidates s) (ghost_contact_pair_candidates s)
    (pw_contact_candidates s) (particle_point_contact_candidates s)
    (particle_line_contact_candidates s) (local_adjacent_particles s)
    (ghost_adjacent_particles s) (pw_pairs_in_contact s)
    (particle_points_in_contact s) (particle_lines_in_contact s)
    (particle_container s) (ghost_particle_container s)
    (insertion_object s) (integrator_object s)
    (pp_contact_force_object s) (pw_contact_force_object s).

Ltac member_setter member :=
  let body := eval cbv beta delta [eta_DEMSolver] in eta_DEMSolver in
  match eval pattern member in body with
  | ?setter _ =>
      let f := eval cbv beta in (fun v => setter (fun _ => v)) in
      exact f
  end.

Definition set_triangulation
  : Triangulation -> DEMSolver -> DEMSolver :=
  ltac:(member_setter triangulation).
Definition set_particle_handler
  : ParticleHandler -> DEMSolver -> DEMSolver :=
  ltac:(member_setter particle_handler).
Definition set_simulation_control
  : SimulationControl -> DEMSolver -> DEMSolver :=
  ltac:(member_setter simulation_control).
Definition set_cells_local_neighbor_list
  : list (list Cell) -> DEMSolver -> DEMSolver :=
  ltac:(member_setter cells_local_neighbor_list).
Definition set_cells_ghost_neighbor_list
  : list (list Cell) -> DEMSolver -> DEMSolver :=
  ltac:(member_setter cells_ghost_neighbor_list).
Definition set_boundary_cells_with_faces
  : list Cell -> DEMSolver -> DEMSolver :=
  ltac:(member_setter boundary_cells_with_faces).
Definition set_boundary_cells_with_lines
  : list boundary_line -> DEMSolver -> DEMSolver :=
  ltac:(member_setter boundary_cells_with_lines).
Definition set_boundary_cells_with_points
  : list boundary_point -> DEMSolver -> DEMSolver :=
  ltac:(member_setter boundary_cells_with_points).
Definition set_boundary_cells_information
  : list boundary_cells_info_struct -> DEMSolver -> DEMSolver :=
  ltac:(member_setter boundary_cells_information).
Definition set_local_contact_pair_candidates
  : list pp_candidate -> DEMSolver -> DEMSolver :=
  ltac:(member_setter local_contact_pair_candidates).
Definition set_ghost_contact_pair_candidates
  : list pp_candidate -> DEMSolver -> DEMSolver :=
  ltac:(member_setter ghost_contact_pair_candidates).
Definition set_pw_contact_candidates
  : list pw_candidate -> DEMSolver -> DEMSolver :=
  ltac:(member_setter pw_contact_candidates).
Definition set_particle_point_contact_candidates
  : list point_candidate -> DEMSolver -> DEMSolver :=
  ltac:(member_setter particle_point_contact_candidates).
Definition set_particle_line_contact_candidates
  : list line_candidate -> DEMSolver -> DEMSolver :=
  ltac:(member_setter particle_line_contact_candidates).
Definition set_local_adjacent_particles
  : list pp_contact_info_struct -> DEMSolver -> DEMSolver :=
  ltac:(member_setter local_adjacent_particles).
Definition set_ghost_adjacent_particles
  : list pp_contact_info_struct -> DEMSolver -> DEMSolver :=
  ltac:(member_setter ghost_adjacent_particles).
Definition set_pw_pairs_in_contact
  : list pw_contact_info_struct -> DEMSolver -> DEMSolver :=
  ltac:(member_setter pw_pairs_in_contact).
Definition set_particle_points_in_contact
  : list point_contact_info_struct -> DEMSolver -> DEMSolver :=
  ltac:(member_setter particle_points_in_contact).
Definition set_particle_lines_in_contact
  : list line_contact_info_struct -> DEMSolver -> DEMSolver :=
  ltac:(member_setter particle_lines_in_contact).
Definition set_particle_container
  : list particle_iterator -> DEMSolver -> DEMSolver :=
  ltac:(member_setter particle_container).
Definition set_ghost_particle_container
  : list particle_iterator -> DEMSolver -> DEMSolver :=
  ltac:(member_setter ghost_particle_container).
Definition set_insertion_object
  : option Insertion -> DEMSolver -> DEMSolver :=
  ltac:(member_setter insertion_object).
Definition set_integrator_object
  : option Integrator -> DEMSolver -> DEMSolver :=
  ltac:(member_setter integrator_object).
Definition set_pp_contact_force_object
  : option PPContactForce -> DEMSolver -> DEMSolver :=
  ltac:(member_setter pp_contact_force_object).
Definition set_pw_contact_force_object
  : option PWContactForce -> DEMSolver -> DEMSolver :=
  ltac:(member_setter pw_contact_force_object).

(** ** Events

    One event per call that leaves [dem.cc] and per member function
    entered, named after the callee.  The history of a run pairs every
    event with the solver as it was when the call was made. *)
Inductive cache :=
  | c_cells_local_neighbor_list
  | c_cells_ghost_neighbor_list
  | c_boundary_cells_with_faces
  | c_boundary_cells_with_lines
  | c_boundary_cells_with_points
  | c_boundary_cells_information.

Global Instance cache_eq_dec : EqDecision cache.
Proof. solve_decision. Defined.

Inductive event :=
  | ev_print_initial_info
  | ev_read_msh
  | ev_generate_from_name_and_arguments
  | ev_refine_global
  | ev_find_cell_neighbors
  | ev_find_boundary_cells_information
  | ev_find_particle_point_and_line_contact_cells
  | ev_make_insertion (o : Insertion)
  | ev_make_integrator (o : Integrator)
  | ev_make_pp_contact_force (o : PPContactForce)
  | ev_make_pw_contact_force (o : PWContactForce)
  | ev_print_progression
  | ev_repartition
  | ev_register_store_callback_function
  | ev_redistribute
  | ev_register_load_callback_function
  | ev_clear (c : cache)
  | ev_reinitialize_force
  | ev_insert_particles
  | ev_insert
  | ev_sort_particles_into_subdomains_and_cells
  | ev_exchange_ghost_particles
  | ev_find_PP_Contact_Pairs
  | ev_particle_wall_broad_search
  | ev_find_PW_Contact_Pairs
  | ev_find_Particle_Point_Contact_Pairs
  | ev_find_Particle_Line_Contact_Pairs
  | ev_localize_contacts
  | ev_locate_local_particles_in_cells
  | ev_locate_ghost_particles_in_cells
  | ev_pp_Fine_Search
  | ev_calculate_pp_contact_force
  | ev_particle_wall_fine_search
  | ev_pw_Fine_Search
  | ev_Particle_Point_Fine_Search
  | ev_Particle_Line_Fine_Search
  | ev_particle_wall_contact_force
  | ev_calculate_pw_contact_force
  | ev_calculate_particle_point_contact_force
  | ev_calculate_particle_line_contact_force
  | ev_integrate
  | ev_write_output_results
  | ev_finish_simulation.

Global Instance event_eq_dec : EqDecision event.
Proof. solve_decision. Defined.

Definition history : Type := list (event * DEMSolver).

Definition events (h : history) : list event := h.*1.

(** ** Collaborators

    The operations [dem.cc] calls on classes defined elsewhere.  An
    argument passed by non-const reference or by pointer comes back in
    the result; the force models reach the particles through the
    iterators stored in the contact containers, so they take and return
    the particle handler as well. *)
Class Collaborators := {
  std_pow : float -> float -> float;
  (* SimulationControlTransientDEM *)
  make_simulation_control : SimulationControlParameters -> SimulationControl;
  sc_integrate : SimulationControl -> bool * SimulationControl;
  get_step_number : SimulationControl -> N;
  get_time_step : SimulationControl -> float;
  is_output_iteration : SimulationControl -> bool;
  (* parallel::distributed::Triangulation, GridIn, GridGenerator *)
  empty_grid : Grid;
  read_msh : Grid -> string -> Grid;
  generate_from_name_and_arguments : Grid -> string -> string -> Grid;
  refine_global : Grid -> Z -> Grid;
  redistribute :
    Grid -> (Cell -> CellStatus -> list (exception + N)) -> Grid;
  is_locally_owned : Cell -> bool;
  child : Cell -> nat -> Cell;
  (* Particles::ParticleHandler *)
  empty_handler_data : HandlerData;
  n_particles_in_cell : ParticleHandler -> Cell -> N;
  register_store_callback_function :
    ParticleHandler -> Grid -> ParticleHandler * Grid;
  register_load_callback_function :
    bool -> ParticleHandler -> Grid -> ParticleHandler * Grid;
  sort_particles_into_subdomains_and_cells :
    ParticleHandler -> Grid -> ParticleHandler;
  exchange_ghost_particles : ParticleHandler -> Grid -> ParticleHandler;
  (* FindCellNeighbors, FindBoundaryCellsInformation *)
  find_cell_neighbors :
    Grid -> list (list Cell) -> list (list Cell) ->
    list (list Cell) * list (list Cell);
  find_boundary_cells_information :
    list Cell -> Grid -> list boundary_cells_info_struct * list Cell;
  find_particle_point_and_line_contact_cells :
    list Cell -> Grid -> list boundary_line -> list boundary_point ->
    list boundary_line * list boundary_point;
  (* Insertion *)
  insert :
    Insertion -> ParticleHandler -> Grid -> DEMSolverParameters ->
    ParticleHandler;
  (* broad search *)
  find_PP_Contact_Pairs :
    ParticleHandler -> list (list Cell) -> list (list Cell) ->
    list pp_candidate -> list pp_candidate ->
    list pp_candidate * list pp_candidate;
  find_PW_Contact_Pairs :
    list boundary_cells_info_struct -> ParticleHandler ->
    list pw_candidate -> list pw_candidate;
  find_Particle_Point_Contact_Pairs :
    ParticleHandler -> list boundary_point -> list point_candidate;
  find_Particle_Line_Contact_Pairs :
    ParticleHandler -> list boundary_line -> list line_candidate;
  (* contact book-keeping *)
  localize_contacts :
    list pp_contact_info_struct -> list pp_contact_info_struct ->
    list pw_contact_info_struct ->
    list pp_candidate -> list pp_candidate -> list pw_candidate ->
    (list pp_contact_info_struct * list pp_contact_info_struct *
     list pw_contact_info_struct) *
    (list pp_candidate * list pp_candidate * list pw_candidate);
  locate_local_particles_in_cells :
    ParticleHandler -> list particle_iterator ->
    list pp_contact_info_struct -> list pp_contact_info_struct ->
    list pw_contact_info_struct -> list point_contact_info_struct ->
    list line_contact_info_struct ->
    list particle_iterator *
    (list pp_contact_info_struct * list pp_contact_info_struct) *
    (list pw_contact_info_struct * list point_contact_info_struct *
     list line_contact_info_struct);
  locate_ghost_particles_in_cells :
    ParticleHandler -> list particle_iterator ->
    list pp_contact_info_struct ->
    list particle_iterator * list pp_contact_info_struct;
  (* fine search *)
  pp_Fine_Search :
    list pp_candidate -> list pp_candidate ->
    list pp_contact_info_struct -> list pp_contact_info_struct ->
    list particle_iterator -> float ->
    (list pp_candidate * list pp_candidate) *
    (list pp_contact_info_struct * list pp_contact_info_struct);
  pw_Fine_Search :
    list pw_candidate -> list pw_contact_info_struct ->
    list pw_candidate * list pw_contact_info_struct;
  Particle_Point_Fine_Search :
    list point_candidate -> list point_contact_info_struct;
  Particle_Line_Fine_Search :
    list line_candidate -> list line_contact_info_struct;
  (* force models *)
  calculate_pp_contact_force :
    PPContactForce ->
    list pp_contact_info_struct -> list pp_contact_info_struct ->
    Parameters.PhysicalProperties -> float -> ParticleHandler ->
    (list pp_contact_info_struct * list pp_contact_info_struct) *
    ParticleHandler;
  calculate_pw_contact_force :
    PWContactForce -> list pw_contact_info_struct ->
    Parameters.PhysicalProperties -> float -> ParticleHandler ->
    list pw_contact_info_struct * ParticleHandler;
  calculate_particle_point_contact_force :
    list point_contact_info_struct -> Parameters.PhysicalProperties ->
    ParticleHandler -> list point_contact_info_struct * ParticleHandler;
  calculate_particle_line_contact_force :
    list line_contact_info_struct -> Parameters.PhysicalProperties ->
    ParticleHandler -> list line_contact_info_struct * ParticleHandler;
  (* Integrator *)
  integrate :
    Integrator -> ParticleHandler -> list float -> float -> ParticleHandler;
  (* deal.II compiled in debug mode: [Assert] is checked *)
  debug_build : bool
}.

Context `{Collaborators}.

(** ** Execution monad

    A computation runs on the solver, appends to the history and either
    throws or returns a value and the new solver. *)
Definition Exec (A : Type) : Type :=
  DEMSolver -> history * (exception + A * DEMSolver).

Definition run_history {A} (m : Exec A) (s : DEMSolver) : history := (m s).1.

Definition run_result {A} (m : Exec A) (s : DEMSolver)
  : exception + A * DEMSolver := (m s).2.

Global Instance Exec_ret : MRet Exec := fun A a s => ([], inr (a, s)).

Global Instance Exec_bind : MBind Exec := fun A B f m s =>
  match m s with
  | (h, inl e) => (h, inl e)
  | (h, inr (a, s')) =>
      match f a s' with
      | (h', r) => (h ++ h', r)
      end
  end.

Definition call (e : event) : Exec unit :=
  fun s => ([(e, s)], inr (tt, s)).

Definition gets {A} (f : DEMSolver -> A) : Exec A :=
  fun s => ([], inr (f s, s)).

Definition modify (f : DEMSolver -> DEMSolver) : Exec unit :=
  fun s => ([], inr (tt, f s)).

Definition throw {A} (e : exception) : Exec A :=
  fun s => ([], inl e).

(** [p->...] on a [std::shared_ptr] member. *)
Definition deref {A} (member : DEMSolver -> option A) : Exec A :=
  fun s =>
    match member s with
    | Some o => ([], inr (o, s))
    | None => ([], inl null_dereference)
    end.

Definition when (b : bool) (m : Exec unit) : Exec unit :=
  if b then m else mret tt.

Fixpoint for_each {A} (l : list A) (body : A -> Exec unit) : Exec unit :=
  match l with
  | [] => mret tt
  | x :: l' => body x;; for_each l' body
  end.

(** ** The solver *)

(** The template parameter and the property indices of [dem_properties.h]. *)
Variable dim : nat.
Variable idx : PropertiesIndex.

(** *** [DEMSolver<dim>::DEMSolver] *)
Definition repartition_frequency_error : string :=
  "The repartition frequency must be a multiple of the contact detection frequency".

(** The three [connect] calls at the end of the constructor. *)
Definition connected_signals : Signals :=
  {| cell_weight_signal := [slot_DEMSolver_cell_weight];
     pre_distributed_repartition := [slot_register_store_callback_function];
     post_distributed_repartition :=
       [slot_register_load_callback_function false] |}.

Definition DEMSolver_constructor (dem_parameters : DEMSolverParameters)
  : exception + DEMSolver :=
  let model := model_parameters dem_parameters in
  let physical := physical_properties_prm dem_parameters in
  let contact_detection_frequency_ :=
    Parameters.contact_detection_frequency model in
  let repartition_frequency_ := Parameters.repartition_frequency model in
  if double_ne (fmod repartition_frequency_ contact_detection_frequency_) 0
  then inl (runtime_error repartition_frequency_error)
  else
    inr {|
      parameters := dem_parameters;
      triangulation :=
        {| grid := empty_grid; signals := connected_signals |};
      particle_handler :=
        {| particles := [];
           ghost_particles := [];
           n_properties_per_slot := n_properties idx;
           handler_data := empty_handler_data |};
      computing_timer_output :=
        match Parameters.timer_type (timer dem_parameters) with
        | Parameters.timer_none => false
        | _ => true
        end;
      neighborhood_threshold :=
        std_pow
          (Parameters.neighborhood_threshold model *
           Parameters.diameter physical)%float
          2%float;
      contact_detection_frequency := contact_detection_frequency_;
      repartition_frequency := repartition_frequency_;
      insertion_frequency :=
        Parameters.insertion_frequency (insertion_info dem_parameters);
      physical_properties := physical;
      simulation_control :=
        make_simulation_control (simulation_control_prm dem_parameters);
      cells_local_neighbor_list := [];
      cells_ghost_neighbor_list := [];
      boundary_cells_with_faces := [];
      boundary_cells_with_lines := [];
      boundary_cells_with_points := [];
      boundary_cells_information := [];
      local_contact_pair_candidates := [];
      ghost_contact_pair_candidates := [];
      pw_contact_candidates := [];
      particle_point_contact_candidates := [];
      particle_line_contact_candidates := [];
      local_adjacent_particles := [];
      ghost_adjacent_particles := [];
      pw_pairs_in_contact := [];
      particle_points_in_contact := [];
      particle_lines_in_contact := [];
      particle_container := [];
      ghost_particle_container := [];
      insertion_object := None;
      integrator_object := None;
      pp_contact_force_object := None;
      pw_contact_force_object := None
    |}.

(** *** [cell_weight] *)
Definition particle_weight : N := 10000.

(** The weight deal.II gives every cell by itself. *)
Definition base_cell_weight : N := 1000.

(** [GeometryInfo<dim>::max_children_per_cell] *)
Definition max_children_per_cell : nat := 2 ^ dim.

Definition cell_weight (s : DEMSolver) (cell : Cell) (status : CellStatus)
  : exception + N :=
  if negb (is_locally_owned cell) then inr 0
  else if bool_decide (status = CELL_PERSIST \/ status = CELL_REFINE) then
    let n_particles_in_cell_ :=
      to_unsigned_int (n_particles_in_cell (particle_handler s) cell) in
    inr (to_unsigned_int (n_particles_in_cell_ * particle_weight))
  else if bool_decide (status = CELL_COARSEN) then
    let n_particles_in_cell_ :=
      foldl
        (fun acc child_index =>
           to_unsigned_int
             (acc + n_particles_in_cell (particle_handler s)
                      (child cell child_index)))
        0 (seq 0 max_children_per_cell) in
    inr (to_unsigned_int (n_particles_in_cell_ * particle_weight))
  else if debug_build then inl ExcInternalError
  else inr 0.

(** *** [read_mesh] *)
Definition set_grid (g : Grid) (t : Triangulation) : Triangulation :=
  {| grid := g; signals := signals t |}.

Definition update_grid (f : Grid -> Grid) : Exec unit :=
  modify (fun s =>
    set_triangulation
      (set_grid (f (grid (triangulation s))) (triangulation s)) s).

Definition unsupported_mesh_error : string :=
  "Unsupported mesh type - mesh will not be created".

Definition read_mesh : Exec unit :=
  m ← gets (fun s => mesh (parameters s));
  match Parameters.type m with
  | Parameters.gmsh =>
      call ev_read_msh;;
      update_grid (fun g => read_msh g (Parameters.file_name m))
  | Parameters.dealii =>
      call ev_generate_from_name_and_arguments;;
      update_grid (fun g =>
        generate_from_name_and_arguments g
          (Parameters.grid_type m) (Parameters.grid_arguments m))
  | _ => throw (runtime_error unsupported_mesh_error)
  end;;
  call ev_refine_global;;
  update_grid (fun g => refine_global g (Parameters.initial_refinement m)).

(** *** The three cadence tests of [solve] and [insert_particles] *)
Definition step_number (s : DEMSolver) : N :=
  get_step_number (simulation_control s).

Definition insertion_due (s : DEMSolver) : bool :=
  double_eq (fmod (step_number s) (insertion_frequency s)) 1.

Definition repartition_due (s : DEMSolver) : bool :=
  double_eq (fmod (step_number s) (repartition_frequency s)) 0.

Definition detection_due (s : DEMSolver) : bool :=
  double_eq (fmod (step_number s) (contact_detection_frequency s)) 0.

(** *** [insert_particles] *)
Definition insert_particles : Exec bool :=
  call ev_insert_particles;;
  due ← gets insertion_due;
  if due : bool then
    o ← deref insertion_object;
    call ev_insert;;
    modify (fun s =>
      set_particle_handler
        (insert o (particle_handler s) (grid (triangulation s))
           (parameters s)) s);;
    mret true
  else mret false.

(** *** [particle_wall_broad_search] *)
Definition particle_wall_broad_search : Exec unit :=
  call ev_particle_wall_broad_search;;
  call ev_find_PW_Contact_Pairs;;
  modify (fun s =>
    set_pw_contact_candidates
      (find_PW_Contact_Pairs (boundary_cells_information s)
         (particle_handler s) (pw_contact_candidates s)) s);;
  call ev_find_Particle_Point_Contact_Pairs;;
  modify (fun s =>
    set_particle_point_contact_candidates
      (find_Particle_Point_Contact_Pairs (particle_handler s)
         (boundary_cells_with_points s)) s);;
  when (dim =? 3)%nat
    (call ev_find_Particle_Line_Contact_Pairs;;
     modify (fun s =>
       set_particle_line_contact_candidates
         (find_Particle_Line_Contact_Pairs (particle_handler s)
            (boundary_cells_with_lines s)) s)).

(** *** [particle_wall_fine_search] *)
Definition particle_wall_fine_search : Exec unit :=
  call ev_particle_wall_fine_search;;
  call ev_pw_Fine_Search;;
  modify (fun s =>
    let r := pw_Fine_Search (pw_contact_candidates s)
               (pw_pairs_in_contact s) in
    set_pw_pairs_in_contact r.2 (set_pw_contact_candidates r.1 s));;
  call ev_Particle_Point_Fine_Search;;
  modify (fun s =>
    set_particle_points_in_contact
      (Particle_Point_Fine_Search (particle_point_contact_candidates s)) s);;
  when (dim =? 3)%nat
    (call ev_Particle_Line_Fine_Search;;
     modify (fun s =>
       set_particle_lines_in_contact
         (Particle_Line_Fine_Search (particle_line_contact_candidates s))
         s)).

(** *** [particle_wall_contact_force] *)
Definition particle_wall_contact_force : Exec unit :=
  call ev_particle_wall_contact_force;;
  o ← deref pw_contact_force_object;
  call ev_calculate_pw_contact_force;;
  modify (fun s =>
    let r := calculate_pw_contact_force o (pw_pairs_in_contact s)
               (physical_properties s)
               (get_time_step (simulation_control s))
               (particle_handler s) in
    set_particle_handler r.2 (set_pw_pairs_in_contact r.1 s));;
  call ev_calculate_particle_point_contact_force;;
  modify (fun s =>
    let r := calculate_particle_point_contact_force
               (particle_points_in_contact s) (physical_properties s)
               (particle_handler s) in
    set_particle_handler r.2 (set_particle_points_in_contact r.1 s));;
  when (dim =? 3)%nat
    (call ev_calculate_particle_line_contact_force;;
     modify (fun s =>
       let r := calculate_particle_line_contact_force
                  (particle_lines_in_contact s) (physical_properties s)
                  (particle_handler s) in
       set_particle_handler r.2 (set_particle_lines_in_contact r.1 s))).

(** *** [finish_simulation] *)
Definition finish_simulation : Exec unit := call ev_finish_simulation.

(** What [finish_simulation] does on the process of rank
    [this_mpi_process] among [n_mpi_processes]: the summary of the timer,
    and in a test the particles, printed by one process after another. *)
Inductive closing_action := print_summary | print_xyz | MPI_Barrier.

Definition finish_simulation_actions (prm : DEMSolverParameters)
    (n_mpi_processes this_mpi_process : N) : list closing_action :=
  (* Timer output *)
  (match Parameters.timer_type (timer prm) with
   | Parameters.timer_end => [print_summary]
   | _ => []
   end)
  (* Testing *)
  ++ (if Parameters.enabled (test prm)
      then
        flat_map
          (fun processor_number : nat =>
             (if this_mpi_process =? N.of_nat processor_number
              then [print_xyz] else [])
             ++ [MPI_Barrier])
          (seq 0 (N.to_nat n_mpi_processes))
      else []).

(** *** [reinitialize_force] *)
Definition reinitialize_particle (particle : Particle) : Particle :=
  let particle_properties := properties particle in
  let particle_properties :=
    <[force_x idx := 0%float]> particle_properties in
  let particle_properties :=
    <[force_y idx := 0%float]> particle_properties in
  let particle_properties := <[M_x idx := 0%float]> particle_properties in
  let particle_properties := <[M_y idx := 0%float]> particle_properties in
  let particle_properties :=
    if (dim =? 3)%nat
    then <[M_z idx := 0%float]>
           (<[force_z idx := 0%float]> particle_properties)
    else particle_properties in
  set_properties particle particle_properties.

Definition reinitialize_force (particle_handler_ : ParticleHandler)
  : ParticleHandler :=
  set_particles particle_handler_
    (reinitialize_particle <$> particles particle_handler_).

(** *** The four selectors *)
Definition invalid_insertion_method : string :=
  "The chosen insertion method is invalid".
Definition invalid_integration_method : string :=
  "The chosen integration method is invalid".
Definition invalid_pp_contact_force : string :=
  "The chosen particle-particle contact force model is invalid".
Definition invalid_pw_contact_force : string :=
  "The chosen particle-wall contact force model is invalid".

Definition make_shared {A} (e : A -> event)
    (set : option A -> DEMSolver -> DEMSolver) (o : A) : Exec unit :=
  call (e o);; modify (set (Some o)).

Definition set_insertion_type (prm : DEMSolverParameters)
  : Exec (option Insertion) :=
  match Parameters.insertion_method (insertion_info prm) with
  | Parameters.uniform =>
      make_shared ev_make_insertion set_insertion_object UniformInsertion
  | Parameters.non_uniform =>
      make_shared ev_make_insertion set_insertion_object NonUniformInsertion
  | _ => throw (thrown_literal invalid_insertion_method)
  end;;
  gets insertion_object.

Definition set_integrator_type (prm : DEMSolverParameters)
  : Exec (option Integrator) :=
  match Parameters.integration_method (model_parameters prm) with
  | Parameters.velocity_verlet =>
      make_shared ev_make_integrator set_integrator_object
        VelocityVerletIntegrator
  | Parameters.explicit_euler =>
      make_shared ev_make_integrator set_integrator_object
        ExplicitEulerIntegrator
  | _ => throw (thrown_literal invalid_integration_method)
  end;;
  gets integrator_object.

Definition set_pp_contact_force (prm : DEMSolverParameters)
  : Exec (option PPContactForce) :=
  match Parameters.pp_contact_force_method (model_parameters prm) with
  | Parameters.pp_linear =>
      make_shared ev_make_pp_contact_force set_pp_contact_force_object
        PPLinearForce
  | Parameters.pp_nonlinear =>
      make_shared ev_make_pp_contact_force set_pp_contact_force_object
        PPNonLinearForce
  | _ => throw (thrown_literal invalid_pp_contact_force)
  end;;
  gets pp_contact_force_object.

Definition set_pw_contact_force (prm : DEMSolverParameters)
  : Exec (option PWContactForce) :=
  match Parameters.pw_contact_force_method (model_parameters prm) with
  | Parameters.pw_linear =>
      make_shared ev_make_pw_contact_force set_pw_contact_force_object
        PWLinearForce
  | Parameters.pw_nonlinear =>
      make_shared ev_make_pw_contact_force set_pw_contact_force_object
        PWNonLinearForce
  | _ => throw (thrown_literal invalid_pw_contact_force)
  end;;
  gets pw_contact_force_object.

(** *** [write_output_results] *)
Definition write_output_results : Exec unit := call ev_write_output_results.

(** *** [triangulation.repartition()]

    deal.II fires [pre_distributed_repartition], redistributes the cells
    with the weights the [cell_weight] signal returns, and fires
    [post_distributed_repartition]. *)
Definition fire (slot : repartition_slot) : Exec unit :=
  match slot with
  | slot_register_store_callback_function =>
      call ev_register_store_callback_function;;
      modify (fun s =>
        let r := register_store_callback_function (particle_handler s)
                   (grid (triangulation s)) in
        set_particle_handler r.1
          (set_triangulation (set_grid r.2 (triangulation s)) s))
  | slot_register_load_callback_function serialization =>
      call ev_register_load_callback_function;;
      modify (fun s =>
        let r := register_load_callback_function serialization
                   (particle_handler s) (grid (triangulation s)) in
        set_particle_handler r.1
          (set_triangulation (set_grid r.2 (triangulation s)) s))
  end.

Definition cell_weights (s : DEMSolver) (cell : Cell) (status : CellStatus)
  : list (exception + N) :=
  (fun _ => cell_weight s cell status)
    <$> cell_weight_signal (signals (triangulation s)).

Definition triangulation_repartition : Exec unit :=
  call ev_repartition;;
  pre ← gets (fun s => pre_distributed_repartition (signals (triangulation s)));
  for_each pre fire;;
  call ev_redistribute;;
  modify (fun s =>
    set_triangulation
      (set_grid (redistribute (grid (triangulation s)) (cell_weights s))
         (triangulation s)) s);;
  post ← gets (fun s => post_distributed_repartition (signals (triangulation s)));
  for_each post fire.

(** *** [solve] *)

(** The calls on the local objects [cell_neighbors_object] and
    [boundary_cell_object]; each occurs before the loop and again after
    a repartition. *)
Definition call_find_cell_neighbors : Exec unit :=
  call ev_find_cell_neighbors;;
  modify (fun s =>
    let r := find_cell_neighbors (grid (triangulation s))
               (cells_local_neighbor_list s) (cells_ghost_neighbor_list s) in
    set_cells_ghost_neighbor_list r.2 (set_cells_local_neighbor_list r.1 s)).

Definition call_find_boundary_cells_information : Exec unit :=
  call ev_find_boundary_cells_information;;
  modify (fun s =>
    let r := find_boundary_cells_information (boundary_cells_with_faces s)
               (grid (triangulation s)) in
    set_boundary_cells_information r.1 (set_boundary_cells_with_faces r.2 s)).

Definition call_find_particle_point_and_line_contact_cells : Exec unit :=
  call ev_find_particle_point_and_line_contact_cells;;
  modify (fun s =>
    let r := find_particle_point_and_line_contact_cells
               (boundary_cells_with_faces s) (grid (triangulation s))
               (boundary_cells_with_lines s) (boundary_cells_with_points s) in
    set_boundary_cells_with_points r.2 (set_boundary_cells_with_lines r.1 s)).

(** The body force [g]. *)
Definition body_force (s : DEMSolver) : list float :=
  let g := replicate dim 0%float in
  let g := <[0%nat := Parameters.gx (physical_properties s)]> g in
  let g := <[1%nat := Parameters.gy (physical_properties s)]> g in
  if (dim =? 3)%nat
  then <[2%nat := Parameters.gz (physical_properties s)]> g
  else g.

(** Everything [solve] does before the loop. *)
Definition solve_setup : Exec unit :=
  call ev_print_initial_info;;
  read_mesh;;
  call_find_cell_neighbors;;
  call_find_boundary_cells_information;;
  call_find_particle_point_and_line_contact_cells;;
  prm ← gets parameters;
  o ← set_insertion_type prm;
  modify (set_insertion_object o);;
  o ← set_integrator_type prm;
  modify (set_integrator_object o);;
  o ← set_pp_contact_force prm;
  modify (set_pp_contact_force_object o);;
  o ← set_pw_contact_force prm;
  modify (set_pw_contact_force_object o).

(** The [if] block of a repartition step. *)
Definition repartition_block : Exec unit :=
  triangulation_repartition;;
  call (ev_clear c_cells_local_neighbor_list);;
  modify (set_cells_local_neighbor_list []);;
  call (ev_clear c_cells_ghost_neighbor_list);;
  modify (set_cells_ghost_neighbor_list []);;
  call (ev_clear c_boundary_cells_with_faces);;
  modify (set_boundary_cells_with_faces []);;
  call (ev_clear c_boundary_cells_with_lines);;
  modify (set_boundary_cells_with_lines []);;
  call (ev_clear c_boundary_cells_with_points);;
  modify (set_boundary_cells_with_points []);;
  call (ev_clear c_boundary_cells_information);;
  modify (set_boundary_cells_information []);;
  call_find_cell_neighbors;;
  call_find_boundary_cells_information;;
  call_find_particle_point_and_line_contact_cells.

(** [particles_were_inserted || fmod(step, contact_detection_frequency) == 0] *)
Definition detection_requested (particles_were_inserted : bool) : Exec bool :=
  due ← gets detection_due;
  mret (particles_were_inserted || due).

(** The body of the [while] loop. *)
Definition timestep (g : list float) : Exec unit :=
  call ev_print_progression;;
  due ← gets repartition_due;
  when due repartition_block;;
  (* Force reinitilization *)
  call ev_reinitialize_force;;
  modify (fun s =>
    set_particle_handler (reinitialize_force (particle_handler s)) s);;
  (* Keep track if particles were inserted this step *)
  particles_were_inserted ← insert_particles;
  (* Sort particles in cells *)
  b ← detection_requested particles_were_inserted;
  when b
    (call ev_sort_particles_into_subdomains_and_cells;;
     modify (fun s =>
       set_particle_handler
         (sort_particles_into_subdomains_and_cells (particle_handler s)
            (grid (triangulation s))) s));;
  call ev_exchange_ghost_particles;;
  modify (fun s =>
    set_particle_handler
      (exchange_ghost_particles (particle_handler s)
         (grid (triangulation s))) s);;
  (* Broad particle-particle contact search *)
  b ← detection_requested particles_were_inserted;
  when b
    (call ev_find_PP_Contact_Pairs;;
     modify (fun s =>
       let r := find_PP_Contact_Pairs (particle_handler s)
                  (cells_local_neighbor_list s) (cells_ghost_neighbor_list s)
                  (local_contact_pair_candidates s)
                  (ghost_contact_pair_candidates s) in
       set_ghost_contact_pair_candidates r.2
         (set_local_contact_pair_candidates r.1 s)));;
  (* Particle-wall broad contact search *)
  b ← detection_requested particles_were_inserted;
  when b particle_wall_broad_search;;
  b ← detection_requested particles_were_inserted;
  when b
    (call ev_localize_contacts;;
     modify (fun s =>
       let r := localize_contacts
                  (local_adjacent_particles s) (ghost_adjacent_particles s)
                  (pw_pairs_in_contact s)
                  (local_contact_pair_candidates s)
                  (ghost_contact_pair_candidates s)
                  (pw_contact_candidates s) in
       set_pw_contact_candidates r.2.2
         (set_ghost_contact_pair_candidates r.2.1.2
            (set_local_contact_pair_candidates r.2.1.1
               (set_pw_pairs_in_contact r.1.2
                  (set_ghost_adjacent_particles r.1.1.2
                     (set_local_adjacent_particles r.1.1.1 s)))))));;
  b ← detection_requested particles_were_inserted;
  (if b : bool then
     call ev_locate_local_particles_in_cells;;
     modify (fun s =>
       let r := locate_local_particles_in_cells (particle_handler s)
                  (particle_container s)
                  (ghost_adjacent_particles s) (local_adjacent_particles s)
                  (pw_pairs_in_contact s) (particle_points_in_contact s)
                  (particle_lines_in_contact s) in
       set_particle_lines_in_contact r.2.2
         (set_particle_points_in_contact r.2.1.2
            (set_pw_pairs_in_contact r.2.1.1
               (set_local_adjacent_particles r.1.2.2
                  (set_ghost_adjacent_particles r.1.2.1
                     (set_particle_container r.1.1 s))))))
   else
     call ev_locate_ghost_particles_in_cells;;
     modify (fun s =>
       let r := locate_ghost_particles_in_cells (particle_handler s)
                  (ghost_particle_container s)
                  (ghost_adjacent_particles s) in
       set_ghost_adjacent_particles r.2
         (set_ghost_particle_container r.1 s)));;
  (* Particle-particle fine search *)
  b ← detection_requested particles_were_inserted;
  when b
    (call ev_pp_Fine_Search;;
     modify (fun s =>
       let r := pp_Fine_Search
                  (local_contact_pair_candidates s)
                  (ghost_contact_pair_candidates s)
                  (local_adjacent_particles s) (ghost_adjacent_particles s)
                  (particle_container s) (neighborhood_threshold s) in
       set_ghost_adjacent_particles r.2.2
         (set_local_adjacent_particles r.2.1
            (set_ghost_contact_pair_candidates r.1.2
               (set_local_contact_pair_candidates r.1.1 s)))));;
  (* Particle-particle contact force *)
  o ← deref pp_contact_force_object;
  call ev_calculate_pp_contact_force;;
  modify (fun s =>
    let r := calculate_pp_contact_force o
               (local_adjacent_particles s) (ghost_adjacent_particles s)
               (physical_properties s)
               (get_time_step (simulation_control s))
               (particle_handler s) in
    set_particle_handler r.2
      (set_ghost_adjacent_particles r.1.2
         (set_local_adjacent_particles r.1.1 s)));;
  (* Particles-wall fine search *)
  b ← detection_requested particles_were_inserted;
  when b particle_wall_fine_search;;
  (* Particles-walls contact force *)
  particle_wall_contact_force;;
  (* Integration *)
  o ← deref integrator_object;
  call ev_integrate;;
  modify (fun s =>
    set_particle_handler
      (integrate o (particle_handler s) g
         (get_time_step (simulation_control s))) s);;
  (* Visualization *)
  out ← gets (fun s => is_output_iteration (simulation_control s));
  when out write_output_results.

(** How a run ends: an exception left [solve], the loop ended because
    [integrate()] returned false, or the observation stopped after the
    given number of loop tests. *)
Inductive outcome :=
  | Aborted (e : exception)
  | Finished (s : DEMSolver)
  | Interrupted (s : DEMSolver).

(** [while (simulation_control->integrate()) { ... }]: every timestep
    executed, as the solver at its start and its history. *)
Fixpoint timestep_loop (fuel : nat) (g : list float) (s : DEMSolver)
  : list (DEMSolver * history) * outcome :=
  match fuel with
  | O => ([], Interrupted s)
  | S fuel' =>
      let r := sc_integrate (simulation_control s) in
      let s := set_simulation_control r.2 s in
      if r.1 then
        match run_result (timestep g) s with
        | inl e => ([(s, run_history (timestep g) s)], Aborted e)
        | inr (_, s') =>
            let rest := timestep_loop fuel' g s' in
            ((s, run_history (timestep g) s) :: rest.1, rest.2)
        end
      else ([], Finished s)
  end.

Record Run := {
  setup_history : history;
  timesteps : list (DEMSolver * history);
  closing_history : history;
  result : outcome
}.

Definition solve (fuel : nat) (s : DEMSolver) : Run :=
  match run_result solve_setup s with
  | inl e =>
      {| setup_history := run_history solve_setup s;
         timesteps := [];
         closing_history := [];
         result := Aborted e |}
  | inr (_, s1) =>
      let l := timestep_loop fuel (body_force s1) s1 in
      {| setup_history := run_history solve_setup s;
         timesteps := l.1;
         closing_history :=
           match l.2 with
           | Finished s2 => run_history finish_simulation s2
           | _ => []
           end;
         result := l.2 |}
  end.

(** A solver is constructed and then asked to [solve]; when the
    constructor throws there is no object to call [solve] on. *)
Definition construct_and_solve (fuel : nat) (prm : DEMSolverParameters)
  : Run :=
  match DEMSolver_constructor prm with
  | inl e =>
      {| setup_history := [];
         timesteps := [];
         closing_history := [];
         result := Aborted e |}
  | inr s => solve fuel s
  end.

End Solver.


Arguments fmod : simpl never.
Arguments double_eq : simpl never.
Arguments double_ne : simpl never.

(** ** A small concrete world

    Cells, candidates and contacts are numbers; the particle handler
    keeps a table of particles per cell; the simulation control is the
    pair of the current step and the last step.  Insertion adds one
    particle, the broad search proposes every particle, the fine search
    keeps every candidate, the particle-particle force writes into the
    force slot; the other collaborators do as little as their signatures
    allow. *)
Module Toy.

Definition carriers : Carriers :=
  {| Grid := nat;
     Cell := nat;
     HandlerData := nat -> N;
     SimulationControl := N * N;
     SimulationControlParameters := N;
     boundary_cells_info_struct := nat;
     boundary_line := nat;
     boundary_point := nat;
     pp_candidate := N;
     pw_candidate := N;
     point_candidate := N;
     line_candidate := N;
     pp_contact_info_struct := N;
     pw_contact_info_struct := N;
     point_contact_info_struct := N;
     line_contact_info_struct := N;
     particle_iterator := N |}.

#[local] Existing Instance carriers.

(** The enumerators of [DEM::PropertiesIndex] as Lethe numbers them. *)
Definition indices : PropertiesIndex :=
  {| n_properties := 21;
     force_x := 10; force_y := 11; force_z := 12;
     M_x := 18; M_y := 19; M_z := 20 |}.

Definition new_particle (k : N) : Particle :=
  {| location := [0%float; 0%float; 0%float];
     reference_location := [0%float; 0%float; 0%float];
     id := k;
     properties := replicate 21 1%float |}.

Definition push (p : Particle) : Particle :=
  set_properties p (<[10%nat := 2.5%float]> (properties p)).

Definition ids (ph : ParticleHandler) : list N := id <$> particles ph.

Definition collaborators : Collaborators :=
  @Build_Collaborators carriers
    (* std_pow *) (fun x _ => (x * x)%float)
    (* make_simulation_control *) (fun last : N => ((0, last) : N * N))
    (* sc_integrate *)
    (fun sc : N * N => (sc.1 <? sc.2, (sc.1 + 1, sc.2)))
    (* get_step_number *) (fun sc : N * N => sc.1)
    (* get_time_step *) (fun _ => 1%float)
    (* is_output_iteration *) (fun _ => false)
    (* empty_grid *) 0%nat
    (* read_msh *) (fun g _ => g)
    (* generate_from_name_and_arguments *) (fun g _ _ => g)
    (* refine_global *) (fun g _ => g)
    (* redistribute *) (fun g _ => S g)
    (* is_locally_owned *) (fun c => negb (c =? 0)%nat)
    (* child *) (fun c i => (c + S i)%nat)
    (* empty_handler_data *) (fun _ => 0)
    (* n_particles_in_cell *)
    (fun (ph : ParticleHandler) c => handler_data ph c)
    (* register_store_callback_function *) (fun ph g => (ph, g))
    (* register_load_callback_function *) (fun _ ph g => (ph, g))
    (* sort_particles_into_subdomains_and_cells *) (fun ph _ => ph)
    (* exchange_ghost_particles *) (fun ph _ => ph)
    (* find_cell_neighbors *) (fun g l gh => (l ++ [[g]], gh ++ [[g]]))
    (* find_boundary_cells_information *) (fun f g => ([g], f ++ [g]))
    (* find_particle_point_and_line_contact_cells *)
    (fun _ g l p => (l ++ [g], p ++ [g]))
    (* insert *)
    (fun _ ph _ _ =>
       set_particles ph
         (particles ph ++ [new_particle (N.of_nat (length (particles ph)))]))
    (* find_PP_Contact_Pairs *) (fun ph _ _ _ _ => (ids ph, []))
    (* find_PW_Contact_Pairs *) (fun _ ph _ => ids ph)
    (* find_Particle_Point_Contact_Pairs *) (fun _ _ => [])
    (* find_Particle_Line_Contact_Pairs *) (fun _ _ => [])
    (* localize_contacts *) (fun a b c d e f => ((a, b, c), (d, e, f)))
    (* locate_local_particles_in_cells *)
    (fun ph _ g l pw pt ln => (ids ph, (g, l), (pw, pt, ln)))
    (* locate_ghost_particles_in_cells *) (fun _ pc g => (pc, g))
    (* pp_Fine_Search *)
    (fun lc gc l g _ _ => ((lc, gc), (list_union l lc, list_union g gc)))
    (* pw_Fine_Search *) (fun c p => (c, list_union p c))
    (* Particle_Point_Fine_Search *) (fun c => c)
    (* Particle_Line_Fine_Search *) (fun c => c)
    (* calculate_pp_contact_force *)
    (fun _ l g _ _ ph => ((l, g), set_particles ph (push <$> particles ph)))
    (* calculate_pw_contact_force *) (fun _ p _ _ ph => (p, ph))
    (* calculate_particle_point_contact_force *) (fun p _ ph => (p, ph))
    (* calculate_particle_line_contact_force *) (fun p _ ph => (p, ph))
    (* integrate *) (fun _ ph _ _ => ph)
    (* debug_build *) false.

#[local] Existing Instance collaborators.

(** Detection every [C] steps, repartition every [R], insertion every [I];
    the run lasts four steps. *)
Definition prm (C R I : N) : DEMSolverParameters :=
  {| mesh :=
       {| Parameters.type := Parameters.dealii;
          Parameters.file_name := "";
          Parameters.grid_type := "hyper_cube";
          Parameters.grid_arguments := "-1 : 1 : false";
          Parameters.initial_refinement := 3 |};
     insertion_info :=
       {| Parameters.insertion_method := Parameters.uniform;
          Parameters.insertion_frequency := I |};
     model_parameters :=
       {| Parameters.contact_detection_frequency := C;
          Parameters.repartition_frequency := R;
          Parameters.neighborhood_threshold := 1.5%float;
          Parameters.integration_method := Parameters.velocity_verlet;
          Parameters.pp_contact_force_method := Parameters.pp_nonlinear;
          Parameters.pw_contact_force_method := Parameters.pw_nonlinear |};
     physical_properties_prm :=
       {| Parameters.gx := 0%float;
          Parameters.gy := (-9.8125)%float;
          Parameters.gz := 0%float;
          Parameters.diameter := 0.0078125%float |};
     simulation_control_prm := 4;
     timer := {| Parameters.timer_type := Parameters.timer_none |};
     test := {| Parameters.enabled := false |} |}.

Definition run (dim : nat) (C R I : N) : Run :=
  construct_and_solve dim indices 10 (prm C R I).

(** A solver with nothing in it, and the solver the constructor builds. *)
Definition blank : DEMSolver :=
  {| parameters := prm 1 1 1;
     triangulation := {| grid := 0%nat; signals := connected_signals |};
     particle_handler :=
       {| particles := []; ghost_particles := [];
          n_properties_per_slot := 21; handler_data := fun _ => 0 |};
     computing_timer_output := false;
     neighborhood_threshold := 0%float;
     contact_detection_frequency := 1;
     repartition_frequency := 1;
     insertion_frequency := 1;
     physical_properties := physical_properties_prm (prm 1 1 1);
     simulation_control := (0, 4);
     cells_local_neighbor_list := [];
     cells_ghost_neighbor_list := [];
     boundary_cells_with_faces := [];
     boundary_cells_with_lines := [];
     boundary_cells_with_points := [];
     boundary_cells_information := [];
     local_contact_pair_candidates := [];
     ghost_contact_pair_candidates := [];
     pw_contact_candidates := [];
     particle_point_contact_candidates := [];
     particle_line_contact_candidates := [];
     local_adjacent_particles := [];
     ghost_adjacent_particles := [];
     pw_pairs_in_contact := [];
     particle_points_in_contact := [];
     particle_lines_in_contact := [];
     particle_container := [];
     ghost_particle_container := [];
     insertion_object := None;
     integrator_object := None;
     pp_contact_force_object := None;
     pw_contact_force_object := None |}.

(** The configuration of [prm 2 4 3] with an insertion method [dem.cc]
    does not list. *)
Definition prm_unlisted : DEMSolverParameters :=
  let p := prm 2 4 3 in
  {| mesh := mesh p;
     insertion_info :=
       {| Parameters.insertion_method := Parameters.InsertionMethod_unlisted 2;
          Parameters.insertion_frequency := 3 |};
     model_parameters := model_parameters p;
     physical_properties_prm := physical_properties_prm p;
     simulation_control_prm := simulation_control_prm p;
     timer := timer p;
     test := test p |}.

(** The configuration of [prm 2 4 3] with a mesh type [dem.cc] does not
    list, and the one that prints the timer summary and runs as a
    test. *)
Definition prm_unsupported_mesh : DEMSolverParameters :=
  let p := prm 2 4 3 in
  {| mesh :=
       {| Parameters.type := Parameters.MeshType_unlisted 2;
          Parameters.file_name := Parameters.file_name (mesh p);
          Parameters.grid_type := Parameters.grid_type (mesh p);
          Parameters.grid_arguments := Parameters.grid_arguments (mesh p);
          Parameters.initial_refinement :=
            Parameters.initial_refinement (mesh p) |};
     insertion_info := insertion_info p;
     model_parameters := model_parameters p;
     physical_properties_prm := physical_properties_prm p;
     simulation_control_prm := simulation_control_prm p;
     timer := timer p;
     test := test p |}.

Definition prm_test : DEMSolverParameters :=
  let p := prm 2 4 3 in
  {| mesh := mesh p;
     insertion_info := insertion_info p;
     model_parameters := model_parameters p;
     physical_properties_prm := physical_properties_prm p;
     simulation_control_prm := simulation_control_prm p;
     timer := {| Parameters.timer_type := Parameters.timer_end |};
     test := {| Parameters.enabled := true |} |}.

Definition constructed (p : DEMSolverParameters) : DEMSolver :=
  match DEMSolver_constructor indices p with
  | inr s => s
  | inl _ => blank
  end.

Definition solver (C R I : N) : DEMSolver := constructed (prm C R I).

(** The constructed solver at step [n] with an insertion object. *)
Definition solver_at (C R I n : N) : DEMSolver :=
  set_insertion_object (Some UniformInsertion)
    (set_simulation_control ((n, 4) : N * N) (solver C R I)).

(** A handler with two particles that carry forces and two particles in
    every cell, a solver that holds it, and a solver whose cell 1 holds
    429497 particles. *)
Definition two_particles : ParticleHandler :=
  {| particles := [push (new_particle 0); push (new_particle 1)];
     ghost_particles := [new_particle 2];
     n_properties_per_slot := 21;
     handler_data := fun _ => 2 |}.

Definition busy : DEMSolver := set_particle_handler two_particles blank.

Definition crowded : DEMSolver :=
  set_particle_handler
    {| particles := []; ghost_particles := [];
       n_properties_per_slot := 21;
       handler_data := fun c => if (c =? 1)%nat then 429497 else 0 |}
    blank.

(** The timesteps of the run with detection every 2 steps, repartition
    every 4 and insertion every 3, in three dimensions. *)
Definition steps : list (DEMSolver * history) := timesteps (run 3 2 4 3).

Definition step (k : nat) : DEMSolver * history :=
  nth k steps (blank, []).

(** The solver on which the first [localize_contacts] of a history is
    called. *)
Definition at_localize (h : history) : DEMSolver :=
  match filter (fun x => x.1 = ev_localize_contacts) h with
  | x :: _ => x.2
  | [] => blank
  end.

(** The timesteps of the same run in two dimensions. *)
Definition flat_steps : list (DEMSolver * history) := timesteps (run 2 2 4 3).

Definition flat_step (k : nat) : DEMSolver * history :=
  nth k flat_steps (blank, []).

(** The solver on which the first call of [e] of a history is made. *)
Definition at_first (e : event) (h : history) : DEMSolver :=
  match filter (fun x => x.1 = e) h with
  | x :: _ => x.2
  | [] => blank
  end.

(** The small world with ghost particles: the exchange leaves a ghost
    copy of every particle of the handler, and the particle-particle
    force is added to the ghost particles as well. *)
Definition ghosting : Collaborators :=
  @Build_Collaborators carriers
    (* std_pow *) (fun x _ => (x * x)%float)
    (* make_simulation_control *) (fun last : N => ((0, last) : N * N))
    (* sc_integrate *)
    (fun sc : N * N => (sc.1 <? sc.2, (sc.1 + 1, sc.2)))
    (* get_step_number *) (fun sc : N * N => sc.1)
    (* get_time_step *) (fun _ => 1%float)
    (* is_output_iteration *) (fun _ => false)
    (* empty_grid *) 0%nat
    (* read_msh *) (fun g _ => g)
    (* generate_from_name_and_arguments *) (fun g _ _ => g)
    (* refine_global *) (fun g _ => g)
    (* redistribute *) (fun g _ => S g)
    (* is_locally_owned *) (fun c => negb (c =? 0)%nat)
    (* child *) (fun c i => (c + S i)%nat)
    (* empty_handler_data *) (fun _ => 0)
    (* n_particles_in_cell *)
    (fun (ph : ParticleHandler) c => handler_data ph c)
    (* register_store_callback_function *) (fun ph g => (ph, g))
    (* register_load_callback_function *) (fun _ ph g => (ph, g))
    (* sort_particles_into_subdomains_and_cells *) (fun ph _ => ph)
    (* exchange_ghost_particles *)
    (fun ph _ =>
       {| particles := particles ph;
          ghost_particles := particles ph;
          n_properties_per_slot := n_properties_per_slot ph;
          handler_data := handler_data ph |})
    (* find_cell_neighbors *) (fun g l gh => (l ++ [[g]], gh ++ [[g]]))
    (* find_boundary_cells_information *) (fun f g => ([g], f ++ [g]))
    (* find_particle_point_and_line_contact_cells *)
    (fun _ g l p => (l ++ [g], p ++ [g]))
    (* insert *)
    (fun _ ph _ _ =>
       set_particles ph
         (particles ph ++ [new_particle (N.of_nat (length (particles ph)))]))
    (* find_PP_Contact_Pairs *) (fun ph _ _ _ _ => (ids ph, []))
    (* find_PW_Contact_Pairs *) (fun _ ph _ => ids ph)
    (* find_Particle_Point_Contact_Pairs *) (fun _ _ => [])
    (* find_Particle_Line_Contact_Pairs *) (fun _ _ => [])
    (* localize_contacts *) (fun a b c d e f => ((a, b, c), (d, e, f)))
    (* locate_local_particles_in_cells *)
    (fun ph _ g l pw pt ln => (ids ph, (g, l), (pw, pt, ln)))
    (* locate_ghost_particles_in_cells *) (fun _ pc g => (pc, g))
    (* pp_Fine_Search *)
    (fun lc gc l g _ _ => ((lc, gc), (list_union l lc, list_union g gc)))
    (* pw_Fine_Search *) (fun c p => (c, list_union p c))
    (* Particle_Point_Fine_Search *) (fun c => c)
    (* Particle_Line_Fine_Search *) (fun c => c)
    (* calculate_pp_contact_force *)
    (fun _ l g _ _ ph =>
       ((l, g),
        {| particles := push <$> particles ph;
           ghost_particles := push <$> ghost_particles ph;
           n_properties_per_slot := n_properties_per_slot ph;
           handler_data := handler_data ph |}))
    (* calculate_pw_contact_force *) (fun _ p _ _ ph => (p, ph))
    (* calculate_particle_point_contact_force *) (fun p _ ph => (p, ph))
    (* calculate_particle_line_contact_force *) (fun p _ ph => (p, ph))
    (* integrate *) (fun _ ph _ _ => ph)
    (* debug_build *) false.

(** The timesteps of the run of [prm 2 4 3] in that world, in three
    dimensions. *)
Definition ghost_steps : list (DEMSolver * history) :=
  timesteps (@construct_and_solve carriers ghosting 3 indices 10 (prm 2 4 3)).

Definition ghost_step (k : nat) : DEMSolver * history :=
  nth k ghost_steps (blank, []).

End Toy.

(** * Vocabulary of the statements *)

Section Vocabulary.

Context {C : Carriers} {E : Collaborators}.
Variable dim : nat.
Variable idx : PropertiesIndex.

(** ** Executions *)

(** [executes P m evs H a Q]: from a solver that satisfies [P], [m]
    returns [a] and leaves a solver that satisfies [Q]; it makes the
    calls [evs], each on a solver that satisfies [H]. *)
Definition executes {A} (P : DEMSolver -> Prop) (m : Exec A)
    (evs : list event) (H : event -> DEMSolver -> Prop)
    (a : A) (Q : DEMSolver -> Prop) : Prop :=
  forall s, P s ->
    exists s',
      run_result m s = inr (a, s') /\
      events (run_history m s) = evs /\
      Forall (fun x => H x.1 x.2) (run_history m s) /\
      Q s'.

(** [throws P m e]: from a solver that satisfies [P], [m] throws [e]. *)
Definition throws {A} (P : DEMSolver -> Prop) (m : Exec A)
    (e : exception) : Prop :=
  forall s, P s -> run_result m s = inl e.

(** ** What a timestep leaves alone *)

(** What no call inside a timestep changes. *)
Definition control (s : DEMSolver) :=
  (parameters s, simulation_control s,
   (contact_detection_frequency s, repartition_frequency s,
    insertion_frequency s),
   signals (triangulation s),
   (insertion_object s, integrator_object s,
    pp_contact_force_object s, pw_contact_force_object s)).

(** The contact-object collections. *)
Definition contacts (s : DEMSolver) :=
  (local_adjacent_particles s, ghost_adjacent_particles s,
   pw_pairs_in_contact s, particle_points_in_contact s,
   particle_lines_in_contact s).

Definition cache_is_empty (c : cache) (s : DEMSolver) : Prop :=
  match c with
  | c_cells_local_neighbor_list => cells_local_neighbor_list s = []
  | c_cells_ghost_neighbor_list => cells_ghost_neighbor_list s = []
  | c_boundary_cells_with_faces => boundary_cells_with_faces s = []
  | c_boundary_cells_with_lines => boundary_cells_with_lines s = []
  | c_boundary_cells_with_points => boundary_cells_with_points s = []
  | c_boundary_cells_information => boundary_cells_information s = []
  end.

(** Until [localize_contacts] the contact-object collections are those
    of the solver [s0] the timestep started from; the control never
    changes. *)
Definition before_localize (s0 s : DEMSolver) : Prop :=
  control s = control s0 /\ contacts s = contacts s0.

Definition after_localize (s0 s : DEMSolver) : Prop :=
  control s = control s0.

Definition cleared (s0 : DEMSolver) (l : list cache) (s : DEMSolver) : Prop :=
  before_localize s0 s /\ forall c, In c l -> cache_is_empty c s.

(** What holds of the solver on which a call of a timestep is made: the
    three rebuilding calls find the containers they fill empty, and
    [localize_contacts] finds the contact-object collections of [s0]. *)
Definition at_call (s0 : DEMSolver) (e : event) (s : DEMSolver) : Prop :=
  control s = control s0 /\
  match e with
  | ev_find_cell_neighbors =>
      cache_is_empty c_cells_local_neighbor_list s /\
      cache_is_empty c_cells_ghost_neighbor_list s
  | ev_find_boundary_cells_information =>
      cache_is_empty c_boundary_cells_with_faces s /\
      cache_is_empty c_boundary_cells_information s
  | ev_find_particle_point_and_line_contact_cells =>
      cache_is_empty c_boundary_cells_with_lines s /\
      cache_is_empty c_boundary_cells_with_points s
  | ev_localize_contacts => contacts s = contacts s0
  | _ => True
  end.

(** ** The events of a timestep, in closed form *)

Definition repartition_events : list event :=
  [ev_repartition; ev_register_store_callback_function; ev_redistribute;
   ev_register_load_callback_function;
   ev_clear c_cells_local_neighbor_list;
   ev_clear c_cells_ghost_neighbor_list;
   ev_clear c_boundary_cells_with_faces;
   ev_clear c_boundary_cells_with_lines;
   ev_clear c_boundary_cells_with_points;
   ev_clear c_boundary_cells_information;
   ev_find_cell_neighbors; ev_find_boundary_cells_information;
   ev_find_particle_point_and_line_contact_cells].

Definition wall_broad_events : list event :=
  [ev_particle_wall_broad_search; ev_find_PW_Contact_Pairs;
   ev_find_Particle_Point_Contact_Pairs]
  ++ (if (dim =? 3)%nat then [ev_find_Particle_Line_Contact_Pairs] else []).

Definition wall_fine_events : list event :=
  [ev_particle_wall_fine_search; ev_pw_Fine_Search;
   ev_Particle_Point_Fine_Search]
  ++ (if (dim =? 3)%nat then [ev_Particle_Line_Fine_Search] else []).

Definition wall_force_events : list event :=
  [ev_particle_wall_contact_force; ev_calculate_pw_contact_force;
   ev_calculate_particle_point_contact_force]
  ++ (if (dim =? 3)%nat
      then [ev_calculate_particle_line_contact_force] else []).

(** [rep], [ins], [det], [out]: a repartition is due, an insertion is
    due, a contact detection is due, the step is an output iteration. *)
Definition timestep_events (rep ins det out : bool) : list event :=
  [ev_print_progression]
  ++ (if rep then repartition_events else [])
  ++ [ev_reinitialize_force; ev_insert_particles]
  ++ (if ins then [ev_insert] else [])
  ++ (if ins || det then [ev_sort_particles_into_subdomains_and_cells]
      else [])
  ++ [ev_exchange_ghost_particles]
  ++ (if ins || det
      then [ev_find_PP_Contact_Pairs] ++ wall_broad_events
           ++ [ev_localize_contacts; ev_locate_local_particles_in_cells;
               ev_pp_Fine_Search]
      else [ev_locate_ghost_particles_in_cells])
  ++ [ev_calculate_pp_contact_force]
  ++ (if ins || det then wall_fine_events else [])
  ++ wall_force_events
  ++ [ev_integrate]
  ++ (if out then [ev_write_output_results] else []).

Definition events_of (s : DEMSolver) : list event :=
  timestep_events (repartition_due s) (insertion_due s) (detection_due s)
    (is_output_iteration (simulation_control s)).

(** ** Before the loop *)

(** The strategy object each recognised selection stands for. *)
Definition insertion_for (m : Parameters.InsertionMethod)
  : option Insertion :=
  match m with
  | Parameters.uniform => Some UniformInsertion
  | Parameters.non_uniform => Some NonUniformInsertion
  | Parameters.InsertionMethod_unlisted _ => None
  end.

Definition integrator_for (m : Parameters.IntegrationMethod)
  : option Integrator :=
  match m with
  | Parameters.velocity_verlet => Some VelocityVerletIntegrator
  | Parameters.explicit_euler => Some ExplicitEulerIntegrator
  | Parameters.IntegrationMethod_unlisted _ => None
  end.

Definition pp_force_for (m : Parameters.PPContactForceModel)
  : option PPContactForce :=
  match m with
  | Parameters.pp_linear => Some PPLinearForce
  | Parameters.pp_nonlinear => Some PPNonLinearForce
  | Parameters.PPContactForceModel_unlisted _ => None
  end.

Definition pw_force_for (m : Parameters.PWContactForceModel)
  : option PWContactForce :=
  match m with
  | Parameters.pw_linear => Some PWLinearForce
  | Parameters.pw_nonlinear => Some PWNonLinearForce
  | Parameters.PWContactForceModel_unlisted _ => None
  end.

Definition mesh_event_for (t : Parameters.MeshType) : option event :=
  match t with
  | Parameters.gmsh => Some ev_read_msh
  | Parameters.dealii => Some ev_generate_from_name_and_arguments
  | Parameters.MeshType_unlisted _ => None
  end.

(** What the calls before the loop leave alone. *)
Definition fixed (s : DEMSolver) :=
  (parameters s,
   (contact_detection_frequency s, repartition_frequency s,
    insertion_frequency s),
   signals (triangulation s)).

Definition configured (s0 : DEMSolver)
    (o1 : option Insertion) (o2 : option Integrator)
    (o3 : option PPContactForce) (o4 : option PWContactForce)
    (s : DEMSolver) : Prop :=
  fixed s = fixed s0 /\
  insertion_object s = o1 /\ integrator_object s = o2 /\
  pp_contact_force_object s = o3 /\ pw_contact_force_object s = o4.

Definition any_call (e : event) (s : DEMSolver) : Prop := True.

(** The calls [solve] makes before the loop when nothing throws. *)
Definition setup_events (mesh_event : event) (o1 : Insertion)
    (o2 : Integrator) (o3 : PPContactForce) (o4 : PWContactForce)
  : list event :=
  [ev_print_initial_info; mesh_event; ev_refine_global;
   ev_find_cell_neighbors; ev_find_boundary_cells_information;
   ev_find_particle_point_and_line_contact_cells;
   ev_make_insertion o1; ev_make_integrator o2;
   ev_make_pp_contact_force o3; ev_make_pw_contact_force o4].

(** The exception a configuration makes [solve] throw before the loop,
    if any: the first selection, in the order [solve] looks at them,
    that is not recognised. *)
Definition configuration_error (prm : DEMSolverParameters)
  : option exception :=
  match mesh_event_for (Parameters.type (mesh prm)) with
  | None => Some (runtime_error unsupported_mesh_error)
  | Some _ =>
  match insertion_for (Parameters.insertion_method (insertion_info prm)) with
  | None => Some (thrown_literal invalid_insertion_method)
  | Some _ =>
  match integrator_for
          (Parameters.integration_method (model_parameters prm)) with
  | None => Some (thrown_literal invalid_integration_method)
  | Some _ =>
  match pp_force_for
          (Parameters.pp_contact_force_method (model_parameters prm)) with
  | None => Some (thrown_literal invalid_pp_contact_force)
  | Some _ =>
  match pw_force_for
          (Parameters.pw_contact_force_method (model_parameters prm)) with
  | None => Some (thrown_literal invalid_pw_contact_force)
  | Some _ => None
  end end end end end.

Definition selected (prm : DEMSolverParameters)
    (o1 : Insertion) (o2 : Integrator) (o3 : PPContactForce)
    (o4 : PWContactForce) : Prop :=
  insertion_for (Parameters.insertion_method (insertion_info prm)) = Some o1 /\
  integrator_for (Parameters.integration_method (model_parameters prm))
    = Some o2 /\
  pp_force_for (Parameters.pp_contact_force_method (model_parameters prm))
    = Some o3 /\
  pw_force_for (Parameters.pw_contact_force_method (model_parameters prm))
    = Some o4.

Definition frequencies_of (prm : DEMSolverParameters) : N * N * N :=
  (Parameters.contact_detection_frequency (model_parameters prm),
   Parameters.repartition_frequency (model_parameters prm),
   Parameters.insertion_frequency (insertion_info prm)).

(** The solver at the start of a timestep of a run configured by [prm]. *)
Definition in_loop (prm : DEMSolverParameters)
    (o1 : Insertion) (o2 : Integrator) (o3 : PPContactForce)
    (o4 : PWContactForce) (s : DEMSolver) : Prop :=
  fixed s = (prm, frequencies_of prm, connected_signals) /\
  insertion_object s = Some o1 /\ integrator_object s = Some o2 /\
  pp_contact_force_object s = Some o3 /\
  pw_contact_force_object s = Some o4.

(** ** Stages of the pipeline *)

(** [in_order rank evs]: an event of a lower rank never comes after an
    event of a higher rank; events without a rank do not count. *)
Definition in_order (rank : event -> option nat) (evs : list event) : Prop :=
  StronglySorted le (omap rank evs).

Fixpoint nondecreasing (l : list nat) : bool :=
  match l with
  | [] => true
  | x :: l' => forallb (Nat.leb x) l' && nondecreasing l'
  end.

(** The four phases as one sequence: every broad search, then every fine
    search, then every force computation, then the integration. *)
Definition pipeline_phase (e : event) : option nat :=
  match e with
  | ev_find_PP_Contact_Pairs | ev_particle_wall_broad_search
  | ev_find_PW_Contact_Pairs | ev_find_Particle_Point_Contact_Pairs
  | ev_find_Particle_Line_Contact_Pairs => Some 1%nat
  | ev_pp_Fine_Search | ev_particle_wall_fine_search | ev_pw_Fine_Search
  | ev_Particle_Point_Fine_Search | ev_Particle_Line_Fine_Search =>
      Some 2%nat
  | ev_calculate_pp_contact_force | ev_particle_wall_contact_force
  | ev_calculate_pw_contact_force
  | ev_calculate_particle_point_contact_force
  | ev_calculate_particle_line_contact_force => Some 3%nat
  | ev_integrate => Some 4%nat
  | _ => None
  end.

(** The phases of the particle-particle contacts alone. *)
Definition particle_particle_phase (e : event) : option nat :=
  match e with
  | ev_find_PP_Contact_Pairs => Some 1%nat
  | ev_pp_Fine_Search => Some 2%nat
  | ev_calculate_pp_contact_force => Some 3%nat
  | ev_integrate => Some 4%nat
  | _ => None
  end.

(** The phases of the particle-wall, -point and -line contacts alone. *)
Definition particle_wall_phase (e : event) : option nat :=
  match e with
  | ev_particle_wall_broad_search | ev_find_PW_Contact_Pairs
  | ev_find_Particle_Point_Contact_Pairs
  | ev_find_Particle_Line_Contact_Pairs => Some 1%nat
  | ev_particle_wall_fine_search | ev_pw_Fine_Search
  | ev_Particle_Point_Fine_Search | ev_Particle_Line_Fine_Search =>
      Some 2%nat
  | ev_particle_wall_contact_force | ev_calculate_pw_contact_force
  | ev_calculate_particle_point_contact_force
  | ev_calculate_particle_line_contact_force => Some 3%nat
  | ev_integrate => Some 4%nat
  | _ => None
  end.

(** The ghost exchange, then every force computation. *)
Definition exchange_then_force (e : event) : option nat :=
  match e with
  | ev_exchange_ghost_particles => Some 0%nat
  | ev_calculate_pp_contact_force | ev_particle_wall_contact_force
  | ev_calculate_pw_contact_force
  | ev_calculate_particle_point_contact_force
  | ev_calculate_particle_line_contact_force => Some 1%nat
  | _ => None
  end.

(** The two families as [solve] interleaves them. *)
Definition interleaved_phase (e : event) : option nat :=
  match e with
  | ev_find_PP_Contact_Pairs => Some 1%nat
  | ev_particle_wall_broad_search | ev_find_PW_Contact_Pairs
  | ev_find_Particle_Point_Contact_Pairs
  | ev_find_Particle_Line_Contact_Pairs => Some 2%nat
  | ev_pp_Fine_Search => Some 3%nat
  | ev_calculate_pp_contact_force => Some 4%nat
  | ev_particle_wall_fine_search | ev_pw_Fine_Search
  | ev_Particle_Point_Fine_Search | ev_Particle_Line_Fine_Search =>
      Some 5%nat
  | ev_particle_wall_contact_force | ev_calculate_pw_contact_force
  | ev_calculate_particle_point_contact_force
  | ev_calculate_particle_line_contact_force => Some 6%nat
  | ev_integrate => Some 7%nat
  | _ => None
  end.

(** ** Calls by kind *)

(** The searches made in two and in three dimensions, and those made in
    three dimensions only. *)
Definition search_calls : list event :=
  [ev_find_PP_Contact_Pairs; ev_particle_wall_broad_search;
   ev_find_PW_Contact_Pairs; ev_find_Particle_Point_Contact_Pairs;
   ev_pp_Fine_Search; ev_particle_wall_fine_search; ev_pw_Fine_Search;
   ev_Particle_Point_Fine_Search].

Definition line_search_calls : list event :=
  [ev_find_Particle_Line_Contact_Pairs; ev_Particle_Line_Fine_Search].

Definition force_calls : list event :=
  [ev_calculate_pp_contact_force; ev_particle_wall_contact_force;
   ev_calculate_pw_contact_force; ev_calculate_particle_point_contact_force].

(** Insertion, contact detection, force computation and integration. *)
Definition insertion_detection_or_force (e : event) : bool :=
  match e with
  | ev_insert_particles | ev_insert
  | ev_sort_particles_into_subdomains_and_cells
  | ev_exchange_ghost_particles
  | ev_localize_contacts | ev_locate_local_particles_in_cells
  | ev_locate_ghost_particles_in_cells => true
  | _ => bool_decide (is_Some (pipeline_phase e))
  end.

(** The slots [reinitialize_force] writes, by dimension, and all six. *)
Definition zeroed_slots : list nat :=
  [force_x idx; force_y idx; M_x idx; M_y idx]
  ++ (if (dim =? 3)%nat then [force_z idx; M_z idx] else []).

Definition force_slots : list nat :=
  [force_x idx; force_y idx; force_z idx; M_x idx; M_y idx; M_z idx].

(** Storing zero into the slots [js], the last of the list first. *)
Definition zero_slots (js : list nat) (l : list float) : list float :=
  foldr (fun j acc => <[j := 0%float]> acc) l js.

(** No contact object of the solver [s] the timestep started from is
    still in the local collection when [localize_contacts] takes it. *)
Definition stale_contacts_gone (s : DEMSolver) (h : history) : Prop :=
  forall s_e, In (ev_localize_contacts, s_e) h ->
    forall x, In x (local_adjacent_particles s) ->
      ~ In x (local_adjacent_particles s_e).

(** The sum [cell_weight] accumulates over the children of a cell. *)
Definition particles_in_children (s : DEMSolver) (cell : Cell) : N :=
  foldr N.add 0
    ((fun i => n_particles_in_cell (particle_handler s) (child cell i))
       <$> seq 0 (max_children_per_cell dim)).

(** ** Calls of a timestep by cadence *)

(** The calls made on the steps of a contact detection besides the
    searches: the sort into cells and the two calls that move the contact
    objects. *)
Definition detection_calls : list event :=
  [ev_sort_particles_into_subdomains_and_cells; ev_localize_contacts;
   ev_locate_local_particles_in_cells].

(** The two calls that update the particle iterators of the contact
    objects. *)
Definition locating_calls : list event :=
  [ev_locate_local_particles_in_cells; ev_locate_ghost_particles_in_cells].

(** How often one of the calls [l] is made in [evs]. *)
Definition count_calls (l evs : list event) : nat :=
  length (filter (fun e => e ∈ l) evs).

(** ** Invariants *)

(** [keeps I m V]: run on a solver that satisfies [I], [m] makes every
    call on a solver that satisfies [I] and, when it returns, returns a
    value that satisfies [V] and leaves a solver that satisfies [I]. *)
Definition keeps {A} (I : DEMSolver -> Prop) (m : Exec A) (V : A -> Prop)
  : Prop :=
  forall s, I s ->
    Forall (fun x => I x.2) (run_history m s) /\
    match run_result m s with
    | inl _ => True
    | inr (a, s') => I s' /\ V a
    end.

Definition any_value {A} (a : A) : Prop := True.

(** The members the constructor computes from the parameters. *)
Definition constants (s : DEMSolver) :=
  (physical_properties s, neighborhood_threshold s, computing_timer_output s).

(** The candidate lists of the broad searches. *)
Definition candidates (s : DEMSolver) :=
  (local_contact_pair_candidates s, ghost_contact_pair_candidates s,
   pw_contact_candidates s, particle_point_contact_candidates s,
   particle_line_contact_candidates s).

(** The mesh and the six containers computed from it. *)
Definition mesh_state (s : DEMSolver) :=
  (grid (triangulation s),
   (cells_local_neighbor_list s, cells_ghost_neighbor_list s),
   (boundary_cells_with_faces s, boundary_cells_with_lines s,
    boundary_cells_with_points s, boundary_cells_information s)).

(** What the calls before the loop do not write: the particles, the
    simulation control, the constants, and the containers of the
    contact detection. *)
Definition particle_state (s : DEMSolver) :=
  (particle_handler s, simulation_control s, constants s,
   candidates s, contacts s,
   (particle_container s, ghost_particle_container s)).

(** [advances sc l]: the timesteps [l] start one call of [integrate()]
    after another, the first on the simulation control [sc]; each call
    returned true. *)
Fixpoint advances (sc : SimulationControl) (l : list (DEMSolver * history))
  : Prop :=
  match l with
  | [] => True
  | x :: l' =>
      (sc_integrate sc).1 = true /\
      simulation_control x.1 = (sc_integrate sc).2 /\
      advances (simulation_control x.1) l'
  end.

(** [y] comes right after [x] in [l]. *)
Definition consecutive {A} (l : list A) (x y : A) : Prop :=
  exists l1 l2, l = l1 ++ x :: y :: l2.

(** ** The mesh before the loop *)

(** The mesh and the containers the three calls of [solve] compute from
    the mesh [g] when they find the containers empty. *)
Definition mesh_containers (g : Grid) :=
  let neighbors := find_cell_neighbors g [] [] in
  let boundary := find_boundary_cells_information [] g in
  let contact_cells :=
    find_particle_point_and_line_contact_cells boundary.2 g [] [] in
  (g, (neighbors.1, neighbors.2),
   (boundary.2, contact_cells.1, contact_cells.2, boundary.1)).

(** The mesh [read_mesh] makes of the mesh [g] for the parameters [m],
    if their type is one [read_mesh] supports. *)
Definition mesh_read (m : Parameters.Mesh) (g : Grid) : option Grid :=
  match Parameters.type m with
  | Parameters.gmsh =>
      Some (refine_global (read_msh g (Parameters.file_name m))
              (Parameters.initial_refinement m))
  | Parameters.dealii =>
      Some (refine_global
              (generate_from_name_and_arguments g (Parameters.grid_type m)
                 (Parameters.grid_arguments m))
              (Parameters.initial_refinement m))
  | Parameters.MeshType_unlisted _ => None
  end.

(** ** What each call does *)

(** What a call of the loop body does to the solver it is made on: the
    store [solve] or the member function makes with what the callee
    returns.  A call that is the entry of a member function of
    [DEMSolver], or that only prints, leaves the solver as it is, and so
    does a call through an empty [std::shared_ptr].  [g] is the body
    force [integrate] is given. *)
Definition effect (g : list float) (e : event) (s : DEMSolver) : DEMSolver :=
  match e with
  | ev_register_store_callback_function =>
      let r := register_store_callback_function (particle_handler s)
                 (grid (triangulation s)) in
      set_particle_handler r.1
        (set_triangulation (set_grid r.2 (triangulation s)) s)
  | ev_redistribute =>
      set_triangulation
        (set_grid (redistribute (grid (triangulation s)) (cell_weights dim s))
           (triangulation s)) s
  | ev_register_load_callback_function =>
      let r := register_load_callback_function false
                 (particle_handler s) (grid (triangulation s)) in
      set_particle_handler r.1
        (set_triangulation (set_grid r.2 (triangulation s)) s)
  | ev_clear c_cells_local_neighbor_list =>
      set_cells_local_neighbor_list [] s
  | ev_clear c_cells_ghost_neighbor_list =>
      set_cells_ghost_neighbor_list [] s
  | ev_clear c_boundary_cells_with_faces =>
      set_boundary_cells_with_faces [] s
  | ev_clear c_boundary_cells_with_lines =>
      set_boundary_cells_with_lines [] s
  | ev_clear c_boundary_cells_with_points =>
      set_boundary_cells_with_points [] s
  | ev_clear c_boundary_cells_information =>
      set_boundary_cells_information [] s
  | ev_find_cell_neighbors =>
      let r := find_cell_neighbors (grid (triangulation s))
                 (cells_local_neighbor_list s) (cells_ghost_neighbor_list s) in
      set_cells_ghost_neighbor_list r.2 (set_cells_local_neighbor_list r.1 s)
  | ev_find_boundary_cells_information =>
      let r := find_boundary_cells_information (boundary_cells_with_faces s)
                 (grid (triangulation s)) in
      set_boundary_cells_information r.1 (set_boundary_cells_with_faces r.2 s)
  | ev_find_particle_point_and_line_contact_cells =>
      let r := find_particle_point_and_line_contact_cells
                 (boundary_cells_with_faces s) (grid (triangulation s))
                 (boundary_cells_with_lines s) (boundary_cells_with_points s) in
      set_boundary_cells_with_points r.2 (set_boundary_cells_with_lines r.1 s)
  | ev_reinitialize_force =>
      set_particle_handler (reinitialize_force dim idx (particle_handler s)) s
  | ev_insert =>
      match insertion_object s with
      | Some o =>
          set_particle_handler
            (insert o (particle_handler s) (grid (triangulation s))
               (parameters s)) s
      | None => s
      end
  | ev_sort_particles_into_subdomains_and_cells =>
      set_particle_handler
        (sort_particles_into_subdomains_and_cells (particle_handler s)
           (grid (triangulation s))) s
  | ev_exchange_ghost_particles =>
      set_particle_handler
        (exchange_ghost_particles (particle_handler s)
           (grid (triangulation s))) s
  | ev_find_PP_Contact_Pairs =>
      let r := find_PP_Contact_Pairs (particle_handler s)
                 (cells_local_neighbor_list s) (cells_ghost_neighbor_list s)
                 (local_contact_pair_candidates s)
                 (ghost_contact_pair_candidates s) in
      set_ghost_contact_pair_candidates r.2
        (set_local_contact_pair_candidates r.1 s)
  | ev_find_PW_Contact_Pairs =>
      set_pw_contact_candidates
        (find_PW_Contact_Pairs (boundary_cells_information s)
           (particle_handler s) (pw_contact_candidates s)) s
  | ev_find_Particle_Point_Contact_Pairs =>
      set_particle_point_contact_candidates
        (find_Particle_Point_Contact_Pairs (particle_handler s)
           (boundary_cells_with_points s)) s
  | ev_find_Particle_Line_Contact_Pairs =>
      set_particle_line_contact_candidates
        (find_Particle_Line_Contact_Pairs (particle_handler s)
           (boundary_cells_with_lines s)) s
  | ev_localize_contacts =>
      let r := localize_contacts
                 (local_adjacent_particles s) (ghost_adjacent_particles s)
                 (pw_pairs_in_contact s)
                 (local_contact_pair_candidates s)
                 (ghost_contact_pair_candidates s)
                 (pw_contact_candidates s) in
      set_pw_contact_candidates r.2.2
        (set_ghost_contact_pair_candidates r.2.1.2
           (set_local_contact_pair_candidates r.2.1.1
              (set_pw_pairs_in_contact r.1.2
                 (set_ghost_adjacent_particles r.1.1.2
                    (set_local_adjacent_particles r.1.1.1 s)))))
  | ev_locate_local_particles_in_cells =>
      let r := locate_local_particles_in_cells (particle_handler s)
                 (particle_container s)
                 (ghost_adjacent_particles s) (local_adjacent_particles s)
                 (pw_pairs_in_contact s) (particle_points_in_contact s)
                 (particle_lines_in_contact s) in
      set_particle_lines_in_contact r.2.2
        (set_particle_points_in_contact r.2.1.2
           (set_pw_pairs_in_contact r.2.1.1
              (set_local_adjacent_particles r.1.2.2
                 (set_ghost_adjacent_particles r.1.2.1
                    (set_particle_container r.1.1 s)))))
  | ev_locate_ghost_particles_in_cells =>
      let r := locate_ghost_particles_in_cells (particle_handler s)
                 (ghost_particle_container s)
                 (ghost_adjacent_particles s) in
      set_ghost_adjacent_particles r.2
        (set_ghost_particle_container r.1 s)
  | ev_pp_Fine_Search =>
      let r := pp_Fine_Search
                 (local_contact_pair_candidates s)
                 (ghost_contact_pair_candidates s)
                 (local_adjacent_particles s) (ghost_adjacent_particles s)
                 (particle_container s) (neighborhood_threshold s) in
      set_ghost_adjacent_particles r.2.2
        (set_local_adjacent_particles r.2.1
           (set_ghost_contact_pair_candidates r.1.2
              (set_local_contact_pair_candidates r.1.1 s)))
  | ev_calculate_pp_contact_force =>
      match pp_contact_force_object s with
      | Some o =>
          let r := calculate_pp_contact_force o
                     (local_adjacent_particles s) (ghost_adjacent_particles s)
                     (physical_properties s)
                     (get_time_step (simulation_control s))
                     (particle_handler s) in
          set_particle_handler r.2
            (set_ghost_adjacent_particles r.1.2
               (set_local_adjacent_particles r.1.1 s))
      | None => s
      end
  | ev_pw_Fine_Search =>
      let r := pw_Fine_Search (pw_contact_candidates s)
                 (pw_pairs_in_contact s) in
      set_pw_pairs_in_contact r.2 (set_pw_contact_candidates r.1 s)
  | ev_Particle_Point_Fine_Search =>
      set_particle_points_in_contact
        (Particle_Point_Fine_Search (particle_point_contact_candidates s)) s
  | ev_Particle_Line_Fine_Search =>
      set_particle_lines_in_contact
        (Particle_Line_Fine_Search (particle_line_contact_candidates s)) s
  | ev_calculate_pw_contact_force =>
      match pw_contact_force_object s with
      | Some o =>
          let r := calculate_pw_contact_force o (pw_pairs_in_contact s)
                     (physical_properties s)
                     (get_time_step (simulation_control s))
                     (particle_handler s) in
          set_particle_handler r.2 (set_pw_pairs_in_contact r.1 s)
      | None => s
      end
  | ev_calculate_particle_point_contact_force =>
      let r := calculate_particle_point_contact_force
                 (particle_points_in_contact s) (physical_properties s)
                 (particle_handler s) in
      set_particle_handler r.2 (set_particle_points_in_contact r.1 s)
  | ev_calculate_particle_line_contact_force =>
      let r := calculate_particle_line_contact_force
                 (particle_lines_in_contact s) (physical_properties s)
                 (particle_handler s) in
      set_particle_handler r.2 (set_particle_lines_in_contact r.1 s)
  | ev_integrate =>
      match integrator_object s with
      | Some o =>
          set_particle_handler
            (integrate o (particle_handler s) g
               (get_time_step (simulation_control s))) s
      | None => s
      end
  | _ => s
  end.

(** The calls [evs] made one after another from the solver [s], each on
    the solver the calls before it have left, and the solver the last
    one leaves. *)
Fixpoint trace (g : list float) (evs : list event) (s : DEMSolver)
  : history :=
  match evs with
  | [] => []
  | e :: evs' => (e, s) :: trace g evs' (effect g e s)
  end.

Definition run_effects (g : list float) (evs : list event) (s : DEMSolver)
  : DEMSolver :=
  foldl (fun s e => effect g e s) s evs.

(** [traces g s0 m evs a]: from a solver with the control of [s0], [m]
    makes the calls [evs], each applied before the next is made, and
    returns [a]. *)
Definition traces {A} (g : list float) (s0 : DEMSolver) (m : Exec A)
    (evs : list event) (a : A) : Prop :=
  forall s, control s = control s0 ->
    m s = (trace g evs s, inr (a, run_effects g evs s)).

(** [applied g h e]: every call of [e] in the history [h] is followed by
    a call, and that one is made on the solver [e] has just been applied
    to. *)
Definition applied (g : list float) (h : history) (e : event) : Prop :=
  forall h1 s_e h2,
    h = h1 ++ (e, s_e) :: h2 ->
    exists x h3, h2 = x :: h3 /\ x.2 = effect g e s_e.

(** The calls of the repartition block after [repartition()] has
    returned: the six [clear()] and the three calls that rebuild the
    mesh containers. *)
Definition rebuild_events : list event :=
  [ev_clear c_cells_local_neighbor_list;
   ev_clear c_cells_ghost_neighbor_list;
   ev_clear c_boundary_cells_with_faces;
   ev_clear c_boundary_cells_with_lines;
   ev_clear c_boundary_cells_with_points;
   ev_clear c_boundary_cells_information;
   ev_find_cell_neighbors; ev_find_boundary_cells_information;
   ev_find_particle_point_and_line_contact_cells].

End Vocabulary.

(** * Reasoning about executions *)

Section Reasoning.

Context {C : Carriers} {E : Collaborators}.

Lemma run_bind {A B} (m : Exec A) (f : A -> Exec B) s h a s' :
  m s = (h, inr (a, s')) ->
  (m ≫= f) s = (h ++ (f a s').1, (f a s').2).
Proof.
  intros Hm. unfold mbind, Exec_bind. rewrite Hm.
  destruct (f a s') as [h' r]. reflexivity.
Qed.

Lemma run_bind_throw {A B} (m : Exec A) (f : A -> Exec B) s h e :
  m s = (h, inl e) -> (m ≫= f) s = (h, inl e).
Proof. intros Hm. unfold mbind, Exec_bind. rewrite Hm. reflexivity. Qed.

Lemma history_starts_with_call {A B} (e : event) (k : unit -> Exec A)
    (f : A -> Exec B) (s : DEMSolver) :
  exists h, (((call e ≫= k) ≫= f) s).1 = (e, s) :: h.
Proof.
  unfold mbind, Exec_bind, call.
  destruct (k tt s) as [h [x|[a s']]]; simpl; [eauto|].
  destruct (f a s') as [h' r]. simpl. eauto.
Qed.

Section Rules.

Context {A B : Type} (P Q R : DEMSolver -> Prop)
        (H : event -> DEMSolver -> Prop).

Lemma executes_ret (a : A) : executes P (mret a) [] H a P.
Proof. intros s HP. exists s. repeat split; auto. Qed.

Lemma executes_bind (m : Exec A) (f : A -> Exec B) e1 e2 a b :
  executes P m e1 H a Q ->
  executes Q (f a) e2 H b R ->
  executes P (m ≫= f) (e1 ++ e2) H b R.
Proof.
  intros Hm Hf s HP.
  destruct (Hm s HP) as (s1 & Hr1 & He1 & Hh1 & HQ).
  destruct (Hf s1 HQ) as (s2 & Hr2 & He2 & Hh2 & HR).
  exists s2. unfold run_result, run_history in *.
  destruct (m s) as [h1 r1] eqn:Hms. simpl in *. subst r1.
  rewrite (run_bind m f s h1 a s1 Hms). simpl.
  repeat split; auto.
  - unfold events in *. rewrite fmap_app. congruence.
  - apply Forall_app. auto.
Qed.

Lemma executes_call (e : event) :
  (forall s, P s -> H e s) -> executes P (call e) [e] H tt P.
Proof.
  intros He s HP. exists s. split; [reflexivity|].
  split; [reflexivity|]. split; [|exact HP].
  constructor; [apply He, HP | constructor].
Qed.

Lemma executes_gets (f : DEMSolver -> A) (a : A) :
  (forall s, P s -> f s = a) -> executes P (gets f) [] H a P.
Proof.
  intros Hf s HP. exists s. unfold run_result, gets. simpl.
  rewrite (Hf s HP). repeat split; auto.
Qed.

Lemma executes_modify (f : DEMSolver -> DEMSolver) :
  (forall s, P s -> Q (f s)) -> executes P (modify f) [] H tt Q.
Proof.
  intros Hf s HP. exists (f s). repeat split; auto.
Qed.

Lemma executes_deref (member : DEMSolver -> option A) (o : A) :
  (forall s, P s -> member s = Some o) ->
  executes P (deref member) [] H o P.
Proof.
  intros Hm s HP. exists s. unfold run_result, run_history, deref.
  rewrite (Hm s HP). simpl. repeat split; auto.
Qed.

Lemma executes_if (b : bool) (m1 m2 : Exec A) e1 e2 a1 a2 :
  executes P m1 e1 H a1 Q ->
  executes P m2 e2 H a2 Q ->
  executes P (if b then m1 else m2) (if b then e1 else e2) H
    (if b then a1 else a2) Q.
Proof. destruct b; auto. Qed.

Lemma executes_weaken (P' Q' : DEMSolver -> Prop) (m : Exec A) evs a :
  (forall s, P' s -> P s) ->
  (forall s, Q s -> Q' s) ->
  executes P m evs H a Q ->
  executes P' m evs H a Q'.
Proof.
  intros HP HQ Hm s HP'.
  destruct (Hm s (HP s HP')) as (s' & ? & ? & ? & ?).
  exists s'. auto.
Qed.

Lemma executes_value (m : Exec A) evs a a' :
  executes P m evs H a Q -> a = a' -> executes P m evs H a' Q.
Proof. intros Hm <-. auto. Qed.

Lemma executes_events (m : Exec A) evs evs' a :
  executes P m evs H a Q -> evs = evs' -> executes P m evs' H a Q.
Proof. intros Hm <-. auto. Qed.

Lemma throws_throw (e : exception) : throws P (throw e : Exec A) e.
Proof. intros s HP. reflexivity. Qed.

Lemma throws_bind_first (m : Exec A) (f : A -> Exec B) e :
  throws P m e -> throws P (m ≫= f) e.
Proof.
  intros Hm s HP. specialize (Hm s HP).
  unfold run_result in *.
  destruct (m s) as [h r] eqn:Hms. simpl in *. subst r.
  rewrite (run_bind_throw m f s h e Hms). reflexivity.
Qed.

Lemma throws_bind_later (m : Exec A) (f : A -> Exec B) e1 a e :
  executes P m e1 H a Q ->
  throws Q (f a) e ->
  throws P (m ≫= f) e.
Proof.
  intros Hm Hf s HP.
  destruct (Hm s HP) as (s1 & Hr1 & _ & _ & HQ).
  specialize (Hf s1 HQ).
  unfold run_result in *.
  destruct (m s) as [h1 r1] eqn:Hms. simpl in *. subst r1.
  rewrite (run_bind m f s h1 a s1 Hms). exact Hf.
Qed.

End Rules.

Lemma executes_when (P Q : DEMSolver -> Prop) H (b : bool)
    (m : Exec unit) evs :
  executes P m evs H tt Q ->
  (forall s, P s -> Q s) ->
  executes P (when b m) (if b then evs else []) H tt Q.
Proof.
  intros Hm HPQ. unfold when. destruct b; [exact Hm|].
  apply (executes_weaken P P); auto. apply executes_ret.
Qed.

(** ** The cadence tests in arithmetic *)

Lemma double_eq_fmod (x y k : N) :
  double_eq (fmod x y) k = true <-> y <> 0 /\ x mod y = k.
Proof.
  unfold fmod, double_eq. destruct (N.eqb_spec y 0) as [->|Hy].
  - split; [discriminate | intros [[] _]; reflexivity].
  - rewrite N.eqb_eq. tauto.
Qed.

Lemma double_ne_fmod (x y k : N) :
  double_ne (fmod x y) k = false <-> y <> 0 /\ x mod y = k.
Proof.
  unfold double_ne. rewrite negb_false_iff. apply double_eq_fmod.
Qed.

Lemma repartition_due_control s s' :
  control s = control s' -> repartition_due s = repartition_due s'.
Proof.
  unfold control, repartition_due, step_number. intros [=]. congruence.
Qed.

Lemma insertion_due_control s s' :
  control s = control s' -> insertion_due s = insertion_due s'.
Proof.
  unfold control, insertion_due, step_number. intros [=]. congruence.
Qed.

Lemma detection_due_control s s' :
  control s = control s' -> detection_due s = detection_due s'.
Proof.
  unfold control, detection_due, step_number. intros [=]. congruence.
Qed.

Lemma control_objects s s' :
  control s = control s' ->
  insertion_object s = insertion_object s' /\
  integrator_object s = integrator_object s' /\
  pp_contact_force_object s = pp_contact_force_object s' /\
  pw_contact_force_object s = pw_contact_force_object s'.
Proof. unfold control. intros [=]. auto. Qed.

Lemma control_signals s s' :
  control s = control s' ->
  signals (triangulation s) = signals (triangulation s').
Proof. unfold control. intros [=]. auto. Qed.

Lemma control_simulation_control s s' :
  control s = control s' -> simulation_control s = simulation_control s'.
Proof. unfold control. intros [=]. auto. Qed.

Lemma control_parameters s s' :
  control s = control s' -> parameters s = parameters s'.
Proof. unfold control. intros [=]. auto. Qed.

Lemma control_frequencies s s' :
  control s = control s' ->
  contact_detection_frequency s = contact_detection_frequency s' /\
  repartition_frequency s = repartition_frequency s' /\
  insertion_frequency s = insertion_frequency s'.
Proof. unfold control. intros [=]. auto. Qed.

End Reasoning.

(** * The timestep *)

Section Timestep.

Context {C : Carriers} {E : Collaborators}.
Variable dim : nat.
Variable idx : PropertiesIndex.

(** The solver at the start of the timestep, with its strategy objects
    set and the callbacks connected. *)
Variable s0 : DEMSolver.
Variable insertion0 : Insertion.
Variable integrator0 : Integrator.
Variable pp_force0 : PPContactForce.
Variable pw_force0 : PWContactForce.
Hypothesis insertion_set : insertion_object s0 = Some insertion0.
Hypothesis integrator_set : integrator_object s0 = Some integrator0.
Hypothesis pp_force_set : pp_contact_force_object s0 = Some pp_force0.
Hypothesis pw_force_set : pw_contact_force_object s0 = Some pw_force0.
Hypothesis callbacks_connected :
  signals (triangulation s0) = connected_signals.

Ltac with_control HP k :=
  lazymatch type of HP with
  | before_localize _ _ => k constr:(proj1 HP)
  | after_localize _ _ => k HP
  | cleared _ _ _ => k constr:(proj1 (proj1 HP))
  end.

Ltac read_control Hc :=
  first
    [ apply repartition_due_control; exact Hc
    | apply insertion_due_control; exact Hc
    | apply detection_due_control; exact Hc
    | rewrite (control_signals _ _ Hc), callbacks_connected; reflexivity
    | rewrite (control_simulation_control _ _ Hc); reflexivity
    | rewrite (control_parameters _ _ Hc); reflexivity ].

Ltac read_object Hc :=
  destruct (control_objects _ _ Hc) as (Ho1 & Ho2 & Ho3 & Ho4);
  first
    [ rewrite Ho1; exact insertion_set
    | rewrite Ho2; exact integrator_set
    | rewrite Ho3; exact pp_force_set
    | rewrite Ho4; exact pw_force_set ].

Ltac plain_call :=
  lazymatch goal with
  | HP : before_localize _ _ |- at_call _ _ _ =>
      split; [exact (proj1 HP) | try exact I; try exact (proj2 HP)]
  | HP : after_localize _ _ |- at_call _ _ _ => split; [exact HP | exact I]
  | HP : cleared _ _ _ |- at_call _ _ _ =>
      split; [exact (proj1 (proj1 HP)) | try exact I]
  end.

Ltac walk_step :=
  lazymatch goal with
  | |- executes _ (_ ≫= _) _ _ _ _ => eapply executes_bind
  | |- executes _ (call _) _ _ _ _ =>
      apply executes_call; intros ? ?; plain_call
  | |- executes ?P (modify _) _ _ _ _ =>
      first
        [ apply (executes_modify P P); intros ? HP; exact HP
        | apply (executes_modify (before_localize s0) (after_localize s0));
          intros ? HP; exact (proj1 HP) ]
  | |- executes _ (gets _) _ _ _ _ =>
      eapply executes_gets; intros ? HP; cbv beta;
      with_control HP ltac:(fun Hc => read_control Hc)
  | |- executes _ (deref _) _ _ _ _ =>
      eapply executes_deref; intros ? HP;
      with_control HP ltac:(fun Hc => read_object Hc)
  | |- executes _ (for_each _ _) _ _ _ _ =>
      progress
        cbn [for_each pre_distributed_repartition
             post_distributed_repartition connected_signals fire]
  | |- executes _ (mret _) _ _ _ _ => apply executes_ret
  | |- executes _ (when _ _) _ _ _ _ => eapply executes_when
  | |- executes _ (if _ then _ else _) _ _ _ _ => eapply executes_if
  | |- forall s, _ -> _ =>
      intros ? HP; first [exact HP | exact (proj1 HP)]
  end.

Ltac walk := repeat walk_step.

Lemma triangulation_repartition_executes :
  executes (before_localize s0) (triangulation_repartition dim)
    [ev_repartition; ev_register_store_callback_function; ev_redistribute;
     ev_register_load_callback_function]
    (at_call s0) tt (before_localize s0).
Proof.
  unfold triangulation_repartition.
  eapply executes_events; [walk | reflexivity].
Qed.

(** A step of the repartition block that takes the solver from caches
    [l] cleared to caches [l'] cleared. *)
Ltac cleared_modify l l' :=
  apply (executes_modify (cleared s0 l) (cleared s0 l'));
  intros s [HP HF]; split;
  [ exact HP
  | intros c Hc; simpl in Hc; destruct c;
    try (exfalso; intuition discriminate);
    lazymatch goal with
    | |- cache_is_empty ?c _ =>
        first [ exact (HF c ltac:(simpl; tauto)) | reflexivity ]
    end ].

Ltac cleared_call :=
  apply executes_call; intros s [HP HF]; split;
  [ exact (proj1 HP)
  | first [ exact I
          | split;
            lazymatch goal with
            | |- cache_is_empty ?c _ => exact (HF c ltac:(simpl; tauto))
            end ] ].

Lemma repartition_block_executes :
  executes (before_localize s0) (repartition_block dim) repartition_events
    (at_call s0) tt (before_localize s0).
Proof.
  unfold repartition_block, call_find_cell_neighbors,
    call_find_boundary_cells_information,
    call_find_particle_point_and_line_contact_cells.
  eapply executes_events.
  - eapply executes_bind; [apply triangulation_repartition_executes|].
    apply (executes_weaken (cleared s0 []) (before_localize s0)).
    { intros s HP. split; [exact HP | intros c []]. }
    { auto. }
    eapply executes_bind; [cleared_call|].
    eapply executes_bind;
      [cleared_modify (@nil cache) [c_cells_local_neighbor_list]|].
    eapply executes_bind; [cleared_call|].
    eapply executes_bind;
      [cleared_modify
         [c_cells_local_neighbor_list]
         [c_cells_ghost_neighbor_list; c_cells_local_neighbor_list]|].
    eapply executes_bind; [cleared_call|].
    eapply executes_bind;
      [cleared_modify
         [c_cells_ghost_neighbor_list; c_cells_local_neighbor_list]
         [c_boundary_cells_with_faces; c_cells_ghost_neighbor_list;
          c_cells_local_neighbor_list]|].
    eapply executes_bind; [cleared_call|].
    eapply executes_bind;
      [cleared_modify
         [c_boundary_cells_with_faces; c_cells_ghost_neighbor_list;
          c_cells_local_neighbor_list]
         [c_boundary_cells_with_lines; c_boundary_cells_with_faces;
          c_cells_ghost_neighbor_list; c_cells_local_neighbor_list]|].
    eapply executes_bind; [cleared_call|].
    eapply executes_bind;
      [cleared_modify
         [c_boundary_cells_with_lines; c_boundary_cells_with_faces;
          c_cells_ghost_neighbor_list; c_cells_local_neighbor_list]
         [c_boundary_cells_with_points; c_boundary_cells_with_lines;
          c_boundary_cells_with_faces; c_cells_ghost_neighbor_list;
          c_cells_local_neighbor_list]|].
    eapply executes_bind; [cleared_call|].
    eapply executes_bind;
      [cleared_modify
         [c_boundary_cells_with_points; c_boundary_cells_with_lines;
          c_boundary_cells_with_faces; c_cells_ghost_neighbor_list;
          c_cells_local_neighbor_list]
         [c_boundary_cells_information; c_boundary_cells_with_points;
          c_boundary_cells_with_lines; c_boundary_cells_with_faces;
          c_cells_ghost_neighbor_list; c_cells_local_neighbor_list]|].
    (* find_cell_neighbors *)
    eapply executes_bind.
    { eapply executes_bind; [cleared_call|].
      cleared_modify
         [c_boundary_cells_information; c_boundary_cells_with_points;
          c_boundary_cells_with_lines; c_boundary_cells_with_faces;
          c_cells_ghost_neighbor_list; c_cells_local_neighbor_list]
         [c_boundary_cells_information; c_boundary_cells_with_points;
          c_boundary_cells_with_lines; c_boundary_cells_with_faces]. }
    (* find_boundary_cells_information *)
    eapply executes_bind.
    { eapply executes_bind; [cleared_call|].
      cleared_modify
         [c_boundary_cells_information; c_boundary_cells_with_points;
          c_boundary_cells_with_lines; c_boundary_cells_with_faces]
         [c_boundary_cells_with_points; c_boundary_cells_with_lines]. }
    (* find_particle_point_and_line_contact_cells *)
    eapply executes_bind; [cleared_call|].
    apply (executes_modify
             (cleared s0 [c_boundary_cells_with_points;
                          c_boundary_cells_with_lines])
             (before_localize s0)).
    intros s [HP _]. exact HP.
  - reflexivity.
Qed.

Lemma insert_particles_executes :
  executes (before_localize s0) insert_particles
    ([ev_insert_particles] ++ (if insertion_due s0 then [ev_insert] else []))
    (at_call s0) (insertion_due s0) (before_localize s0).
Proof.
  unfold insert_particles.
  eapply executes_value; [eapply executes_events|]; [walk | ..].
  - destruct (insertion_due s0); reflexivity.
  - destruct (insertion_due s0); reflexivity.
Qed.

Lemma detection_requested_executes P (b : bool) :
  (forall s, P s -> control s = control s0) ->
  executes P (detection_requested b) [] (at_call s0)
    (b || detection_due s0) P.
Proof.
  intros HP. unfold detection_requested.
  eapply executes_events.
  - eapply executes_bind; [|apply executes_ret].
    eapply executes_gets. intros s Hs.
    apply detection_due_control, HP, Hs.
  - reflexivity.
Qed.

Lemma particle_wall_broad_search_executes :
  executes (before_localize s0) (particle_wall_broad_search dim)
    (wall_broad_events dim) (at_call s0) tt (before_localize s0).
Proof.
  unfold particle_wall_broad_search.
  eapply executes_events; [walk | reflexivity].
Qed.

Lemma particle_wall_fine_search_executes :
  executes (after_localize s0) (particle_wall_fine_search dim)
    (wall_fine_events dim) (at_call s0) tt (after_localize s0).
Proof.
  unfold particle_wall_fine_search.
  eapply executes_events; [walk | reflexivity].
Qed.

Lemma particle_wall_contact_force_executes :
  executes (after_localize s0) (particle_wall_contact_force dim)
    (wall_force_events dim) (at_call s0) tt (after_localize s0).
Proof.
  unfold particle_wall_contact_force.
  eapply executes_events; [walk | reflexivity].
Qed.

Ltac member_step :=
  lazymatch goal with
  | |- executes _ (repartition_block _) _ _ _ _ =>
      apply repartition_block_executes
  | |- executes _ insert_particles _ _ _ _ =>
      apply insert_particles_executes
  | |- executes _ (detection_requested _) _ _ _ _ =>
      apply detection_requested_executes
  | |- executes _ (particle_wall_broad_search _) _ _ _ _ =>
      apply particle_wall_broad_search_executes
  | |- executes _ (particle_wall_fine_search _) _ _ _ _ =>
      apply particle_wall_fine_search_executes
  | |- executes _ (particle_wall_contact_force _) _ _ _ _ =>
      apply particle_wall_contact_force_executes
  | |- executes _ write_output_results _ _ _ _ =>
      unfold write_output_results
  end.

(** A timestep runs to its end, makes the calls [events_of s0], and
    leaves the control as it was. *)
Lemma timestep_executes (g : list float) :
  executes (before_localize s0) (timestep dim idx g) (events_of dim s0)
    (at_call s0) tt (after_localize s0).
Proof.
  unfold timestep.
  eapply executes_events.
  - repeat first [member_step | walk_step].
  - unfold events_of, timestep_events, wall_broad_events, wall_fine_events,
      wall_force_events.
    destruct (repartition_due s0), (insertion_due s0), (detection_due s0),
      (is_output_iteration (simulation_control s0)), (dim =? 3)%nat;
      reflexivity.
Qed.

(** The start of the history: the repartition block if one is due, then
    [reinitialize_force], then [insert_particles] on the solver whose
    particle handler [reinitialize_force] has just rewritten. *)
Lemma timestep_history_reinitialize (g : list float) :
  exists h1 s_r h2,
    run_history (timestep dim idx g) s0 =
      (ev_print_progression, s0) :: h1
      ++ (ev_reinitialize_force, s_r)
      :: (ev_insert_particles,
          set_particle_handler
            (reinitialize_force dim idx (particle_handler s_r)) s_r)
      :: h2 /\
    events h1 = (if repartition_due s0 then repartition_events else []).
Proof.
  assert (Hs0 : before_localize s0 s0) by (split; reflexivity).
  destruct (executes_when (before_localize s0) (before_localize s0)
              (at_call s0) (repartition_due s0) (repartition_block dim) _
              repartition_block_executes (fun _ HP => HP) s0 Hs0)
    as (s1 & Hr & He & _ & _).
  unfold run_result, run_history in *.
  destruct (when (repartition_due s0) (repartition_block dim) s0)
    as [hb rb] eqn:Hb.
  simpl in Hr, He. subst rb.
  exists hb, s1.
  unfold timestep.
  rewrite (run_bind _ _ s0 [(ev_print_progression, s0)] tt s0 eq_refl).
  rewrite (run_bind _ _ s0 [] (repartition_due s0) s0 eq_refl).
  rewrite (run_bind _ _ s0 hb tt s1 Hb).
  rewrite (run_bind _ _ s1 [(ev_reinitialize_force, s1)] tt s1 eq_refl).
  rewrite (run_bind _ _ s1 [] tt
             (set_particle_handler
                (reinitialize_force dim idx (particle_handler s1)) s1)
             eq_refl).
  set (s2 := set_particle_handler _ s1).
  unfold insert_particles.
  match goal with
  | |- context [((call ev_insert_particles ≫= ?k) ≫= ?f) s2] =>
      destruct (history_starts_with_call ev_insert_particles k f s2)
        as [h2 Hh2]
  end.
  exists h2. cbn [fst]. rewrite Hh2. split; [reflexivity | exact He].
Qed.

End Timestep.

(** * Before the loop *)

Section Setup.

Context {C : Carriers} {E : Collaborators}.
Variable dim : nat.
Variable idx : PropertiesIndex.
Variable s0 : DEMSolver.

Ltac setup_step :=
  lazymatch goal with
  | |- executes _ (_ ≫= _) _ _ _ _ => eapply executes_bind
  | |- executes _ (call _) _ _ _ _ =>
      apply executes_call; intros ? ?; exact I
  | |- executes ?P (modify _) _ _ _ _ =>
      apply (executes_modify P P); intros ? HP; exact HP
  | |- executes _ (mret _) _ _ _ _ => apply executes_ret
  end.

Lemma read_mesh_executes o1 o2 o3 o4 e :
  mesh_event_for (Parameters.type (mesh (parameters s0))) = Some e ->
  executes (configured s0 o1 o2 o3 o4) read_mesh [e; ev_refine_global]
    any_call tt (configured s0 o1 o2 o3 o4).
Proof.
  intros He. unfold read_mesh, update_grid.
  destruct (Parameters.type (mesh (parameters s0))) eqn:Ht;
    simplify_eq/=.
  all: eapply executes_events;
    [ eapply executes_bind;
      [ apply (executes_gets _ _ _ (mesh (parameters s0)));
        intros s [[= -> _ _] _]; reflexivity
      | cbv beta; rewrite Ht; repeat setup_step ]
    | reflexivity ].
Qed.

Lemma read_mesh_throws o1 o2 o3 o4 :
  mesh_event_for (Parameters.type (mesh (parameters s0))) = None ->
  throws (configured s0 o1 o2 o3 o4) read_mesh
    (runtime_error unsupported_mesh_error).
Proof.
  intros He. unfold read_mesh.
  eapply throws_bind_later.
  { apply (executes_gets _ any_call _ (mesh (parameters s0))).
    intros s [[= -> _ _] _]. reflexivity. }
  revert He.
  destruct (Parameters.type (mesh (parameters s0)));
    intros He; try discriminate He.
  apply throws_bind_first, throws_throw.
Qed.

Ltac setup_modify :=
  apply executes_modify;
  intros s (Hf & H1 & H2 & H3 & H4);
  repeat split; first [assumption | reflexivity].

(** [call (e o);; modify (set (Some o));; gets member] *)
Ltac selector_executes pick :=
  eapply executes_events;
  [ eapply executes_bind;
    [ | apply executes_gets; intros s HP; pick HP ];
    eapply executes_bind; [ setup_step | setup_modify ]
  | reflexivity ].

Let prm := parameters s0.

Lemma set_insertion_type_executes o1 o2 o3 o4 o :
  insertion_for (Parameters.insertion_method (insertion_info prm)) = Some o ->
  executes (configured s0 o1 o2 o3 o4) (set_insertion_type prm)
    [ev_make_insertion o] any_call (Some o)
    (configured s0 (Some o) o2 o3 o4).
Proof.
  intros Ho. unfold set_insertion_type, make_shared.
  destruct (Parameters.insertion_method (insertion_info prm));
    simplify_eq/=.
  all: selector_executes ltac:(fun HP => exact (proj1 (proj2 HP))).
Qed.

Lemma set_insertion_type_throws o1 o2 o3 o4 :
  insertion_for (Parameters.insertion_method (insertion_info prm)) = None ->
  throws (configured s0 o1 o2 o3 o4) (set_insertion_type prm)
    (thrown_literal invalid_insertion_method).
Proof.
  intros Ho. unfold set_insertion_type.
  destruct (Parameters.insertion_method (insertion_info prm));
    simplify_eq/=.
  apply throws_bind_first, throws_throw.
Qed.

Lemma set_integrator_type_executes o1 o2 o3 o4 o :
  integrator_for (Parameters.integration_method (model_parameters prm))
    = Some o ->
  executes (configured s0 o1 o2 o3 o4) (set_integrator_type prm)
    [ev_make_integrator o] any_call (Some o)
    (configured s0 o1 (Some o) o3 o4).
Proof.
  intros Ho. unfold set_integrator_type, make_shared.
  destruct (Parameters.integration_method (model_parameters prm));
    simplify_eq/=.
  all: selector_executes ltac:(fun HP => exact (proj1 (proj2 (proj2 HP)))).
Qed.

Lemma set_integrator_type_throws o1 o2 o3 o4 :
  integrator_for (Parameters.integration_method (model_parameters prm))
    = None ->
  throws (configured s0 o1 o2 o3 o4) (set_integrator_type prm)
    (thrown_literal invalid_integration_method).
Proof.
  intros Ho. unfold set_integrator_type.
  destruct (Parameters.integration_method (model_parameters prm));
    simplify_eq/=.
  apply throws_bind_first, throws_throw.
Qed.

Lemma set_pp_contact_force_executes o1 o2 o3 o4 o :
  pp_force_for (Parameters.pp_contact_force_method (model_parameters prm))
    = Some o ->
  executes (configured s0 o1 o2 o3 o4) (set_pp_contact_force prm)
    [ev_make_pp_contact_force o] any_call (Some o)
    (configured s0 o1 o2 (Some o) o4).
Proof.
  intros Ho. unfold set_pp_contact_force, make_shared.
  destruct (Parameters.pp_contact_force_method (model_parameters prm));
    simplify_eq/=.
  all: selector_executes
         ltac:(fun HP => exact (proj1 (proj2 (proj2 (proj2 HP))))).
Qed.

Lemma set_pp_contact_force_throws o1 o2 o3 o4 :
  pp_force_for (Parameters.pp_contact_force_method (model_parameters prm))
    = None ->
  throws (configured s0 o1 o2 o3 o4) (set_pp_contact_force prm)
    (thrown_literal invalid_pp_contact_force).
Proof.
  intros Ho. unfold set_pp_contact_force.
  destruct (Parameters.pp_contact_force_method (model_parameters prm));
    simplify_eq/=.
  apply throws_bind_first, throws_throw.
Qed.

Lemma set_pw_contact_force_executes o1 o2 o3 o4 o :
  pw_force_for (Parameters.pw_contact_force_method (model_parameters prm))
    = Some o ->
  executes (configured s0 o1 o2 o3 o4) (set_pw_contact_force prm)
    [ev_make_pw_contact_force o] any_call (Some o)
    (configured s0 o1 o2 o3 (Some o)).
Proof.
  intros Ho. unfold set_pw_contact_force, make_shared.
  destruct (Parameters.pw_contact_force_method (model_parameters prm));
    simplify_eq/=.
  all: selector_executes
         ltac:(fun HP => exact (proj2 (proj2 (proj2 (proj2 HP))))).
Qed.

Lemma set_pw_contact_force_throws o1 o2 o3 o4 :
  pw_force_for (Parameters.pw_contact_force_method (model_parameters prm))
    = None ->
  throws (configured s0 o1 o2 o3 o4) (set_pw_contact_force prm)
    (thrown_literal invalid_pw_contact_force).
Proof.
  intros Ho. unfold set_pw_contact_force.
  destruct (Parameters.pw_contact_force_method (model_parameters prm));
    simplify_eq/=.
  apply throws_bind_first, throws_throw.
Qed.

Ltac setup_exec :=
  lazymatch goal with
  | |- executes _ read_mesh _ _ _ _ =>
      eapply read_mesh_executes; eassumption
  | |- executes _ (set_insertion_type _) _ _ _ _ =>
      eapply set_insertion_type_executes; eassumption
  | |- executes _ (set_integrator_type _) _ _ _ _ =>
      eapply set_integrator_type_executes; eassumption
  | |- executes _ (set_pp_contact_force _) _ _ _ _ =>
      eapply set_pp_contact_force_executes; eassumption
  | |- executes _ (set_pw_contact_force _) _ _ _ _ =>
      eapply set_pw_contact_force_executes; eassumption
  | |- executes _ (gets parameters) _ _ _ _ =>
      apply (executes_gets _ _ _ prm);
      intros s [[= Hp _ _ _ _] _]; exact Hp
  | |- executes ?P (modify _) _ _ _ _ =>
      apply (executes_modify P P);
      intros s (Hf & H1 & H2 & H3 & H4);
      repeat split; first [assumption | reflexivity]
  | |- executes _ (call _) _ _ _ _ =>
      apply executes_call; intros ? ?; exact I
  | |- executes _ (_ ≫= _) _ _ _ _ => eapply executes_bind
  | |- executes _ call_find_cell_neighbors _ _ _ _ =>
      unfold call_find_cell_neighbors
  | |- executes _ call_find_boundary_cells_information _ _ _ _ =>
      unfold call_find_boundary_cells_information
  | |- executes _ call_find_particle_point_and_line_contact_cells _ _ _ _ =>
      unfold call_find_particle_point_and_line_contact_cells
  end.

Ltac setup_prefix :=
  repeat (eapply (throws_bind_later _ _ any_call);
          [solve [repeat setup_exec]|]).

Section Selections.

Variables (o1' : option Insertion) (o2' : option Integrator)
          (o3' : option PPContactForce) (o4' : option PWContactForce).

Lemma solve_setup_throws_mesh :
  mesh_event_for (Parameters.type (mesh prm)) = None ->
  throws (configured s0 o1' o2' o3' o4') solve_setup
    (runtime_error unsupported_mesh_error).
Proof.
  intros Hm. unfold solve_setup. setup_prefix.
  apply throws_bind_first. eapply read_mesh_throws; eassumption.
Qed.

Variable mesh_event : event.
Hypothesis mesh_supported :
  mesh_event_for (Parameters.type (mesh prm)) = Some mesh_event.

Lemma solve_setup_throws_insertion :
  insertion_for (Parameters.insertion_method (insertion_info prm))
    = None ->
  throws (configured s0 o1' o2' o3' o4') solve_setup
    (thrown_literal invalid_insertion_method).
Proof.
  intros Hm. unfold solve_setup. setup_prefix.
  apply throws_bind_first. eapply set_insertion_type_throws; eassumption.
Qed.

Variable o1 : Insertion.
Hypothesis insertion_recognised :
  insertion_for (Parameters.insertion_method (insertion_info prm))
    = Some o1.

Lemma solve_setup_throws_integrator :
  integrator_for (Parameters.integration_method (model_parameters prm))
    = None ->
  throws (configured s0 o1' o2' o3' o4') solve_setup
    (thrown_literal invalid_integration_method).
Proof.
  intros Hm. unfold solve_setup. setup_prefix.
  apply throws_bind_first. eapply set_integrator_type_throws; eassumption.
Qed.

Variable o2 : Integrator.
Hypothesis integrator_recognised :
  integrator_for (Parameters.integration_method (model_parameters prm))
    = Some o2.

Lemma solve_setup_throws_pp_force :
  pp_force_for (Parameters.pp_contact_force_method (model_parameters prm))
    = None ->
  throws (configured s0 o1' o2' o3' o4') solve_setup
    (thrown_literal invalid_pp_contact_force).
Proof.
  intros Hm. unfold solve_setup. setup_prefix.
  apply throws_bind_first. eapply set_pp_contact_force_throws; eassumption.
Qed.

Variable o3 : PPContactForce.
Hypothesis pp_force_recognised :
  pp_force_for (Parameters.pp_contact_force_method (model_parameters prm))
    = Some o3.

Lemma solve_setup_throws_pw_force :
  pw_force_for (Parameters.pw_contact_force_method (model_parameters prm))
    = None ->
  throws (configured s0 o1' o2' o3' o4') solve_setup
    (thrown_literal invalid_pw_contact_force).
Proof.
  intros Hm. unfold solve_setup. setup_prefix.
  apply throws_bind_first. eapply set_pw_contact_force_throws; eassumption.
Qed.

Variable o4 : PWContactForce.
Hypothesis pw_force_recognised :
  pw_force_for (Parameters.pw_contact_force_method (model_parameters prm))
    = Some o4.

Lemma solve_setup_executes :
  executes (configured s0 o1' o2' o3' o4') solve_setup
    (setup_events mesh_event o1 o2 o3 o4) any_call tt
    (configured s0 (Some o1) (Some o2) (Some o3) (Some o4)).
Proof.
  unfold solve_setup.
  eapply executes_events; [repeat setup_exec | reflexivity].
Qed.

End Selections.

End Setup.

(** * Whole runs *)

Section Runs.

Context {C : Carriers} {E : Collaborators}.
Variable dim : nat.
Variable idx : PropertiesIndex.

Lemma solve_setup_outcome (s : DEMSolver) :
  match configuration_error (parameters s) with
  | Some e => run_result solve_setup s = inl e
  | None =>
      exists mesh_event o1 o2 o3 o4 s1,
        mesh_event_for (Parameters.type (mesh (parameters s)))
          = Some mesh_event /\
        selected (parameters s) o1 o2 o3 o4 /\
        run_result solve_setup s = inr (tt, s1) /\
        events (run_history solve_setup s)
          = setup_events mesh_event o1 o2 o3 o4 /\
        configured s (Some o1) (Some o2) (Some o3) (Some o4) s1
  end.
Proof.
  assert (Hs : configured s (insertion_object s) (integrator_object s)
                 (pp_contact_force_object s) (pw_contact_force_object s) s)
    by (repeat split).
  unfold configuration_error.
  destruct (mesh_event_for _) as [me|] eqn:Hm;
    [|exact (solve_setup_throws_mesh s _ _ _ _ Hm s Hs)].
  destruct (insertion_for _) as [o1|] eqn:H1;
    [|exact (solve_setup_throws_insertion s _ _ _ _ me Hm H1 s Hs)].
  destruct (integrator_for _) as [o2|] eqn:H2;
    [|exact (solve_setup_throws_integrator s _ _ _ _ me Hm o1 H1 H2 s Hs)].
  destruct (pp_force_for _) as [o3|] eqn:H3;
    [|exact (solve_setup_throws_pp_force s _ _ _ _ me Hm o1 H1 o2 H2 H3
               s Hs)].
  destruct (pw_force_for _) as [o4|] eqn:H4;
    [|exact (solve_setup_throws_pw_force s _ _ _ _ me Hm o1 H1 o2 H2 o3 H3
               H4 s Hs)].
  destruct (solve_setup_executes s _ _ _ _ me Hm o1 H1 o2 H2 o3 H3 o4 H4
              s Hs) as (s1 & Hr & He & _ & Hc).
  exists me, o1, o2, o3, o4, s1. unfold selected. auto 10.
Qed.

Lemma configured_control s_c o1 o2 o3 o4 s s' :
  control s' = control s ->
  configured s_c o1 o2 o3 o4 s -> configured s_c o1 o2 o3 o4 s'.
Proof.
  intros Hc (Hf & H1 & H2 & H3 & H4).
  destruct (control_objects _ _ Hc) as (Ho1 & Ho2 & Ho3 & Ho4).
  destruct (control_frequencies _ _ Hc) as (Hd & Hr & Hi).
  unfold configured, fixed in *.
  rewrite (control_parameters _ _ Hc), (control_signals _ _ Hc), Hd, Hr, Hi.
  repeat split; congruence.
Qed.

(** Every timestep of the loop starts from a solver that still has the
    configuration the loop was entered with, and its history is that of
    the loop body run on that solver. *)
Lemma timestep_loop_steps s_c o1 o2 o3 o4 g :
  signals (triangulation s_c) = connected_signals ->
  forall fuel s,
    configured s_c (Some o1) (Some o2) (Some o3) (Some o4) s ->
    forall s' h,
      In (s', h) (timestep_loop dim idx fuel g s).1 ->
      configured s_c (Some o1) (Some o2) (Some o3) (Some o4) s' /\
      h = run_history (timestep dim idx g) s'.
Proof.
  intros Hsig. induction fuel as [|fuel IH]; intros s Hs s' h Hin.
  { destruct Hin. }
  cbn [timestep_loop] in Hin.
  set (s_a := set_simulation_control _ s) in Hin.
  assert (Ha : configured s_c (Some o1) (Some o2) (Some o3) (Some o4) s_a).
  { destruct Hs as (Hf & H1 & H2 & H3 & H4). repeat split; assumption. }
  destruct (sc_integrate (simulation_control s)).1; [|destruct Hin].
  destruct Ha as (Hf & H1 & H2 & H3 & H4).
  assert (Hconn : signals (triangulation s_a) = connected_signals).
  { unfold fixed in Hf. injection Hf as _ _ _ _ Hsg.
    change (signals (triangulation s) = connected_signals). congruence. }
  destruct (timestep_executes dim idx s_a o1 o2 o3 o4 H1 H2 H3 H4 Hconn g
              s_a (conj eq_refl eq_refl)) as (s2 & Hr & _ & _ & Hc).
  rewrite Hr in Hin. cbn [fst] in Hin.
  destruct Hin as [[= <- <-]|Hin].
  - split; [repeat split; assumption | reflexivity].
  - apply (IH s2); [|exact Hin].
    apply (configured_control _ _ _ _ _ s_a); [exact Hc|].
    repeat split; assumption.
Qed.

(** ** The constructor *)

Lemma constructor_returns prm s :
  DEMSolver_constructor idx prm = inr s ->
  fixed s = (prm, frequencies_of prm, connected_signals) /\
  (Parameters.contact_detection_frequency (model_parameters prm) <> 0 /\
   Parameters.repartition_frequency (model_parameters prm)
     mod Parameters.contact_detection_frequency (model_parameters prm) = 0).
Proof.
  unfold DEMSolver_constructor.
  destruct (double_ne _ 0) eqn:Hne; [discriminate|].
  intros [= <-]. split; [reflexivity|].
  apply double_ne_fmod, Hne.
Qed.

Lemma constructor_throws prm e :
  DEMSolver_constructor idx prm = inl e ->
  e = runtime_error repartition_frequency_error /\
  ~ (Parameters.contact_detection_frequency (model_parameters prm) <> 0 /\
     Parameters.repartition_frequency (model_parameters prm)
       mod Parameters.contact_detection_frequency (model_parameters prm)
     = 0).
Proof.
  unfold DEMSolver_constructor.
  destruct (double_ne _ 0) eqn:Hne; [|discriminate].
  intros [= <-]. split; [reflexivity|].
  intros Hok. apply double_ne_fmod in Hok. congruence.
Qed.

(** ** The timesteps of a run *)

Lemma run_timesteps fuel prm s h :
  In (s, h) (timesteps (construct_and_solve dim idx fuel prm)) ->
  exists o1 o2 o3 o4 g,
    selected prm o1 o2 o3 o4 /\
    in_loop prm o1 o2 o3 o4 s /\
    (Parameters.contact_detection_frequency (model_parameters prm) <> 0 /\
     Parameters.repartition_frequency (model_parameters prm)
       mod Parameters.contact_detection_frequency (model_parameters prm)
     = 0) /\
    h = run_history (timestep dim idx g) s.
Proof.
  unfold construct_and_solve.
  destruct (DEMSolver_constructor idx prm) as [e|s_c] eqn:Hc;
    [intros []|].
  destruct (constructor_returns _ _ Hc) as (Hf & Hfreq).
  assert (Hp : parameters s_c = prm) by (injection Hf; auto).
  assert (Hsig : signals (triangulation s_c) = connected_signals)
    by (injection Hf; auto).
  unfold solve. pose proof (solve_setup_outcome s_c) as Hsetup.
  rewrite Hp in Hsetup.
  destruct (configuration_error prm) as [e|].
  { rewrite Hsetup. intros []. }
  destruct Hsetup as (me & o1 & o2 & o3 & o4 & s1 & _ & Hsel & Hr & _ & Hs1).
  rewrite Hr. cbn [timesteps]. intros Hin.
  destruct (timestep_loop_steps s_c o1 o2 o3 o4 _ Hsig fuel s1 Hs1 s h Hin)
    as ((Hfs & H1 & H2 & H3 & H4) & ->).
  exists o1, o2, o3, o4, (body_force dim s1).
  repeat split; try assumption; try apply Hsel; try apply Hfreq.
  congruence.
Qed.

End Runs.

(** * The claims *)

Section Claims.

Context {C : Carriers} {E : Collaborators}.
Variable dim : nat.
Variable idx : PropertiesIndex.

(** C1.  When the contact detection frequency is not zero (so that the
    remainder is defined): if the repartition frequency is not a multiple
    of it, the constructor throws [std::runtime_error] with the message
    of [repartition_frequency_error], and the run is over with an empty
    history and no timestep; if it is a multiple, the constructor
    returns a solver. *)
Theorem constructor_checks_repartition_frequency
    (fuel : nat) (prm : DEMSolverParameters) :
  Parameters.contact_detection_frequency (model_parameters prm) <> 0 ->
  (Parameters.repartition_frequency (model_parameters prm)
     mod Parameters.contact_detection_frequency (model_parameters prm) <> 0 ->
   DEMSolver_constructor idx prm
     = inl (runtime_error repartition_frequency_error) /\
   construct_and_solve dim idx fuel prm
     = {| setup_history := []; timesteps := []; closing_history := [];
          result := Aborted (runtime_error repartition_frequency_error) |})
  /\
  (Parameters.repartition_frequency (model_parameters prm)
     mod Parameters.contact_detection_frequency (model_parameters prm) = 0 ->
   exists s, DEMSolver_constructor idx prm = inr s).
Proof.
  intros HC. split; intros HR.
  - assert (Hc : DEMSolver_constructor idx prm
                 = inl (runtime_error repartition_frequency_error)).
    { destruct (DEMSolver_constructor idx prm) as [e|s] eqn:Hc.
      - destruct (constructor_throws idx prm e Hc) as [-> _]. reflexivity.
      - destruct (constructor_returns idx prm s Hc) as (_ & _ & Hm).
        contradiction. }
    split; [exact Hc|]. unfold construct_and_solve. rewrite Hc. reflexivity.
  - destruct (DEMSolver_constructor idx prm) as [e|s] eqn:Hc; [|eauto].
    destruct (constructor_throws idx prm e Hc) as [_ Hno].
    exfalso. apply Hno. split; assumption.
Qed.

(** ** [insert_particles] *)

Lemma insert_particles_unfold (s : DEMSolver) :
  insert_particles s =
    if insertion_due s then
      match insertion_object s with
      | Some o =>
          ([(ev_insert_particles, s); (ev_insert, s)],
           inr (true,
                set_particle_handler
                  (insert o (particle_handler s) (grid (triangulation s))
                     (parameters s)) s))
      | None => ([(ev_insert_particles, s)], inl null_dereference)
      end
    else ([(ev_insert_particles, s)], inr (false, s)).
Proof.
  unfold insert_particles, mbind, Exec_bind, call, gets, deref, modify,
    mret, Exec_ret.
  destruct (insertion_due s); [|reflexivity].
  destruct (insertion_object s); reflexivity.
Qed.

(** C9.  With a non-zero insertion frequency, [insert_particles] calls
    the insertion object and returns true when the step number modulo
    the insertion frequency is 1, and otherwise returns false and leaves
    the solver, and so the particles, as they were; with an insertion
    frequency of 1 it never inserts. *)
Theorem insert_particles_on_cadence (s : DEMSolver) :
  insertion_frequency s <> 0 ->
  (step_number s mod insertion_frequency s = 1 ->
   forall o, insertion_object s = Some o ->
     insert_particles s =
       ([(ev_insert_particles, s); (ev_insert, s)],
        inr (true,
             set_particle_handler
               (insert o (particle_handler s) (grid (triangulation s))
                  (parameters s)) s))) /\
  (step_number s mod insertion_frequency s <> 1 ->
   insert_particles s = ([(ev_insert_particles, s)], inr (false, s))) /\
  (insertion_frequency s = 1 ->
   insert_particles s = ([(ev_insert_particles, s)], inr (false, s))).
Proof.
  intros Hf. rewrite insert_particles_unfold.
  pose proof (double_eq_fmod (step_number s) (insertion_frequency s) 1) as Hd.
  fold (insertion_due s) in Hd.
  split; [|split].
  - intros Hm o Ho. rewrite Ho.
    destruct (insertion_due s); [reflexivity|].
    assert (false = true) by (apply Hd; auto). discriminate.
  - intros Hm. destruct (insertion_due s); [|reflexivity].
    exfalso. apply Hm, Hd. reflexivity.
  - intros H1. destruct (insertion_due s); [|reflexivity].
    destruct Hd as [Hd _]. destruct (Hd eq_refl) as [_ Hm].
    rewrite H1, N.mod_1_r in Hm. discriminate.
Qed.

(** ** [reinitialize_force] *)

Lemma zero_slots_length js l : length (zero_slots js l) = length l.
Proof.
  induction js as [|j js IH]; simpl; [reflexivity|].
  rewrite length_insert. exact IH.
Qed.

Lemma zero_slots_lookup_in js l i :
  In i js -> (i < length l)%nat -> zero_slots js l !! i = Some 0%float.
Proof.
  induction js as [|j js IH]; simpl; [intros []|].
  intros Hin Hi. destruct (decide (j = i)) as [->|Hne].
  - apply list_lookup_insert_eq. rewrite zero_slots_length. exact Hi.
  - rewrite list_lookup_insert_ne by exact Hne.
    destruct Hin as [?|Hin]; [contradiction|]. auto.
Qed.

Lemma zero_slots_lookup_out js l i :
  ~ In i js -> zero_slots js l !! i = l !! i.
Proof.
  induction js as [|j js IH]; simpl; [reflexivity|].
  intros Hout. rewrite list_lookup_insert_ne by tauto. apply IH. tauto.
Qed.

Lemma reinitialize_particle_properties (p : Particle) :
  properties (reinitialize_particle dim idx p) =
    zero_slots (rev (zeroed_slots dim idx)) (properties p).
Proof.
  unfold reinitialize_particle, zeroed_slots.
  destruct (dim =? 3)%nat; reflexivity.
Qed.

Lemma zeroed_slots_force_slots i :
  In i (zeroed_slots dim idx) -> In i (force_slots idx).
Proof.
  unfold zeroed_slots, force_slots.
  destruct (dim =? 3)%nat; simpl; tauto.
Qed.

(** C10.  [reinitialize_force] keeps the ghost particles, the rest of the
    handler and the number of particles; the particle at each position
    keeps its identifier, its location and the number of its properties,
    and every property outside the six force and torque slots. *)
Theorem reinitialize_force_frame (ph : ParticleHandler) (k : nat)
    (p : Particle) :
  particles ph !! k = Some p ->
  ghost_particles (reinitialize_force dim idx ph) = ghost_particles ph /\
  handler_data (reinitialize_force dim idx ph) = handler_data ph /\
  n_properties_per_slot (reinitialize_force dim idx ph)
    = n_properties_per_slot ph /\
  length (particles (reinitialize_force dim idx ph))
    = length (particles ph) /\
  exists p',
    particles (reinitialize_force dim idx ph) !! k = Some p' /\
    id p' = id p /\ location p' = location p /\
    reference_location p' = reference_location p /\
    length (properties p') = length (properties p) /\
    forall i, ~ In i (force_slots idx) ->
      properties p' !! i = properties p !! i.
Proof.
  intros Hk. unfold reinitialize_force. cbn [ghost_particles handler_data
    n_properties_per_slot particles set_particles].
  repeat split; [apply length_fmap|].
  exists (reinitialize_particle dim idx p).
  rewrite list_lookup_fmap, Hk. repeat split.
  - rewrite reinitialize_particle_properties. apply zero_slots_length.
  - intros i Hi. rewrite reinitialize_particle_properties.
    apply zero_slots_lookup_out. intros Hin. apply Hi.
    apply zeroed_slots_force_slots, in_rev. exact Hin.
Qed.

(** ** [cell_weight] *)

Lemma to_unsigned_int_small (n : N) :
  n < unsigned_int_modulus -> to_unsigned_int n = n.
Proof. apply N.mod_small. Qed.

Lemma to_unsigned_int_mul (n w : N) :
  to_unsigned_int (to_unsigned_int n * w) = to_unsigned_int (n * w).
Proof. unfold to_unsigned_int. apply N.Div0.mul_mod_idemp_l. Qed.

Lemma children_sum_wraps (f : nat -> N) (l : list nat) (a : N) :
  foldl (fun acc i => to_unsigned_int (acc + f i)) (to_unsigned_int a) l
  = to_unsigned_int (a + foldr N.add 0 (f <$> l)).
Proof.
  revert a. induction l as [|i l IH]; intros a; simpl.
  - rewrite N.add_0_r. reflexivity.
  - assert (Hstep : to_unsigned_int (to_unsigned_int a + f i)
                    = to_unsigned_int (a + f i)).
    { unfold to_unsigned_int. apply N.Div0.add_mod_idemp_l. }
    rewrite Hstep, IH, N.add_assoc. reflexivity.
Qed.

(** ** The closed form of the events, by cases *)

Lemma nondecreasing_sorted (l : list nat) :
  nondecreasing l = true <-> StronglySorted le l.
Proof.
  induction l as [|x l IH]; simpl.
  - split; [constructor | reflexivity].
  - rewrite andb_true_iff, forallb_forall, IH. split.
    + intros [Hx Hl]. constructor; [exact Hl|].
      apply List.Forall_forall. intros y Hy. apply Nat.leb_le, Hx, Hy.
    + intros Hs. apply StronglySorted_inv in Hs as [Hl Hx]. split; [|exact Hl].
      intros y Hy. apply Nat.leb_le.
      exact (proj1 (List.Forall_forall _ _) Hx y Hy).
Qed.

Lemma In_bool_decide (e : event) (l : list event) :
  In e l <-> bool_decide (e ∈ l) = true.
Proof. rewrite bool_decide_eq_true. symmetry. apply list_elem_of_In. Qed.

Ltac by_cases :=
  unfold timestep_events, wall_broad_events, wall_fine_events,
    wall_force_events;
  destruct (dim =? 3)%nat eqn:Hdim;
  repeat match goal with b : bool |- _ => destruct b end;
  try reflexivity.

Lemma timestep_events_in_order (rep ins det out : bool) :
  in_order particle_particle_phase (timestep_events dim rep ins det out) /\
  in_order particle_wall_phase (timestep_events dim rep ins det out) /\
  in_order exchange_then_force (timestep_events dim rep ins det out) /\
  in_order interleaved_phase (timestep_events dim rep ins det out).
Proof.
  unfold in_order. rewrite <- !nondecreasing_sorted.
  by_cases; repeat split; reflexivity.
Qed.

Lemma timestep_events_insert (rep ins det out : bool) :
  bool_decide (ev_insert ∈ timestep_events dim rep ins det out) = ins.
Proof. by_cases. Qed.

Lemma timestep_events_repartition (rep ins det out : bool) :
  bool_decide (ev_repartition ∈ timestep_events dim rep ins det out) = rep.
Proof. by_cases. Qed.

Lemma timestep_events_search (rep ins det out : bool) (e : event) :
  In e search_calls ->
  bool_decide (e ∈ timestep_events dim rep ins det out) = ins || det.
Proof.
  intros He. simpl in He.
  repeat (destruct He as [<-|He]; [by_cases|]). destruct He.
Qed.

Lemma timestep_events_line_search (rep ins det out : bool) (e : event) :
  In e line_search_calls ->
  bool_decide (e ∈ timestep_events dim rep ins det out)
  = (dim =? 3)%nat && (ins || det).
Proof.
  intros He. simpl in He.
  repeat (destruct He as [<-|He]; [by_cases|]). destruct He.
Qed.

Lemma timestep_events_force (rep ins det out : bool) (e : event) :
  In e force_calls ->
  bool_decide (e ∈ timestep_events dim rep ins det out) = true.
Proof.
  intros He. simpl in He.
  repeat (destruct He as [<-|He]; [by_cases|]). destruct He.
Qed.

Lemma timestep_events_line_force (rep ins det out : bool) :
  bool_decide (ev_calculate_particle_line_contact_force
               ∈ timestep_events dim rep ins det out)
  = (dim =? 3)%nat.
Proof. by_cases. Qed.

Lemma timestep_events_exchange (rep ins det out : bool) :
  bool_decide (ev_exchange_ghost_particles
               ∈ timestep_events dim rep ins det out) = true.
Proof. by_cases. Qed.

Lemma timestep_events_no_selection (rep ins det out : bool) o1 o2 o3 o4 :
  Forall (fun e => ~ In e (timestep_events dim rep ins det out))
    [ev_make_insertion o1; ev_make_integrator o2;
     ev_make_pp_contact_force o3; ev_make_pw_contact_force o4].
Proof.
  repeat constructor; rewrite In_bool_decide; by_cases; discriminate.
Qed.

Lemma repartition_events_before_use (rep : bool) :
  forallb (fun e => negb (insertion_detection_or_force e))
    (ev_print_progression :: (if rep then repartition_events else []))
  = true.
Proof. destruct rep; reflexivity. Qed.

(** ** Every timestep of a run *)

Lemma run_timestep_facts fuel prm s h :
  In (s, h) (timesteps (construct_and_solve dim idx fuel prm)) ->
  events h = events_of dim s /\
  Forall (fun x => at_call s x.1 x.2) h /\
  (exists h1 s_r h2,
     h = (ev_print_progression, s) :: h1
         ++ (ev_reinitialize_force, s_r)
         :: (ev_insert_particles,
             set_particle_handler
               (reinitialize_force dim idx (particle_handler s_r)) s_r)
         :: h2 /\
     events h1 = (if repartition_due s then repartition_events else [])) /\
  exists o1 o2 o3 o4,
    selected prm o1 o2 o3 o4 /\ in_loop prm o1 o2 o3 o4 s /\
    Parameters.contact_detection_frequency (model_parameters prm) <> 0 /\
    Parameters.repartition_frequency (model_parameters prm)
      mod Parameters.contact_detection_frequency (model_parameters prm) = 0.
Proof.
  intros Hin.
  destruct (run_timesteps dim idx fuel prm s h Hin)
    as (o1 & o2 & o3 & o4 & g & Hsel & Hloop & Hfreq & ->).
  pose proof Hloop as (Hf & H1 & H2 & H3 & H4).
  assert (Hsig : signals (triangulation s) = connected_signals)
    by (injection Hf; auto).
  destruct (timestep_executes dim idx s o1 o2 o3 o4 H1 H2 H3 H4 Hsig g
              s (conj eq_refl eq_refl)) as (s' & _ & He & Hall & _).
  split; [exact He|]. split; [exact Hall|]. split.
  - eapply timestep_history_reinitialize; eassumption.
  - exists o1, o2, o3, o4. tauto.
Qed.

Lemma in_loop_frequencies prm o1 o2 o3 o4 s :
  in_loop prm o1 o2 o3 o4 s ->
  contact_detection_frequency s
    = Parameters.contact_detection_frequency (model_parameters prm) /\
  repartition_frequency s
    = Parameters.repartition_frequency (model_parameters prm) /\
  insertion_frequency s
    = Parameters.insertion_frequency (insertion_info prm).
Proof. intros ([= _ -> -> -> _] & _). auto. Qed.

(** C2, as the code has it.  In every timestep of a run the ghost
    particles are exchanged, and the exchange comes before every force
    computation; for the particle-particle contacts the broad search
    comes before the fine search, the fine search before the force
    computation and that before the integration, and likewise for the
    particle-wall, -point and -line contacts; the two families are
    interleaved, the particle-particle force being computed before the
    particle-wall fine search. *)
Theorem phases_in_order_per_family fuel prm s h :
  In (s, h) (timesteps (construct_and_solve dim idx fuel prm)) ->
  In ev_exchange_ghost_particles (events h) /\
  in_order exchange_then_force (events h) /\
  in_order particle_particle_phase (events h) /\
  in_order particle_wall_phase (events h) /\
  in_order interleaved_phase (events h).
Proof.
  intros Hin.
  destruct (run_timestep_facts fuel prm s h Hin) as (-> & _).
  unfold events_of.
  split; [rewrite In_bool_decide; apply timestep_events_exchange|].
  pose proof (timestep_events_in_order (repartition_due s) (insertion_due s)
                (detection_due s)
                (is_output_iteration (simulation_control s))).
  tauto.
Qed.

(** C6, as the code has it.  The weight per particle is ten times the
    weight deal.II gives a cell.  For a cell that is not locally owned
    the callback returns 0.  For a locally owned cell that persists or
    is refined it returns the particle count of the cell times the
    weight per particle, reduced modulo 2^32, which is the product
    itself whenever that is below 2^32; for one that is coarsened, the
    same with the sum of the particle counts of its children. *)
Theorem cell_weight_counts_particles (s : DEMSolver) (cell : Cell)
    (status : CellStatus) :
  particle_weight = 10 * base_cell_weight /\
  (is_locally_owned cell = false -> cell_weight dim s cell status = inr 0) /\
  (is_locally_owned cell = true ->
   status = CELL_PERSIST \/ status = CELL_REFINE ->
   let n := n_particles_in_cell (particle_handler s) cell in
   cell_weight dim s cell status
     = inr (to_unsigned_int (n * particle_weight)) /\
   (n * particle_weight < unsigned_int_modulus ->
    cell_weight dim s cell status = inr (n * particle_weight))) /\
  (is_locally_owned cell = true ->
   status = CELL_COARSEN ->
   let n := particles_in_children dim s cell in
   cell_weight dim s cell status
     = inr (to_unsigned_int (n * particle_weight)) /\
   (n * particle_weight < unsigned_int_modulus ->
    cell_weight dim s cell status = inr (n * particle_weight))).
Proof.
  split; [reflexivity|].
  split; [intros Ho; unfold cell_weight; rewrite Ho; reflexivity|]. split.
  - intros Ho Hst n.
    assert (Hw : cell_weight dim s cell status
                 = inr (to_unsigned_int (n * particle_weight))).
    { unfold cell_weight. rewrite Ho. simpl.
      rewrite bool_decide_eq_true_2 by exact Hst.
      fold n. rewrite to_unsigned_int_mul. reflexivity. }
    split; [exact Hw|].
    intros Hn. rewrite Hw, to_unsigned_int_small by exact Hn. reflexivity.
  - intros Ho -> n.
    assert (Hw : cell_weight dim s cell CELL_COARSEN
                 = inr (to_unsigned_int (n * particle_weight))).
    { unfold cell_weight. rewrite Ho. simpl.
      change 0 with (to_unsigned_int 0) at 1.
      rewrite (children_sum_wraps
                 (fun i => n_particles_in_cell (particle_handler s)
                             (child cell i))).
      rewrite N.add_0_l. fold (particles_in_children dim s cell). fold n.
      rewrite to_unsigned_int_mul. reflexivity. }
    split; [exact Hw|].
    intros Hn. rewrite Hw, to_unsigned_int_small by exact Hn. reflexivity.
Qed.

Lemma configuration_error_descriptive prm e :
  configuration_error prm = Some e ->
  In e [runtime_error unsupported_mesh_error;
        thrown_literal invalid_insertion_method;
        thrown_literal invalid_integration_method;
        thrown_literal invalid_pp_contact_force;
        thrown_literal invalid_pw_contact_force].
Proof.
  unfold configuration_error.
  repeat match goal with
         | |- context [match ?o with Some _ => _ | None => _ end] =>
             destruct o
         end;
    intros [= <-]; simpl; tauto.
Qed.

Lemma configuration_error_selected prm :
  configuration_error prm = None <->
  exists me o1 o2 o3 o4,
    mesh_event_for (Parameters.type (mesh prm)) = Some me /\
    selected prm o1 o2 o3 o4.
Proof.
  unfold configuration_error, selected. split.
  - destruct (mesh_event_for _) as [me|]; [|discriminate].
    destruct (insertion_for _) as [o1|]; [|discriminate].
    destruct (integrator_for _) as [o2|]; [|discriminate].
    destruct (pp_force_for _) as [o3|]; [|discriminate].
    destruct (pw_force_for _) as [o4|]; [|discriminate].
    intros _. exists me, o1, o2, o3, o4. auto.
  - intros (me & o1 & o2 & o3 & o4 & -> & -> & -> & -> & ->). reflexivity.
Qed.

(** C7.  A run whose insertion method, integration method,
    particle-particle or particle-wall force model is not recognised is
    aborted by an exception that carries one of the six messages of
    [dem.cc], and has no timestep; when the constructor has returned,
    the exception is the one of [configuration_error].  A run whose
    mesh type and four selections are recognised makes, before the loop,
    exactly the calls [setup_events], which create the object of each
    selection once; every timestep starts with these four objects, and
    no timestep creates one. *)
Theorem selections_made_before_loop fuel prm :
  (insertion_for (Parameters.insertion_method (insertion_info prm)) = None \/
   integrator_for (Parameters.integration_method (model_parameters prm))
     = None \/
   pp_force_for (Parameters.pp_contact_force_method (model_parameters prm))
     = None \/
   pw_force_for (Parameters.pw_contact_force_method (model_parameters prm))
     = None ->
   exists e,
     result (construct_and_solve dim idx fuel prm) = Aborted e /\
     timesteps (construct_and_solve dim idx fuel prm) = [] /\
     In e [runtime_error repartition_frequency_error;
           runtime_error unsupported_mesh_error;
           thrown_literal invalid_insertion_method;
           thrown_literal invalid_integration_method;
           thrown_literal invalid_pp_contact_force;
           thrown_literal invalid_pw_contact_force] /\
     (forall s_c, DEMSolver_constructor idx prm = inr s_c ->
        configuration_error prm = Some e)) /\
  (forall s_c me o1 o2 o3 o4,
     DEMSolver_constructor idx prm = inr s_c ->
     mesh_event_for (Parameters.type (mesh prm)) = Some me ->
     selected prm o1 o2 o3 o4 ->
     events (setup_history (construct_and_solve dim idx fuel prm))
       = setup_events me o1 o2 o3 o4 /\
     forall s h,
       In (s, h) (timesteps (construct_and_solve dim idx fuel prm)) ->
       insertion_object s = Some o1 /\ integrator_object s = Some o2 /\
       pp_contact_force_object s = Some o3 /\
       pw_contact_force_object s = Some o4 /\
       forall o1' o2' o3' o4',
         Forall (fun e => ~ In e (events h))
           [ev_make_insertion o1'; ev_make_integrator o2';
            ev_make_pp_contact_force o3'; ev_make_pw_contact_force o4']).
Proof.
  split.
  - intros Hbad. unfold construct_and_solve.
    destruct (DEMSolver_constructor idx prm) as [e|s_c] eqn:Hc.
    { destruct (constructor_throws idx prm e Hc) as [-> _].
      exists (runtime_error repartition_frequency_error).
      split; [reflexivity|]. split; [reflexivity|].
      split; [simpl; tauto | discriminate]. }
    destruct (constructor_returns idx prm s_c Hc) as (Hf & _).
    assert (Hp : parameters s_c = prm) by (injection Hf; auto).
    pose proof (solve_setup_outcome s_c) as Hsetup. rewrite Hp in Hsetup.
    destruct (configuration_error prm) as [e|] eqn:Hce.
    + exists e. unfold solve. rewrite Hsetup.
      split; [reflexivity|]. split; [reflexivity|].
      split; [|intros; reflexivity].
      right. exact (configuration_error_descriptive prm e Hce).
    + apply configuration_error_selected in Hce
        as (me & o1 & o2 & o3 & o4 & _ & H1 & H2 & H3 & H4).
      exfalso. destruct Hbad as [Hb|[Hb|[Hb|Hb]]]; congruence.
  - intros s_c me o1 o2 o3 o4 Hc Hm (H1 & H2 & H3 & H4). split.
    + unfold construct_and_solve. rewrite Hc.
      destruct (constructor_returns idx prm s_c Hc) as (Hf & _).
      assert (Hp : parameters s_c = prm) by (injection Hf; auto).
      pose proof (solve_setup_outcome s_c) as Hsetup. rewrite Hp in Hsetup.
      assert (Hce : configuration_error prm = None).
      { apply configuration_error_selected.
        exists me, o1, o2, o3, o4. unfold selected. auto. }
      rewrite Hce in Hsetup.
      destruct Hsetup
        as (me' & a1 & a2 & a3 & a4 & s1 & Hm' & (G1 & G2 & G3 & G4)
            & Hr & He & _).
      unfold solve. rewrite Hr. cbn [setup_history]. rewrite He.
      congruence.
    + intros s h Hin.
      destruct (run_timestep_facts fuel prm s h Hin)
        as (He & _ & _ & a1 & a2 & a3 & a4 & (G1 & G2 & G3 & G4)
            & (_ & L1 & L2 & L3 & L4) & _).
      repeat split; try congruence.
      intros o1' o2' o3' o4'. rewrite He. unfold events_of.
      apply timestep_events_no_selection.
Qed.

End Claims.

(** * The member functions, further *)

Section Functions.

Context {C : Carriers} {E : Collaborators}.
Variable dim : nat.
Variable idx : PropertiesIndex.

(** ** The constructor at the zero frequencies *)

(** X1.  With a contact detection frequency of zero [fmod] gives a NaN,
    which differs from 0, so the constructor throws whatever the
    repartition frequency is; a repartition frequency of zero is a
    multiple of every non-zero detection frequency, and the constructor
    accepts it. *)
Theorem constructor_at_zero_frequencies (prm : DEMSolverParameters) :
  (Parameters.contact_detection_frequency (model_parameters prm) = 0 ->
   DEMSolver_constructor idx prm
     = inl (runtime_error repartition_frequency_error)) /\
  (Parameters.contact_detection_frequency (model_parameters prm) <> 0 ->
   Parameters.repartition_frequency (model_parameters prm) = 0 ->
   exists s,
     DEMSolver_constructor idx prm = inr s /\ repartition_frequency s = 0).
Proof.
  split.
  - intros HC.
    destruct (DEMSolver_constructor idx prm) as [e|s] eqn:Hc.
    + destruct (constructor_throws idx prm e Hc) as [-> _]. reflexivity.
    + destruct (constructor_returns idx prm s Hc) as (_ & HC' & _).
      contradiction.
  - intros HC HR.
    destruct (DEMSolver_constructor idx prm) as [e|s] eqn:Hc.
    + destruct (constructor_throws idx prm e Hc) as [_ Hno].
      exfalso. apply Hno. split; [exact HC|].
      rewrite HR. apply N.Div0.mod_0_l.
    + exists s. split; [reflexivity|].
      destruct (constructor_returns idx prm s Hc) as (Hf & _).
      unfold fixed, frequencies_of in Hf. injection Hf as _ _ Hr _ _.
      congruence.
Qed.

(** ** [cell_weight]: what it returns and when it fails *)

Lemma to_unsigned_int_range (n : N) : to_unsigned_int n < unsigned_int_modulus.
Proof. apply N.mod_lt. discriminate. Qed.

(** X2.  A weight [cell_weight] returns is below 2^32, and is 0 for a
    cell that is not locally owned whatever its status. [cell_weight]
    fails only on the [Assert]: in a debug build, for a locally owned
    cell whose status is none of persist, refine and coarsen; in a
    release build that cell gets the weight 0. *)
Theorem cell_weight_range_and_failure (s : DEMSolver) (cell : Cell)
    (status : CellStatus) :
  (forall w, cell_weight dim s cell status = inr w ->
     w < unsigned_int_modulus) /\
  (forall e, cell_weight dim s cell status = inl e <->
     e = ExcInternalError /\ debug_build = true /\
     is_locally_owned cell = true /\ status = CELL_INVALID) /\
  (debug_build = false -> status = CELL_INVALID ->
   cell_weight dim s cell status = inr 0).
Proof.
  unfold cell_weight.
  destruct (is_locally_owned cell); simpl.
  2:{ split; [intros w [= <-]; reflexivity|]. split; [|reflexivity].
      intros e. split; [discriminate | intros (_ & _ & ? & _); discriminate]. }
  destruct status; simpl.
  1-3: split; [intros w [= <-]; apply to_unsigned_int_range|];
       (split; [|discriminate]);
       intros e; (split; [discriminate | intros (_ & _ & _ & ?); discriminate]).
  destruct debug_build.
  - split; [discriminate|]. split; [|discriminate].
    intros e. split; [intros [= <-]; auto | intros (-> & _); reflexivity].
  - split; [intros w [= <-]; reflexivity|]. split; [|reflexivity].
    intros e. split; [discriminate | intros (_ & ? & _); discriminate].
Qed.

(** ** [reinitialize_force] once more *)

Lemma zero_slots_idempotent js l :
  zero_slots js (zero_slots js l) = zero_slots js l.
Proof.
  apply list_eq. intros i.
  destruct (in_dec Nat.eq_dec i js) as [Hin|Hout].
  - destruct (decide (i < length l)%nat) as [Hi|Hi].
    + rewrite !zero_slots_lookup_in; auto.
      rewrite zero_slots_length. exact Hi.
    + rewrite !lookup_ge_None_2; auto; rewrite !zero_slots_length; lia.
  - rewrite zero_slots_lookup_out by exact Hout. reflexivity.
Qed.

Lemma reinitialize_particle_idempotent (p : Particle) :
  reinitialize_particle dim idx (reinitialize_particle dim idx p)
    = reinitialize_particle dim idx p.
Proof.
  assert (Hset : forall q, reinitialize_particle dim idx q
                   = set_properties q
                       (properties (reinitialize_particle dim idx q)))
    by reflexivity.
  rewrite (Hset (reinitialize_particle dim idx p)), (Hset p).
  rewrite !reinitialize_particle_properties.
  unfold set_properties. cbn [location reference_location id properties].
  rewrite zero_slots_idempotent. reflexivity.
Qed.

(** X3.  Resetting the forces twice is resetting them once. *)
Theorem reinitialize_force_idempotent (ph : ParticleHandler) :
  reinitialize_force dim idx (reinitialize_force dim idx ph)
    = reinitialize_force dim idx ph.
Proof.
  unfold reinitialize_force, set_particles.
  cbn [particles ghost_particles n_properties_per_slot handler_data].
  f_equal. rewrite <- list_fmap_compose. apply list_fmap_ext.
  intros i p _. apply reinitialize_particle_idempotent.
Qed.

(** X4.  Outside three dimensions [reinitialize_force] writes four slots
    only: a particle keeps what it holds in [force_z] and in [M_z], when
    these indices are not among the four. *)
Theorem reinitialize_force_keeps_z_outside_3d (ph : ParticleHandler)
    (k : nat) (p : Particle) :
  dim <> 3%nat ->
  ~ In (force_z idx) [force_x idx; force_y idx; M_x idx; M_y idx] ->
  ~ In (M_z idx) [force_x idx; force_y idx; M_x idx; M_y idx] ->
  particles ph !! k = Some p ->
  exists p',
    particles (reinitialize_force dim idx ph) !! k = Some p' /\
    properties p' !! force_z idx = properties p !! force_z idx /\
    properties p' !! M_z idx = properties p !! M_z idx.
Proof.
  intros Hdim Hfz Hmz Hk.
  exists (reinitialize_particle dim idx p). split.
  { unfold reinitialize_force. cbn [particles set_particles].
    rewrite list_lookup_fmap, Hk. reflexivity. }
  rewrite reinitialize_particle_properties.
  assert (Hslots : zeroed_slots dim idx
                   = [force_x idx; force_y idx; M_x idx; M_y idx]).
  { unfold zeroed_slots. apply Nat.eqb_neq in Hdim. rewrite Hdim.
    apply app_nil_r. }
  rewrite Hslots.
  split; apply zero_slots_lookup_out; rewrite <- in_rev; assumption.
Qed.

(** ** [insert_particles] with an insertion frequency of zero *)

(** X5.  [fmod(step, 0)] is a NaN, which is not 1: with an insertion
    frequency of zero [insert_particles] never inserts, and does not
    look at the insertion object. *)
Theorem insert_particles_at_zero_frequency (s : DEMSolver) :
  insertion_frequency s = 0 ->
  insert_particles s = ([(ev_insert_particles, s)], inr (false, s)).
Proof.
  intros Hf. rewrite insert_particles_unfold.
  destruct (insertion_due s) eqn:Hdue; [|reflexivity].
  unfold insertion_due in Hdue. apply double_eq_fmod in Hdue as [Hne _].
  contradiction.
Qed.

(** ** [finish_simulation] *)

Lemma barriers_without_print (this : N) (start len : nat) :
  (N.to_nat this < start \/ start + len <= N.to_nat this)%nat ->
  flat_map
    (fun processor_number : nat =>
       (if this =? N.of_nat processor_number then [print_xyz] else [])
       ++ [MPI_Barrier])
    (seq start len)
  = replicate len MPI_Barrier.
Proof.
  revert start. induction len as [|len IH]; intros start Hout; [reflexivity|].
  cbn [seq flat_map replicate].
  destruct (N.eqb_spec this (N.of_nat start)) as [->|_]; [lia|].
  cbn [app]. f_equal. apply IH. lia.
Qed.

Lemma barriers_around_print (this : N) (start len : nat) :
  (start <= N.to_nat this < start + len)%nat ->
  flat_map
    (fun processor_number : nat =>
       (if this =? N.of_nat processor_number then [print_xyz] else [])
       ++ [MPI_Barrier])
    (seq start len)
  = replicate (N.to_nat this - start) MPI_Barrier
    ++ print_xyz :: replicate (start + len - N.to_nat this) MPI_Barrier.
Proof.
  revert start. induction len as [|len IH]; intros start Hin; [lia|].
  cbn [seq flat_map].
  destruct (N.eqb_spec this (N.of_nat start)) as [->|Hne].
  - rewrite Nat2N.id, Nat.sub_diag. cbn [replicate app].
    rewrite barriers_without_print by (rewrite Nat2N.id; lia).
    replace (start + S len - start)%nat with (S len) by lia. reflexivity.
  - assert (start < N.to_nat this)%nat by lia.
    rewrite IH by lia. cbn [app].
    replace (N.to_nat this - start)%nat
      with (S (N.to_nat this - S start)) by lia.
    replace (S start + len)%nat with (start + S len)%nat by lia.
    reflexivity.
Qed.

(** X6.  [finish_simulation] prints the summary of the timer when the
    timer type is [end] and only then. Outside a test it does nothing
    else. In a test the process of rank [this_mpi_process] passes as
    many barriers as processes are before it, prints its particles once,
    and passes the remaining barriers, one per process in all: the
    processes print in the order of their ranks. *)
Theorem finish_simulation_prints_in_rank_order (prm : DEMSolverParameters)
    (n_mpi_processes this_mpi_process : N) :
  this_mpi_process < n_mpi_processes ->
  finish_simulation_actions prm n_mpi_processes this_mpi_process
  = (match Parameters.timer_type (timer prm) with
     | Parameters.timer_end => [print_summary]
     | _ => []
     end)
    ++ (if Parameters.enabled (test prm)
        then replicate (N.to_nat this_mpi_process) MPI_Barrier
             ++ print_xyz
             :: replicate (N.to_nat (n_mpi_processes - this_mpi_process))
                  MPI_Barrier
        else []).
Proof.
  intros Hrank. unfold finish_simulation_actions. f_equal.
  destruct (Parameters.enabled (test prm)); [|reflexivity].
  rewrite barriers_around_print by lia.
  rewrite Nat.sub_0_r, Nat.add_0_l, N2Nat.inj_sub. reflexivity.
Qed.

End Functions.

(** * The timesteps of a run, further *)

Section Loop.

Context {C : Carriers} {E : Collaborators}.
Variable dim : nat.
Variable idx : PropertiesIndex.

Ltac event_cases :=
  unfold timestep_events, wall_broad_events, wall_fine_events,
    wall_force_events;
  destruct (dim =? 3)%nat eqn:Hdim;
  repeat match goal with b : bool |- _ => destruct b end;
  try reflexivity.

(** ** The cadences of a run *)

(** The three cadence tests at the start of a timestep of a run, in
    terms of the frequencies of the parameters. *)
Lemma run_cadences fuel prm s h :
  In (s, h) (timesteps (construct_and_solve dim idx fuel prm)) ->
  (repartition_due s = true <->
   Parameters.repartition_frequency (model_parameters prm) <> 0 /\
   step_number s mod Parameters.repartition_frequency (model_parameters prm)
   = 0) /\
  (insertion_due s = true <->
   Parameters.insertion_frequency (insertion_info prm) <> 0 /\
   step_number s mod Parameters.insertion_frequency (insertion_info prm)
   = 1) /\
  (detection_due s = true <->
   step_number s
     mod Parameters.contact_detection_frequency (model_parameters prm) = 0).
Proof.
  intros Hin.
  destruct (run_timestep_facts dim idx fuel prm s h Hin)
    as (_ & _ & _ & o1 & o2 & o3 & o4 & _ & Hloop & HC & _).
  destruct (in_loop_frequencies _ _ _ _ _ _ Hloop) as (Hd & Hr & Hi).
  unfold repartition_due, insertion_due, detection_due.
  rewrite !double_eq_fmod, Hd, Hr, Hi. tauto.
Qed.

(** X8.  The calls of a timestep of a run are determined by its step
    number: they are [timestep_events] for the outcome of the three
    cadence tests and of [is_output_iteration]. *)
Theorem timestep_calls_in_closed_form fuel prm s h :
  In (s, h) (timesteps (construct_and_solve dim idx fuel prm)) ->
  exists rep ins det,
    events h
      = timestep_events dim rep ins det
          (is_output_iteration (simulation_control s)) /\
    (rep = true <->
     Parameters.repartition_frequency (model_parameters prm) <> 0 /\
     step_number s
       mod Parameters.repartition_frequency (model_parameters prm) = 0) /\
    (ins = true <->
     Parameters.insertion_frequency (insertion_info prm) <> 0 /\
     step_number s mod Parameters.insertion_frequency (insertion_info prm)
     = 1) /\
    (det = true <->
     step_number s
       mod Parameters.contact_detection_frequency (model_parameters prm)
     = 0).
Proof.
  intros Hin.
  exists (repartition_due s), (insertion_due s), (detection_due s).
  split; [|exact (run_cadences fuel prm s h Hin)].
  destruct (run_timestep_facts dim idx fuel prm s h Hin) as (-> & _).
  reflexivity.
Qed.

(** ** Repartition *)

Lemma timestep_events_rebuild (rep ins det out : bool) (e : event) :
  In e repartition_events ->
  bool_decide (e ∈ timestep_events dim rep ins det out) = rep.
Proof.
  intros He. simpl in He.
  repeat (destruct He as [<-|He]; [event_cases|]). destruct He.
Qed.

(** X9.  A timestep of a run repartitions when the repartition frequency
    is not zero and divides the step number, and only then; with a
    repartition frequency of zero no timestep does. The six [clear]
    calls and the three calls that rebuild the mesh containers are made
    in the timesteps that repartition and in no other. *)
Theorem repartition_on_cadence fuel prm s h :
  In (s, h) (timesteps (construct_and_solve dim idx fuel prm)) ->
  (In ev_repartition (events h) <->
   Parameters.repartition_frequency (model_parameters prm) <> 0 /\
   step_number s mod Parameters.repartition_frequency (model_parameters prm)
   = 0) /\
  (forall e, In e repartition_events ->
     (In e (events h) <-> In ev_repartition (events h))).
Proof.
  intros Hin.
  destruct (run_cadences fuel prm s h Hin) as (Hrep & _ & _).
  destruct (run_timestep_facts dim idx fuel prm s h Hin) as (-> & _).
  unfold events_of. split.
  - rewrite In_bool_decide, timestep_events_repartition. exact Hrep.
  - intros e He.
    rewrite !In_bool_decide, timestep_events_repartition,
      (timestep_events_rebuild _ _ _ _ e He).
    reflexivity.
Qed.

(** ** Insertion *)

(** X10.  A timestep of a run calls [insert] when the insertion
    frequency is not zero and the step number leaves the remainder 1,
    and only then: never with an insertion frequency of 0 or of 1. *)
Theorem insertion_on_cadence fuel prm s h :
  In (s, h) (timesteps (construct_and_solve dim idx fuel prm)) ->
  (In ev_insert (events h) <->
   Parameters.insertion_frequency (insertion_info prm) <> 0 /\
   step_number s mod Parameters.insertion_frequency (insertion_info prm)
   = 1) /\
  (Parameters.insertion_frequency (insertion_info prm) = 0 \/
   Parameters.insertion_frequency (insertion_info prm) = 1 ->
   ~ In ev_insert (events h)).
Proof.
  intros Hin.
  destruct (run_cadences fuel prm s h Hin) as (_ & Hins & _).
  destruct (run_timestep_facts dim idx fuel prm s h Hin) as (-> & _).
  unfold events_of.
  rewrite In_bool_decide, timestep_events_insert.
  split; [exact Hins|].
  intros Hf Hdue. apply Hins in Hdue as [Hne Hm].
  destruct Hf as [Hf|Hf]; [contradiction|].
  rewrite Hf, N.mod_1_r in Hm. discriminate.
Qed.

(** ** The calls that go with a contact detection *)

Lemma timestep_events_detection (rep ins det out : bool) (e : event) :
  In e detection_calls ->
  bool_decide (e ∈ timestep_events dim rep ins det out) = ins || det.
Proof.
  intros He. simpl in He.
  repeat (destruct He as [<-|He]; [event_cases|]). destruct He.
Qed.

Lemma timestep_events_locate_ghost (rep ins det out : bool) :
  bool_decide (ev_locate_ghost_particles_in_cells
               ∈ timestep_events dim rep ins det out) = negb (ins || det).
Proof. event_cases. Qed.

Lemma timestep_events_locating (rep ins det out : bool) :
  count_calls locating_calls (timestep_events dim rep ins det out) = 1%nat.
Proof. event_cases. Qed.

(** X11.  In a timestep of a run the particles are sorted into cells,
    the contacts are localized and the local particles are located when
    particles were inserted or a detection is due, and only then; the
    ghost particles are located in the other timesteps and only in them;
    so every timestep makes exactly one of the two locating calls. *)
Theorem particles_located_once fuel prm s h :
  In (s, h) (timesteps (construct_and_solve dim idx fuel prm)) ->
  (forall e, In e detection_calls ->
     (In e (events h) <->
      In ev_insert (events h) \/
      step_number s
        mod Parameters.contact_detection_frequency (model_parameters prm)
      = 0)) /\
  (In ev_locate_ghost_particles_in_cells (events h) <->
   ~ (In ev_insert (events h) \/
      step_number s
        mod Parameters.contact_detection_frequency (model_parameters prm)
      = 0)) /\
  count_calls locating_calls (events h) = 1%nat.
Proof.
  intros Hin.
  destruct (run_cadences fuel prm s h Hin) as (_ & _ & Hdet).
  destruct (run_timestep_facts dim idx fuel prm s h Hin) as (-> & _).
  unfold events_of.
  split; [|split].
  - intros e He.
    rewrite !In_bool_decide, timestep_events_insert,
      (timestep_events_detection _ _ _ _ e He), orb_true_iff, Hdet.
    reflexivity.
  - rewrite !In_bool_decide, timestep_events_insert,
      timestep_events_locate_ghost, negb_true_iff, <- Hdet, <- orb_true_iff.
    symmetry. apply not_true_iff_false.
  - apply timestep_events_locating.
Qed.

(** ** Output *)

Lemma timestep_events_output (rep ins det out : bool) :
  bool_decide (ev_write_output_results
               ∈ timestep_events dim rep ins det out) = out.
Proof. event_cases. Qed.

Lemma timestep_events_last (rep ins det out : bool) :
  last (timestep_events dim rep ins det out)
  = Some (if out then ev_write_output_results else ev_integrate).
Proof. event_cases. Qed.

Lemma timestep_events_integrate (rep ins det out : bool) :
  count_calls [ev_integrate] (timestep_events dim rep ins det out) = 1%nat.
Proof. event_cases. Qed.

(** X12.  A timestep of a run writes the results when the simulation
    control says the step is an output iteration, and only then; the
    results are written last, after the integration, which is otherwise
    the last call of the timestep; the integration is called once. *)
Theorem results_written_last fuel prm s h :
  In (s, h) (timesteps (construct_and_solve dim idx fuel prm)) ->
  (In ev_write_output_results (events h) <->
   is_output_iteration (simulation_control s) = true) /\
  last (events h)
    = Some (if is_output_iteration (simulation_control s)
            then ev_write_output_results else ev_integrate) /\
  count_calls [ev_integrate] (events h) = 1%nat.
Proof.
  intros Hin.
  destruct (run_timestep_facts dim idx fuel prm s h Hin) as (-> & _).
  unfold events_of. split; [|split].
  - rewrite In_bool_decide, timestep_events_output. reflexivity.
  - apply timestep_events_last.
  - apply timestep_events_integrate.
Qed.

(** ** What the calls of a timestep are made on *)

(** X13.  Every call of a timestep of a run is made on a solver with the
    simulation control the timestep started with, hence at one step
    number, with the parameters and the three frequencies of the run and
    with the four objects selected before the loop. *)
Theorem timestep_calls_at_one_step fuel prm s h :
  In (s, h) (timesteps (construct_and_solve dim idx fuel prm)) ->
  exists o1 o2 o3 o4,
    selected prm o1 o2 o3 o4 /\
    Forall (fun x =>
              simulation_control x.2 = simulation_control s /\
              step_number x.2 = step_number s /\
              parameters x.2 = prm /\
              (contact_detection_frequency x.2, repartition_frequency x.2,
               insertion_frequency x.2) = frequencies_of prm /\
              insertion_object x.2 = Some o1 /\
              integrator_object x.2 = Some o2 /\
              pp_contact_force_object x.2 = Some o3 /\
              pw_contact_force_object x.2 = Some o4) h.
Proof.
  intros Hin.
  destruct (run_timestep_facts dim idx fuel prm s h Hin)
    as (_ & Hall & _ & o1 & o2 & o3 & o4 & Hsel & Hloop & _).
  exists o1, o2, o3, o4. split; [exact Hsel|].
  destruct (in_loop_frequencies _ _ _ _ _ _ Hloop) as (Hd0 & Hr0 & Hi0).
  destruct Hloop as (Hf & H1 & H2 & H3 & H4).
  assert (Hp : parameters s = prm) by (injection Hf; auto).
  eapply Forall_impl; [exact Hall|].
  intros [e s_e] [Hc _]. cbn [snd] in *.
  destruct (control_objects _ _ Hc) as (Ho1 & Ho2 & Ho3 & Ho4).
  destruct (control_frequencies _ _ Hc) as (Hd & Hr & Hi).
  pose proof (control_simulation_control _ _ Hc) as Hsc.
  pose proof (control_parameters _ _ Hc) as Hprm.
  unfold step_number. rewrite Hsc, Hprm, Hd, Hr, Hi, Ho1, Ho2, Ho3, Ho4.
  unfold frequencies_of. rewrite Hd0, Hr0, Hi0.
  repeat split; first [assumption | reflexivity].
Qed.

(** ** An unsupported mesh *)

Lemma read_mesh_unsupported (s : DEMSolver) :
  mesh_event_for (Parameters.type (mesh (parameters s))) = None ->
  read_mesh s = ([], inl (runtime_error unsupported_mesh_error)).
Proof.
  unfold read_mesh, mbind, Exec_bind, gets, throw.
  destruct (Parameters.type (mesh (parameters s))); try discriminate.
  reflexivity.
Qed.

(** X15.  When the constructor has returned and the mesh type is neither
    gmsh nor dealii, the run is aborted by the [std::runtime_error] of
    [read_mesh]: after [print_initial_info] nothing is called, no
    strategy object is made, and there is no timestep. *)
Theorem unsupported_mesh_aborts_run fuel prm s_c :
  DEMSolver_constructor idx prm = inr s_c ->
  mesh_event_for (Parameters.type (mesh prm)) = None ->
  construct_and_solve dim idx fuel prm
    = {| setup_history := [(ev_print_initial_info, s_c)];
         timesteps := [];
         closing_history := [];
         result := Aborted (runtime_error unsupported_mesh_error) |}.
Proof.
  intros Hc Hm. unfold construct_and_solve. rewrite Hc.
  destruct (constructor_returns idx prm s_c Hc) as (Hf & _).
  assert (Hp : parameters s_c = prm) by (injection Hf; auto).
  rewrite <- Hp in Hm.
  assert (Hrun : solve_setup s_c
                 = ([(ev_print_initial_info, s_c)],
                    inl (runtime_error unsupported_mesh_error))).
  { unfold solve_setup.
    rewrite (run_bind (call ev_print_initial_info) _ s_c
               [(ev_print_initial_info, s_c)] tt s_c eq_refl).
    rewrite (run_bind_throw read_mesh _ s_c [] _
               (read_mesh_unsupported s_c Hm)).
    reflexivity. }
  unfold solve, run_result, run_history. rewrite Hrun. reflexivity.
Qed.

End Loop.

(** * Invariants of the calls *)

Section Invariants.

Context {C : Carriers} {E : Collaborators}.

Section KeepRules.

Context {A B : Type} (I : DEMSolver -> Prop).

Lemma keeps_ret (a : A) : keeps I (mret a) (eq a).
Proof. intros s HI. split; [constructor|]. split; [exact HI | reflexivity]. Qed.

Lemma keeps_bind (m : Exec A) (f : A -> Exec B) V W :
  keeps I m V ->
  (forall a, V a -> keeps I (f a) W) ->
  keeps I (m ≫= f) W.
Proof.
  intros Hm Hf s HI. destruct (Hm s HI) as [Hh Hr].
  unfold run_history, run_result in *.
  destruct (m s) as [h [e|[a s1]]] eqn:Hms; cbn [fst snd] in *.
  - rewrite (run_bind_throw m f s h e Hms). auto.
  - destruct Hr as [HI1 HV].
    rewrite (run_bind m f s h a s1 Hms). cbn [fst snd].
    destruct (Hf a HV s1 HI1) as [Hh' Hr']. unfold run_history, run_result in *.
    split; [apply Forall_app; auto | exact Hr'].
Qed.

Lemma keeps_call (e : event) : keeps I (call e) any_value.
Proof.
  intros s HI. split; [repeat constructor; exact HI|].
  split; [exact HI | exact Logic.I].
Qed.

Lemma keeps_gets (f : DEMSolver -> A) :
  keeps I (gets f) (fun a => exists s, I s /\ f s = a).
Proof. intros s HI. split; [constructor|]. split; eauto. Qed.

Lemma keeps_modify (f : DEMSolver -> DEMSolver) :
  (forall s, I s -> I (f s)) -> keeps I (modify f) any_value.
Proof.
  intros Hf s HI. split; [constructor|].
  split; [apply Hf, HI | exact Logic.I].
Qed.

Lemma keeps_throw (e : exception) : keeps I (throw e : Exec A) any_value.
Proof. intros s HI. split; [constructor | exact Logic.I]. Qed.

Lemma keeps_deref (member : DEMSolver -> option A) :
  keeps I (deref member) any_value.
Proof.
  intros s HI. unfold run_history, run_result, deref.
  destruct (member s); (split; [constructor|]);
    [split; [exact HI | exact Logic.I] | exact Logic.I].
Qed.

Lemma keeps_any (m : Exec A) V : keeps I m V -> keeps I m any_value.
Proof.
  intros Hm s HI. destruct (Hm s HI) as [Hh Hr]. split; [exact Hh|].
  destruct (run_result m s) as [e|[a s']]; [exact Logic.I|].
  split; [apply Hr | exact Logic.I].
Qed.

Lemma keeps_if (b : bool) (m1 m2 : Exec A) V1 V2 :
  keeps I m1 V1 -> keeps I m2 V2 ->
  keeps I (if b then m1 else m2) any_value.
Proof. destruct b; intros H1 H2; eapply keeps_any; eassumption. Qed.

End KeepRules.

Lemma keeps_when (I : DEMSolver -> Prop) (b : bool) (m : Exec unit) :
  (b = true -> keeps I m any_value) -> keeps I (when b m) any_value.
Proof.
  unfold when. destruct b; intros Hm.
  - apply Hm. reflexivity.
  - eapply keeps_any. apply keeps_ret.
Qed.

Lemma keeps_for_each {A} (I : DEMSolver -> Prop) (l : list A)
    (body : A -> Exec unit) :
  (forall x, keeps I (body x) any_value) ->
  keeps I (for_each l body) any_value.
Proof.
  intros Hb. induction l as [|x l IH]; cbn [for_each].
  - eapply keeps_any. apply keeps_ret.
  - eapply keeps_bind; [apply Hb | intros _ _; exact IH].
Qed.

End Invariants.

(** One step through a member function for an invariant that none of
    its stores touches. *)
Ltac keep_step :=
  lazymatch goal with
  | |- keeps _ (_ ≫= _) _ => eapply keeps_bind; [|intros ? ?]
  | |- keeps _ (call _) _ => apply keeps_call
  | |- keeps _ (modify _) _ =>
      apply keeps_modify; let HI := fresh "HI" in intros ? HI; exact HI
  | |- keeps _ (gets _) _ => apply keeps_gets
  | |- keeps _ (deref _) _ => apply keeps_deref
  | |- keeps _ (throw _) _ => apply keeps_throw
  | |- keeps _ (mret _) _ =>
      first [apply keeps_ret | eapply keeps_any; apply keeps_ret]
  | |- keeps _ (when _ _) _ => apply keeps_when; intros ?
  | |- keeps _ (if _ then _ else _) _ => eapply keeps_if
  | |- keeps _ (for_each _ _) _ => apply keeps_for_each; intros ?
  | |- keeps _ (match ?x with _ => _ end) _ => destruct x
  | |- keeps _ (make_shared _ _ _) _ => unfold make_shared
  | |- keeps _ (update_grid _) _ => unfold update_grid
  | |- keeps _ (fire _) _ => unfold fire
  | |- keeps _ call_find_cell_neighbors _ => unfold call_find_cell_neighbors
  | |- keeps _ call_find_boundary_cells_information _ =>
      unfold call_find_boundary_cells_information
  | |- keeps _ call_find_particle_point_and_line_contact_cells _ =>
      unfold call_find_particle_point_and_line_contact_cells
  | |- keeps _ read_mesh _ => unfold read_mesh
  | |- keeps _ (set_insertion_type _) _ => unfold set_insertion_type
  | |- keeps _ (set_integrator_type _) _ => unfold set_integrator_type
  | |- keeps _ (set_pp_contact_force _) _ => unfold set_pp_contact_force
  | |- keeps _ (set_pw_contact_force _) _ => unfold set_pw_contact_force
  | |- keeps _ insert_particles _ => unfold insert_particles
  | |- keeps _ (detection_requested _) _ => unfold detection_requested
  | |- keeps _ (particle_wall_broad_search _) _ =>
      unfold particle_wall_broad_search
  | |- keeps _ (particle_wall_fine_search _) _ =>
      unfold particle_wall_fine_search
  | |- keeps _ (particle_wall_contact_force _) _ =>
      unfold particle_wall_contact_force
  | |- keeps _ (triangulation_repartition _) _ =>
      unfold triangulation_repartition
  | |- keeps _ (repartition_block _) _ => unfold repartition_block
  | |- keeps _ write_output_results _ => unfold write_output_results
  | |- keeps _ finish_simulation _ => unfold finish_simulation
  end.

Section Frames.

Context {C : Carriers} {E : Collaborators}.
Variable dim : nat.
Variable idx : PropertiesIndex.
Variable s0 : DEMSolver.

(** The calls before the loop leave the particles, the simulation
    control, the constants and the detection containers alone. *)
Lemma solve_setup_keeps_particle_state :
  keeps (fun s => particle_state s = particle_state s0) solve_setup any_value.
Proof. unfold solve_setup. repeat keep_step. Qed.

(** A timestep leaves the constants alone. *)
Lemma timestep_keeps_constants (g : list float) :
  keeps (fun s => constants s = constants s0) (timestep dim idx g) any_value.
Proof. unfold timestep. repeat keep_step. Qed.

(** A timestep in which no repartition is due leaves the mesh and its
    containers alone. *)
Lemma timestep_keeps_mesh (g : list float) :
  repartition_due s0 = false ->
  keeps (fun s => control s = control s0 /\ mesh_state s = mesh_state s0)
    (timestep dim idx g) any_value.
Proof.
  intros Hnot. unfold timestep.
  eapply keeps_bind; [keep_step | intros _ _].
  eapply keeps_bind; [keep_step | intros due (s & [Hc _] & <-)].
  rewrite (repartition_due_control _ _ Hc), Hnot. cbn [when].
  repeat keep_step.
Qed.

Lemma insert_particles_keeps_candidates :
  keeps (fun s => control s = control s0 /\ candidates s = candidates s0)
    insert_particles (eq (insertion_due s0)).
Proof.
  intros s [Hc Hk]. unfold run_history, run_result.
  rewrite insert_particles_unfold, (insertion_due_control _ _ Hc).
  destruct (insertion_due s0).
  - destruct (insertion_object s); cbn [fst snd].
    + split; [repeat constructor; assumption|].
      split; [split; assumption | reflexivity].
    + split; [repeat constructor; assumption | exact Logic.I].
  - cbn [fst snd]. split; [repeat constructor; assumption|].
    split; [split; assumption | reflexivity].
Qed.

Lemma detection_requested_keeps_candidates (b : bool) :
  keeps (fun s => control s = control s0 /\ candidates s = candidates s0)
    (detection_requested b) (eq (b || detection_due s0)).
Proof.
  intros s [Hc Hk]. unfold run_history, run_result, detection_requested,
    mbind, Exec_bind, gets, mret, Exec_ret. cbn [fst snd app].
  rewrite (detection_due_control _ _ Hc).
  split; [constructor|]. split; [split; assumption | reflexivity].
Qed.

(** A timestep in which neither an insertion nor a detection is due
    leaves the candidate lists alone. *)
Lemma timestep_keeps_candidates (g : list float) :
  insertion_due s0 = false -> detection_due s0 = false ->
  keeps (fun s => control s = control s0 /\ candidates s = candidates s0)
    (timestep dim idx g) any_value.
Proof.
  intros Hins Hdet. unfold timestep.
  repeat first
    [ eapply keeps_bind;
      [ apply insert_particles_keeps_candidates
      | intros ? <-; rewrite Hins ]
    | eapply keeps_bind;
      [ apply detection_requested_keeps_candidates
      | intros ? <-; rewrite Hdet;
        cbv beta iota delta [orb when] ]
    | keep_step ].
Qed.

End Frames.

Section LoopStructure.

Context {C : Carriers} {E : Collaborators}.
Variable dim : nat.
Variable idx : PropertiesIndex.
Variable g : list float.

(** The first timestep of the loop starts from the solver the loop was
    entered with, after one call of [integrate()] that returned true. *)
Lemma timestep_loop_head fuel s x l :
  (timestep_loop dim idx fuel g s).1 = x :: l ->
  (sc_integrate (simulation_control s)).1 = true /\
  x.1 = set_simulation_control (sc_integrate (simulation_control s)).2 s /\
  x.2 = run_history (timestep dim idx g) x.1.
Proof.
  destruct fuel as [|fuel]; [discriminate|]. cbn [timestep_loop].
  destruct (sc_integrate (simulation_control s)).1; [|discriminate].
  destruct (run_result (timestep dim idx g) _) as [e|[u s']];
    cbn [fst]; intros [= <- _]; auto.
Qed.

(** The timestep after another starts from the solver that one ended
    in, after one call of [integrate()]. *)
Lemma timestep_loop_next fuel s x y :
  consecutive (timestep_loop dim idx fuel g s).1 x y ->
  exists s_end,
    run_result (timestep dim idx g) x.1 = inr (tt, s_end) /\
    (sc_integrate (simulation_control s_end)).1 = true /\
    y.1 = set_simulation_control
            (sc_integrate (simulation_control s_end)).2 s_end.
Proof.
  revert s. induction fuel as [|fuel IH]; intros s (l1 & l2 & Hl).
  { destruct l1; discriminate Hl. }
  cbn [timestep_loop] in Hl.
  set (s_a := set_simulation_control _ s) in Hl.
  destruct (sc_integrate (simulation_control s)).1;
    [|destruct l1; discriminate Hl].
  destruct (run_result (timestep dim idx g) s_a) as [e|[[] s']] eqn:Hr;
    cbn [fst] in Hl.
  { destruct l1 as [|? [|? ?]]; discriminate Hl. }
  destruct l1 as [|x1 l1]; cbn [app] in Hl.
  - injection Hl as Hx Hrest. subst x. cbn [fst].
    exists s'. split; [exact Hr|].
    destruct (timestep_loop_head fuel s' y l2 Hrest) as (? & ? & _).
    auto.
  - injection Hl as _ Hrest. apply (IH s'). exists l1, l2. exact Hrest.
Qed.

(** An invariant of the loop body that a store into the simulation
    control keeps holds at the start of every timestep and at every
    call. *)
Lemma timestep_loop_keeps (I : DEMSolver -> Prop) :
  (forall s sc, I s -> I (set_simulation_control sc s)) ->
  keeps I (timestep dim idx g) any_value ->
  forall fuel s, I s ->
    Forall (fun x => I x.1 /\ Forall (fun y => I y.2) x.2)
      (timestep_loop dim idx fuel g s).1.
Proof.
  intros Hsc Hbody. induction fuel as [|fuel IH]; intros s HI; [constructor|].
  cbn [timestep_loop].
  set (s_a := set_simulation_control _ s).
  assert (Ha : I s_a) by apply Hsc, HI.
  destruct (sc_integrate (simulation_control s)).1; [|constructor].
  destruct (Hbody s_a Ha) as [Hh Hr].
  destruct (run_result (timestep dim idx g) s_a) as [e|[u s']]; cbn [fst].
  - repeat constructor; assumption.
  - constructor; [split; assumption|]. apply IH, Hr.
Qed.

End LoopStructure.

Section RunFrames.

Context {C : Carriers} {E : Collaborators}.
Variable dim : nat.
Variable idx : PropertiesIndex.

(** A run has no timestep, or its timesteps are those of the loop
    entered with the solver the calls before the loop have left. *)
Lemma run_enters_loop fuel prm :
  timesteps (construct_and_solve dim idx fuel prm) = [] \/
  exists s_c s1 o1 o2 o3 o4,
    DEMSolver_constructor idx prm = inr s_c /\
    signals (triangulation s_c) = connected_signals /\
    run_result solve_setup s_c = inr (tt, s1) /\
    configured s_c (Some o1) (Some o2) (Some o3) (Some o4) s1 /\
    timesteps (construct_and_solve dim idx fuel prm)
      = (timestep_loop dim idx fuel (body_force dim s1) s1).1.
Proof.
  unfold construct_and_solve.
  destruct (DEMSolver_constructor idx prm) as [e|s_c] eqn:Hc; [auto|].
  destruct (constructor_returns idx prm s_c Hc) as (Hf & _).
  assert (Hp : parameters s_c = prm) by (injection Hf; auto).
  assert (Hsig : signals (triangulation s_c) = connected_signals)
    by (injection Hf; auto).
  unfold solve. pose proof (solve_setup_outcome s_c) as Hsetup.
  destruct (configuration_error (parameters s_c)) as [e|].
  { rewrite Hsetup. auto. }
  destruct Hsetup as (me & o1 & o2 & o3 & o4 & s1 & _ & _ & Hr & _ & Hs1).
  right. exists s_c, s1, o1, o2, o3, o4. rewrite Hr. auto.
Qed.

Lemma constructor_particle_state prm s_c :
  DEMSolver_constructor idx prm = inr s_c ->
  particle_handler s_c
    = {| particles := []; ghost_particles := [];
         n_properties_per_slot := n_properties idx;
         handler_data := empty_handler_data |} /\
  simulation_control s_c
    = make_simulation_control (simulation_control_prm prm) /\
  candidates s_c = ([], [], [], [], []) /\
  contacts s_c = ([], [], [], [], []) /\
  physical_properties s_c = physical_properties_prm prm /\
  neighborhood_threshold s_c
    = std_pow (Parameters.neighborhood_threshold (model_parameters prm)
               * Parameters.diameter (physical_properties_prm prm))%float
        2%float.
Proof.
  unfold DEMSolver_constructor. destruct (double_ne _ 0); [discriminate|].
  intros [= <-]. repeat split.
Qed.

Lemma particle_state_members s s' :
  particle_state s = particle_state s' ->
  particle_handler s = particle_handler s' /\
  simulation_control s = simulation_control s' /\
  constants s = constants s' /\
  candidates s = candidates s' /\
  contacts s = contacts s'.
Proof.
  unfold particle_state. intros Hk. repeat split.
  - exact (f_equal (fun t => t.1.1.1.1.1) Hk).
  - exact (f_equal (fun t => t.1.1.1.1.2) Hk).
  - exact (f_equal (fun t => t.1.1.1.2) Hk).
  - exact (f_equal (fun t => t.1.1.2) Hk).
  - exact (f_equal (fun t => t.1.2) Hk).
Qed.

Lemma setup_particle_state s_c s1 :
  run_result solve_setup s_c = inr (tt, s1) ->
  particle_handler s1 = particle_handler s_c /\
  simulation_control s1 = simulation_control s_c /\
  constants s1 = constants s_c /\
  candidates s1 = candidates s_c /\
  contacts s1 = contacts s_c.
Proof.
  intros Hr. apply particle_state_members.
  destruct (solve_setup_keeps_particle_state s_c s_c eq_refl) as [_ Hk].
  rewrite Hr in Hk. apply Hk.
Qed.

(** ** One call of [integrate()] per timestep *)

Lemma timestep_loop_advances s_c o1 o2 o3 o4 g :
  signals (triangulation s_c) = connected_signals ->
  forall fuel s,
    configured s_c (Some o1) (Some o2) (Some o3) (Some o4) s ->
    advances (simulation_control s) (timestep_loop dim idx fuel g s).1.
Proof.
  intros Hsig. induction fuel as [|fuel IH]; intros s Hs; [exact Logic.I|].
  cbn [timestep_loop].
  set (s_a := set_simulation_control _ s).
  assert (Ha : configured s_c (Some o1) (Some o2) (Some o3) (Some o4) s_a).
  { destruct Hs as (Hf & H1 & H2 & H3 & H4). repeat split; assumption. }
  destruct (sc_integrate (simulation_control s)).1 eqn:Hgo;
    [|exact Logic.I].
  pose proof Ha as (Hf & H1 & H2 & H3 & H4).
  assert (Hconn : signals (triangulation s_a) = connected_signals).
  { unfold fixed in Hf. injection Hf as _ _ _ _ Hsg.
    change (signals (triangulation s) = connected_signals). congruence. }
  destruct (timestep_executes dim idx s_a o1 o2 o3 o4 H1 H2 H3 H4 Hconn g
              s_a (conj eq_refl eq_refl)) as (s2 & Hr & _ & _ & Hc).
  rewrite Hr. cbn [fst advances].
  split; [exact Hgo|]. split; [reflexivity|].
  rewrite <- (control_simulation_control _ _ Hc).
  apply IH, (configured_control _ _ _ _ _ _ _ Hc Ha).
Qed.

(** X16.  The simulation control is made by the constructor from the
    parameters and nothing but the test of the loop advances it: the
    timesteps of a run start one call of [integrate()] after another,
    the first on the simulation control the constructor made. *)
Theorem integrate_once_per_timestep fuel prm :
  advances (make_simulation_control (simulation_control_prm prm))
    (timesteps (construct_and_solve dim idx fuel prm)).
Proof.
  destruct (run_enters_loop fuel prm)
    as [->|(s_c & s1 & o1 & o2 & o3 & o4 & Hc & Hsig & Hr & Hs1 & ->)];
    [exact Logic.I|].
  destruct (constructor_particle_state prm s_c Hc) as (_ & <- & _).
  destruct (setup_particle_state s_c s1 Hr) as (_ & Hsc & _).
  rewrite <- Hsc. eapply timestep_loop_advances; eassumption.
Qed.

(** ** Entering the loop *)

(** X17.  Nothing [solve] calls before the loop inserts a particle or
    fills a container of the contact detection: the first timestep
    starts with the empty particle handler of the constructor and with
    empty candidate lists and contact collections. *)
Theorem loop_entered_without_particles fuel prm s h :
  head (timesteps (construct_and_solve dim idx fuel prm)) = Some (s, h) ->
  particles (particle_handler s) = [] /\
  ghost_particles (particle_handler s) = [] /\
  candidates s = ([], [], [], [], []) /\
  contacts s = ([], [], [], [], []).
Proof.
  destruct (run_enters_loop fuel prm)
    as [->|(s_c & s1 & o1 & o2 & o3 & o4 & Hc & Hsig & Hr & Hs1 & ->)];
    [discriminate|].
  destruct (timestep_loop dim idx fuel (body_force dim s1) s1).1
    as [|x l] eqn:Hl; [discriminate|].
  intros [= ->].
  destruct (timestep_loop_head dim idx _ fuel s1 _ l Hl) as (_ & Hx & _).
  cbn [fst] in Hx. subst s.
  destruct (constructor_particle_state prm s_c Hc)
    as (Hph & _ & Hcand & Hcont & _).
  destruct (setup_particle_state s_c s1 Hr)
    as (Hph1 & _ & _ & Hcand1 & Hcont1).
  change (particles (particle_handler s1) = [] /\
          ghost_particles (particle_handler s1) = [] /\
          candidates s1 = ([], [], [], [], []) /\
          contacts s1 = ([], [], [], [], [])).
  rewrite Hph1, Hcand1, Hcont1, Hph. auto.
Qed.

End RunFrames.

Section Between.

Context {C : Carriers} {E : Collaborators}.
Variable dim : nat.
Variable idx : PropertiesIndex.

(** What a timestep keeps of the solver [s] it starts from, when [s]
    satisfies [due], holds at every call of the timestep and at the
    start of the next one. *)
Lemma run_timestep_keeps (I J : DEMSolver -> DEMSolver -> Prop)
    (due : DEMSolver -> Prop) fuel prm s h :
  (forall g, due s -> keeps (I s) (timestep dim idx g) any_value) ->
  I s s ->
  (forall x, I s x -> J s x) ->
  (forall x sc, J s x -> J s (set_simulation_control sc x)) ->
  In (s, h) (timesteps (construct_and_solve dim idx fuel prm)) ->
  due s ->
  Forall (fun x => J s x.2) h /\
  (forall y,
     consecutive (timesteps (construct_and_solve dim idx fuel prm)) (s, h) y ->
     J s y.1).
Proof.
  intros Hbody Hrefl HIJ Hsc Hin Hdue.
  destruct (run_enters_loop dim idx fuel prm)
    as [Hl|(s_c & s1 & o1 & o2 & o3 & o4 & Hc & Hsig & Hr & Hs1 & Hl)];
    rewrite Hl in *; [destruct Hin|].
  destruct (timestep_loop_steps dim idx s_c o1 o2 o3 o4 _ Hsig fuel s1 Hs1
              s h Hin) as [_ ->].
  destruct (Hbody (body_force dim s1) Hdue s Hrefl) as [Hh Hres].
  split.
  { eapply Forall_impl; [exact Hh|]. intros x. apply HIJ. }
  intros y Hy.
  destruct (timestep_loop_next dim idx _ fuel s1 _ y Hy)
    as (s_end & Hend & _ & ->).
  cbn [fst] in Hend. rewrite Hend in Hres. apply Hsc, HIJ, Hres.
Qed.

(** ** The mesh between repartitions *)

(** X18.  In a timestep of a run that does not repartition, every call
    finds the mesh and the six containers computed from it as they were
    when the timestep started, and so does the next timestep. *)
Theorem mesh_kept_without_repartition fuel prm s h :
  In (s, h) (timesteps (construct_and_solve dim idx fuel prm)) ->
  ~ In ev_repartition (events h) ->
  Forall (fun x => mesh_state x.2 = mesh_state s) h /\
  (forall y,
     consecutive (timesteps (construct_and_solve dim idx fuel prm)) (s, h) y ->
     mesh_state y.1 = mesh_state s).
Proof.
  intros Hin Hnot.
  assert (Hdue : repartition_due s = false).
  { destruct (run_timestep_facts dim idx fuel prm s h Hin) as (He & _).
    rewrite He in Hnot. unfold events_of in Hnot.
    rewrite In_bool_decide, timestep_events_repartition in Hnot.
    apply not_true_is_false, Hnot. }
  apply (run_timestep_keeps
           (fun s x => control x = control s /\ mesh_state x = mesh_state s)
           (fun s x => mesh_state x = mesh_state s)
           (fun s => repartition_due s = false)); auto.
  - intros g. apply timestep_keeps_mesh.
  - tauto.
Qed.

(** ** The candidate lists between detections *)

(** X19.  In a timestep of a run without a contact detection, every call
    finds the five candidate lists as they were when the timestep
    started, and so does the next timestep. *)
Theorem candidates_kept_without_detection fuel prm s h :
  In (s, h) (timesteps (construct_and_solve dim idx fuel prm)) ->
  ~ In ev_find_PP_Contact_Pairs (events h) ->
  Forall (fun x => candidates x.2 = candidates s) h /\
  (forall y,
     consecutive (timesteps (construct_and_solve dim idx fuel prm)) (s, h) y ->
     candidates y.1 = candidates s).
Proof.
  intros Hin Hnot.
  assert (Hdue : insertion_due s = false /\ detection_due s = false).
  { destruct (run_timestep_facts dim idx fuel prm s h Hin) as (He & _).
    rewrite He in Hnot. unfold events_of in Hnot.
    rewrite In_bool_decide, (timestep_events_search dim _ _ _ _ _)
      in Hnot by (simpl; tauto).
    apply not_true_is_false, orb_false_iff in Hnot. exact Hnot. }
  apply (run_timestep_keeps
           (fun s x => control x = control s /\ candidates x = candidates s)
           (fun s x => candidates x = candidates s)
           (fun s => insertion_due s = false /\ detection_due s = false));
    auto.
  - intros g [Hi Hd]. apply timestep_keeps_candidates; assumption.
  - tauto.
Qed.

(** ** The constants of a run *)

(** X20.  Nothing [solve] calls writes the physical properties or the
    neighborhood threshold: every call of every timestep of a run finds
    the physical properties of the parameters and the square of the
    product of their neighborhood threshold and particle diameter, as
    the constructor computed it. *)
Theorem constants_of_a_run fuel prm s h :
  In (s, h) (timesteps (construct_and_solve dim idx fuel prm)) ->
  Forall (fun x =>
            physical_properties x.2 = physical_properties_prm prm /\
            neighborhood_threshold x.2
              = std_pow
                  (Parameters.neighborhood_threshold (model_parameters prm)
                   * Parameters.diameter (physical_properties_prm prm))%float
                  2%float) h.
Proof.
  intros Hin.
  destruct (run_enters_loop dim idx fuel prm)
    as [Hl|(s_c & s1 & o1 & o2 & o3 & o4 & Hc & Hsig & Hr & Hs1 & Hl)];
    rewrite Hl in *; [destruct Hin|].
  destruct (constructor_particle_state idx prm s_c Hc)
    as (_ & _ & _ & _ & Hphys & Hthr).
  destruct (setup_particle_state s_c s1 Hr) as (_ & _ & Hk & _).
  pose proof (timestep_loop_keeps dim idx (body_force dim s1)
                (fun s => constants s = constants s_c)
                (fun s sc HI => HI)
                (timestep_keeps_constants dim idx s_c _) fuel s1 Hk) as Hall.
  rewrite List.Forall_forall in Hall.
  destruct (Hall _ Hin) as [_ Hh]. cbn [snd] in Hh.
  eapply Forall_impl; [exact Hh|].
  intros x Hx. unfold constants in Hx.
  rewrite <- Hthr, <- Hphys.
  split; [exact (f_equal (fun t => t.1.1) Hx)
         | exact (f_equal (fun t => t.1.2) Hx)].
Qed.

End Between.

Section MeshSetup.

Context {C : Carriers} {E : Collaborators}.
Variable dim : nat.
Variable idx : PropertiesIndex.

Lemma solve_setup_keeps_mesh s0 :
  keeps (fun s => parameters s = parameters s0 /\ mesh_state s = mesh_state s0)
    (prm ← gets parameters;
     o ← set_insertion_type prm;
     modify (set_insertion_object o);;
     o ← set_integrator_type prm;
     modify (set_integrator_object o);;
     o ← set_pp_contact_force prm;
     modify (set_pp_contact_force_object o);;
     o ← set_pw_contact_force prm;
     modify (set_pw_contact_force_object o)) any_value.
Proof. repeat keep_step. Qed.

Lemma mesh_state_members s g l gh f ln p i :
  mesh_state s = (g, (l, gh), (f, ln, p, i)) ->
  grid (triangulation s) = g /\
  cells_local_neighbor_list s = l /\ cells_ghost_neighbor_list s = gh /\
  boundary_cells_with_faces s = f /\ boundary_cells_with_lines s = ln /\
  boundary_cells_with_points s = p /\ boundary_cells_information s = i.
Proof. unfold mesh_state. intros [= -> -> -> -> -> -> ->]. auto 10. Qed.

Lemma read_mesh_result s g :
  mesh_read (mesh (parameters s)) (grid (triangulation s)) = Some g ->
  exists h s',
    read_mesh s = (h, inr (tt, s')) /\
    mesh_state s'
      = (g, (cells_local_neighbor_list s, cells_ghost_neighbor_list s),
         (boundary_cells_with_faces s, boundary_cells_with_lines s,
          boundary_cells_with_points s, boundary_cells_information s)).
Proof.
  unfold mesh_read, read_mesh, update_grid, mbind, Exec_bind, gets, call,
    modify, throw.
  destruct s as [prm [g0 sg] ?]. cbn [parameters triangulation grid].
  destruct (Parameters.type (mesh prm)); intros [= <-];
    eexists _, _; split; reflexivity.
Qed.

Lemma call_find_cell_neighbors_result s :
  exists s',
    call_find_cell_neighbors s
      = ([(ev_find_cell_neighbors, s)], inr (tt, s')) /\
    mesh_state s'
      = (grid (triangulation s),
         ((find_cell_neighbors (grid (triangulation s))
             (cells_local_neighbor_list s) (cells_ghost_neighbor_list s)).1,
          (find_cell_neighbors (grid (triangulation s))
             (cells_local_neighbor_list s) (cells_ghost_neighbor_list s)).2),
         (boundary_cells_with_faces s, boundary_cells_with_lines s,
          boundary_cells_with_points s, boundary_cells_information s)).
Proof. eexists. split; reflexivity. Qed.

Lemma call_find_boundary_cells_information_result s :
  exists s',
    call_find_boundary_cells_information s
      = ([(ev_find_boundary_cells_information, s)], inr (tt, s')) /\
    mesh_state s'
      = (grid (triangulation s),
         (cells_local_neighbor_list s, cells_ghost_neighbor_list s),
         ((find_boundary_cells_information (boundary_cells_with_faces s)
             (grid (triangulation s))).2,
          boundary_cells_with_lines s, boundary_cells_with_points s,
          (find_boundary_cells_information (boundary_cells_with_faces s)
             (grid (triangulation s))).1)).
Proof. eexists. split; reflexivity. Qed.

Lemma call_find_particle_point_and_line_contact_cells_result s :
  exists s',
    call_find_particle_point_and_line_contact_cells s
      = ([(ev_find_particle_point_and_line_contact_cells, s)],
         inr (tt, s')) /\
    parameters s' = parameters s /\
    mesh_state s'
      = (grid (triangulation s),
         (cells_local_neighbor_list s, cells_ghost_neighbor_list s),
         (boundary_cells_with_faces s,
          (find_particle_point_and_line_contact_cells
             (boundary_cells_with_faces s) (grid (triangulation s))
             (boundary_cells_with_lines s) (boundary_cells_with_points s)).1,
          (find_particle_point_and_line_contact_cells
             (boundary_cells_with_faces s) (grid (triangulation s))
             (boundary_cells_with_lines s) (boundary_cells_with_points s)).2,
          boundary_cells_information s)).
Proof. eexists. repeat split. Qed.

Lemma run_bind_result {A B} (m : Exec A) (f : A -> Exec B) s h a s' :
  m s = (h, inr (a, s')) -> run_result (m ≫= f) s = run_result (f a) s'.
Proof. intros Hm. unfold run_result. rewrite (run_bind m f s h a s' Hm). reflexivity. Qed.

(** The calls before the loop, run on a solver whose mesh containers are
    empty, leave the mesh [read_mesh] has made and the containers
    computed from it. *)
Lemma solve_setup_mesh s s1 :
  cells_local_neighbor_list s = [] -> cells_ghost_neighbor_list s = [] ->
  boundary_cells_with_faces s = [] -> boundary_cells_with_lines s = [] ->
  boundary_cells_with_points s = [] ->
  run_result solve_setup s = inr (tt, s1) ->
  exists g,
    mesh_read (mesh (parameters s)) (grid (triangulation s)) = Some g /\
    mesh_state s1 = mesh_containers g.
Proof.
  intros Hl Hg Hf Hln Hp. unfold solve_setup.
  rewrite (run_bind_result (call ev_print_initial_info) _ s
             [(ev_print_initial_info, s)] tt s eq_refl).
  destruct (mesh_read (mesh (parameters s)) (grid (triangulation s)))
    as [g|] eqn:Hm.
  2:{ unfold run_result.
      rewrite (run_bind_throw read_mesh _ s []
                 (runtime_error unsupported_mesh_error)); [discriminate|].
      apply read_mesh_unsupported. revert Hm. unfold mesh_read.
      destruct (Parameters.type (mesh (parameters s))); try discriminate.
      reflexivity. }
  destruct (read_mesh_result s g Hm) as (h & s_m & Hr & Hs).
  rewrite (run_bind_result read_mesh _ s h tt _ Hr).
  rewrite Hl, Hg, Hf, Hln, Hp in Hs.
  apply mesh_state_members in Hs as (Hg0 & Hl0 & Hgh0 & Hf0 & Hln0 & Hp0 & _).
  clear Hr.
  destruct (call_find_cell_neighbors_result s_m) as (s_n & Hr & Hs).
  rewrite (run_bind_result _ _ s_m _ tt _ Hr).
  rewrite Hg0, Hl0, Hgh0, Hf0, Hln0, Hp0 in Hs.
  apply mesh_state_members in Hs as (Hg1 & Hl1 & Hgh1 & Hf1 & Hln1 & Hp1 & _).
  clear Hr.
  destruct (call_find_boundary_cells_information_result s_n)
    as (s_b & Hr & Hs).
  rewrite (run_bind_result _ _ s_n _ tt _ Hr).
  rewrite Hg1, Hl1, Hgh1, Hf1, Hln1, Hp1 in Hs.
  apply mesh_state_members in Hs
    as (Hg2 & Hl2 & Hgh2 & Hf2 & Hln2 & Hp2 & Hi2).
  clear Hr.
  destruct (call_find_particle_point_and_line_contact_cells_result s_b)
    as (s_p & Hr & _ & Hs).
  rewrite (run_bind_result _ _ s_b _ tt _ Hr).
  rewrite Hg2, Hl2, Hgh2, Hf2, Hln2, Hp2, Hi2 in Hs.
  intros Hrest. exists g. split; [reflexivity|].
  destruct (solve_setup_keeps_mesh s_p s_p (conj eq_refl eq_refl)) as [_ Hk].
  rewrite Hrest in Hk. destruct Hk as [[_ ->] _].
  exact Hs.
Qed.

(** X21.  When a run enters the loop, its mesh type is gmsh or dealii,
    and the first timestep starts with the mesh [read_mesh] has made of
    the empty triangulation, read or generated and then refined, and
    with the six containers as the three calls before the loop computed
    them from this mesh and from empty containers. *)
Theorem loop_entered_with_mesh_containers fuel prm s h :
  head (timesteps (construct_and_solve dim idx fuel prm)) = Some (s, h) ->
  exists g,
    mesh_read (mesh prm) empty_grid = Some g /\
    mesh_state s = mesh_containers g.
Proof.
  destruct (run_enters_loop dim idx fuel prm)
    as [->|(s_c & s1 & o1 & o2 & o3 & o4 & Hc & Hsig & Hr & Hs1 & ->)];
    [discriminate|].
  destruct (timestep_loop dim idx fuel (body_force dim s1) s1).1
    as [|x l] eqn:Hl; [discriminate|].
  intros [= ->].
  destruct (timestep_loop_head dim idx _ fuel s1 _ l Hl) as (_ & Hx & _).
  cbn [fst] in Hx. subst s.
  change (exists g, mesh_read (mesh prm) empty_grid = Some g /\
                    mesh_state s1 = mesh_containers g).
  assert (Hnew : s_c = s_c) by reflexivity.
  revert Hc. unfold DEMSolver_constructor.
  destruct (double_ne _ 0); [discriminate|]. intros [= Hc].
  destruct (solve_setup_mesh s_c s1) as (g & Hg & Hm);
    try (subst s_c; reflexivity); [exact Hr|].
  exists g. split; [|exact Hm]. subst s_c. exact Hg.
Qed.

End MeshSetup.

(** * The calls applied

    The history of a timestep is the trace of its calls: each call is
    made on the solver in which the store that follows the call before
    it has been made. *)

Section Applied.

Context {C : Carriers} {E : Collaborators}.
Variable dim : nat.
Variable idx : PropertiesIndex.
Variable g : list float.

Lemma trace_app evs1 evs2 s :
  trace dim idx g (evs1 ++ evs2) s
  = trace dim idx g evs1 s
    ++ trace dim idx g evs2 (run_effects dim idx g evs1 s).
Proof.
  revert s. induction evs1 as [|e evs1 IH]; intros s; [reflexivity|].
  cbn [app trace]. rewrite IH. reflexivity.
Qed.

Lemma run_effects_app evs1 evs2 s :
  run_effects dim idx g (evs1 ++ evs2) s
  = run_effects dim idx g evs2 (run_effects dim idx g evs1 s).
Proof. apply foldl_app. Qed.

Lemma trace_events evs s : events (trace dim idx g evs s) = evs.
Proof.
  revert s. induction evs as [|e evs IH]; intros s; [reflexivity|].
  cbn [trace]. unfold events in *. cbn [fmap list_fmap fst].
  f_equal. apply IH.
Qed.

Lemma effect_control e s : control (effect dim idx g e s) = control s.
Proof.
  destruct e as [| | | | | | | | | | | | | | | |c| | | | | | | | | | | | |
                 | | | | | | | | | | | | |];
    try reflexivity.
  - destruct c; reflexivity.
  - cbn [effect]. destruct (insertion_object s); reflexivity.
  - cbn [effect]. destruct (pp_contact_force_object s); reflexivity.
  - cbn [effect]. destruct (pw_contact_force_object s); reflexivity.
  - cbn [effect]. destruct (integrator_object s); reflexivity.
Qed.

Lemma run_effects_control evs s :
  control (run_effects dim idx g evs s) = control s.
Proof.
  revert s. induction evs as [|e evs IH]; intros s; [reflexivity|].
  cbn [run_effects foldl]. unfold run_effects in IH.
  rewrite IH. apply effect_control.
Qed.

Lemma trace_split evs s h1 e s_e h2 :
  trace dim idx g evs s = h1 ++ (e, s_e) :: h2 ->
  evs = events h1 ++ e :: events h2 /\
  s_e = run_effects dim idx g (events h1) s /\
  h2 = trace dim idx g (events h2) (effect dim idx g e s_e).
Proof.
  revert evs s. induction h1 as [|x h1 IH]; intros evs s Hh.
  - destruct evs as [|e' evs]; [discriminate|].
    cbn [trace app] in Hh. injection Hh as He Hs Hh2. subst e' s_e.
    subst h2. rewrite trace_events. auto.
  - destruct evs as [|e' evs]; [discriminate|].
    cbn [trace app] in Hh. injection Hh as Hx Hh. subst x.
    destruct (IH _ _ Hh) as (He & Hs & Hh2).
    cbn [events fmap list_fmap fst app]. rewrite He at 1.
    repeat split; assumption.
Qed.

(** A call of a history that is a trace and is not its last call is
    applied. *)
Lemma trace_applied evs s e :
  (forall evs1, evs <> evs1 ++ [e]) ->
  applied dim idx g (trace dim idx g evs s) e.
Proof.
  intros Hlast h1 s_e h2 Hh.
  destruct (trace_split _ _ _ _ _ _ Hh) as (Hev & _ & Hh2).
  destruct h2 as [|x h3]; [destruct (Hlast _ Hev)|].
  exists x, h3. split; [reflexivity|].
  destruct x as [e2 s2]. cbn [events fmap list_fmap fst trace] in Hh2.
  injection Hh2 as Hs _. exact Hs.
Qed.

Section TraceRules.

Context {A B : Type}.
Variable s0 : DEMSolver.

Lemma traces_ret (a : A) : traces dim idx g s0 (mret a) [] a.
Proof. intros s _. reflexivity. Qed.

Lemma traces_bind (m : Exec A) (f : A -> Exec B) e1 e2 a b :
  traces dim idx g s0 m e1 a ->
  traces dim idx g s0 (f a) e2 b ->
  traces dim idx g s0 (m ≫= f) (e1 ++ e2) b.
Proof.
  intros Hm Hf s Hc.
  rewrite (run_bind m f s _ a _ (Hm s Hc)).
  rewrite (Hf _ (eq_trans (run_effects_control e1 s) Hc)).
  cbn [fst snd]. rewrite trace_app, run_effects_app. reflexivity.
Qed.

Lemma traces_gets (f : DEMSolver -> A) (a : A) :
  (forall s, control s = control s0 -> f s = a) ->
  traces dim idx g s0 (gets f) [] a.
Proof. intros Hf s Hc. unfold gets. rewrite (Hf s Hc). reflexivity. Qed.

Lemma traces_deref (member : DEMSolver -> option A) (o : A) :
  (forall s, control s = control s0 -> member s = Some o) ->
  traces dim idx g s0 (deref member) [] o.
Proof. intros Hm s Hc. unfold deref. rewrite (Hm s Hc). reflexivity. Qed.

Lemma traces_if (b : bool) (m1 m2 : Exec A) e1 e2 a1 a2 :
  traces dim idx g s0 m1 e1 a1 ->
  traces dim idx g s0 m2 e2 a2 ->
  traces dim idx g s0 (if b then m1 else m2) (if b then e1 else e2)
    (if b then a1 else a2).
Proof. destruct b; auto. Qed.

Lemma traces_value (m : Exec A) evs a a' :
  traces dim idx g s0 m evs a -> a = a' -> traces dim idx g s0 m evs a'.
Proof. intros Hm <-. exact Hm. Qed.

Lemma traces_events (m : Exec A) evs evs' a :
  traces dim idx g s0 m evs a -> evs = evs' -> traces dim idx g s0 m evs' a.
Proof. intros Hm <-. exact Hm. Qed.

End TraceRules.

Section CallRules.

Variable s0 : DEMSolver.

(** A call that leaves the solver as it is. *)
Lemma traces_call (e : event) :
  (forall s, effect dim idx g e s = s) ->
  traces dim idx g s0 (call e) [e] tt.
Proof.
  intros He s _. unfold call, run_effects. cbn [trace foldl]. rewrite He.
  reflexivity.
Qed.

(** A call and the store of what it returns. *)
Lemma traces_call_modify (e : event) (f : DEMSolver -> DEMSolver) :
  (forall s, control s = control s0 -> f s = effect dim idx g e s) ->
  traces dim idx g s0 (call e;; modify f) [e] tt.
Proof.
  intros Hf s Hc. unfold mbind, Exec_bind, call, modify, run_effects.
  cbn [trace foldl app]. rewrite (Hf s Hc). reflexivity.
Qed.

Lemma traces_call_modify_bind {B} (e : event) (f : DEMSolver -> DEMSolver)
    (k : Exec B) evs b :
  (forall s, control s = control s0 -> f s = effect dim idx g e s) ->
  traces dim idx g s0 k evs b ->
  traces dim idx g s0 (call e;; modify f;; k) (e :: evs) b.
Proof.
  intros Hf Hk s Hc.
  assert (Hc' : control (effect dim idx g e s) = control s0)
    by (rewrite effect_control; exact Hc).
  unfold mbind, Exec_bind, call, modify, run_effects.
  cbn [trace foldl app]. rewrite (Hf s Hc), (Hk _ Hc'). reflexivity.
Qed.

Lemma traces_when (b : bool) (m : Exec unit) evs :
  traces dim idx g s0 m evs tt ->
  traces dim idx g s0 (when b m) (if b then evs else []) tt.
Proof. unfold when. destruct b; [auto | intros _; apply traces_ret]. Qed.

End CallRules.

End Applied.

(** ** The trace of a timestep *)

Section TimestepTrace.

Context {C : Carriers} {E : Collaborators}.
Variable dim : nat.
Variable idx : PropertiesIndex.
Variable g : list float.

(** The solver at the start of the timestep, with its strategy objects
    set and the callbacks connected. *)
Variable s0 : DEMSolver.
Variable insertion0 : Insertion.
Variable integrator0 : Integrator.
Variable pp_force0 : PPContactForce.
Variable pw_force0 : PWContactForce.
Hypothesis insertion_set : insertion_object s0 = Some insertion0.
Hypothesis integrator_set : integrator_object s0 = Some integrator0.
Hypothesis pp_force_set : pp_contact_force_object s0 = Some pp_force0.
Hypothesis pw_force_set : pw_contact_force_object s0 = Some pw_force0.
Hypothesis callbacks_connected :
  signals (triangulation s0) = connected_signals.

Ltac read_control Hc :=
  first
    [ apply repartition_due_control; exact Hc
    | apply insertion_due_control; exact Hc
    | apply detection_due_control; exact Hc
    | rewrite (control_signals _ _ Hc), callbacks_connected; reflexivity
    | rewrite (control_simulation_control _ _ Hc); reflexivity
    | rewrite (control_parameters _ _ Hc); reflexivity ].

Ltac read_object Hc :=
  destruct (control_objects _ _ Hc) as (Ho1 & Ho2 & Ho3 & Ho4);
  first
    [ rewrite Ho1; exact insertion_set
    | rewrite Ho2; exact integrator_set
    | rewrite Ho3; exact pp_force_set
    | rewrite Ho4; exact pw_force_set ].

(** The store that follows a call is the effect of the call. *)
Ltac store_is_effect :=
  let s := fresh "s" in
  let Hc := fresh "Hc" in
  intros s Hc; cbn [effect];
  first
    [ reflexivity
    | destruct (control_objects _ _ Hc) as (Ho1 & Ho2 & Ho3 & Ho4);
      rewrite ?Ho1, ?Ho2, ?Ho3, ?Ho4,
        ?insertion_set, ?integrator_set, ?pp_force_set, ?pw_force_set;
      reflexivity ].

Ltac trace_step :=
  lazymatch goal with
  | |- traces _ _ _ _ (call _ ≫= fun _ => modify _ ≫= _) _ _ =>
      eapply traces_call_modify_bind; [store_is_effect|]
  | |- traces _ _ _ _ (call _ ≫= fun _ => modify _) _ _ =>
      eapply traces_call_modify; store_is_effect
  | |- traces _ _ _ _ (_ ≫= _) _ _ => eapply traces_bind
  | |- traces _ _ _ _ (call _) _ _ =>
      apply traces_call; intros ?; reflexivity
  | |- traces _ _ _ _ (gets _) _ _ =>
      eapply traces_gets; intros ? Hc; cbv beta; read_control Hc
  | |- traces _ _ _ _ (deref _) _ _ =>
      eapply traces_deref; intros ? Hc; read_object Hc
  | |- traces _ _ _ _ (for_each _ _) _ _ =>
      progress
        cbn [for_each pre_distributed_repartition
             post_distributed_repartition connected_signals fire]
  | |- traces _ _ _ _ (mret _) _ _ => apply traces_ret
  | |- traces _ _ _ _ (when _ _) _ _ => eapply traces_when
  | |- traces _ _ _ _ (if _ then _ else _) _ _ => eapply traces_if
  end.

Lemma repartition_block_traces :
  traces dim idx g s0 (repartition_block dim) repartition_events tt.
Proof.
  unfold repartition_block, triangulation_repartition,
    call_find_cell_neighbors, call_find_boundary_cells_information,
    call_find_particle_point_and_line_contact_cells.
  eapply traces_events; [repeat trace_step | reflexivity].
Qed.

Lemma insert_particles_traces :
  traces dim idx g s0 insert_particles
    ([ev_insert_particles] ++ (if insertion_due s0 then [ev_insert] else []))
    (insertion_due s0).
Proof.
  unfold insert_particles.
  eapply traces_value; [eapply traces_events|]; [repeat trace_step | ..].
  - destruct (insertion_due s0); reflexivity.
  - destruct (insertion_due s0); reflexivity.
Qed.

Lemma detection_requested_traces (b : bool) :
  traces dim idx g s0 (detection_requested b) [] (b || detection_due s0).
Proof.
  unfold detection_requested.
  eapply traces_events; [repeat trace_step | reflexivity].
Qed.

Lemma particle_wall_broad_search_traces :
  traces dim idx g s0 (particle_wall_broad_search dim)
    (wall_broad_events dim) tt.
Proof.
  unfold particle_wall_broad_search.
  eapply traces_events; [repeat trace_step | reflexivity].
Qed.

Lemma particle_wall_fine_search_traces :
  traces dim idx g s0 (particle_wall_fine_search dim)
    (wall_fine_events dim) tt.
Proof.
  unfold particle_wall_fine_search.
  eapply traces_events; [repeat trace_step | reflexivity].
Qed.

Lemma particle_wall_contact_force_traces :
  traces dim idx g s0 (particle_wall_contact_force dim)
    (wall_force_events dim) tt.
Proof.
  unfold particle_wall_contact_force.
  eapply traces_events; [repeat trace_step | reflexivity].
Qed.

Ltac member_trace :=
  lazymatch goal with
  | |- traces _ _ _ _ (repartition_block _) _ _ =>
      apply repartition_block_traces
  | |- traces _ _ _ _ insert_particles _ _ =>
      apply insert_particles_traces
  | |- traces _ _ _ _ (detection_requested _) _ _ =>
      apply detection_requested_traces
  | |- traces _ _ _ _ (particle_wall_broad_search _) _ _ =>
      apply particle_wall_broad_search_traces
  | |- traces _ _ _ _ (particle_wall_fine_search _) _ _ =>
      apply particle_wall_fine_search_traces
  | |- traces _ _ _ _ (particle_wall_contact_force _) _ _ =>
      apply particle_wall_contact_force_traces
  | |- traces _ _ _ _ write_output_results _ _ =>
      unfold write_output_results
  end.

(** Every call of a timestep is made on the solver the calls before it
    have left, each by the store that follows it in the code. *)
Lemma timestep_traces :
  traces dim idx g s0 (timestep dim idx g) (events_of dim s0) tt.
Proof.
  unfold timestep.
  eapply traces_events.
  - repeat first [member_trace | trace_step].
  - unfold events_of, timestep_events, wall_broad_events, wall_fine_events,
      wall_force_events.
    destruct (repartition_due s0), (insertion_due s0), (detection_due s0),
      (is_output_iteration (simulation_control s0)), (dim =? 3)%nat;
      reflexivity.
Qed.

Lemma timestep_history_trace :
  run_history (timestep dim idx g) s0
    = trace dim idx g (events_of dim s0) s0.
Proof.
  unfold run_history. rewrite (timestep_traces s0 eq_refl). reflexivity.
Qed.

End TimestepTrace.

(** ** The traces of a run *)

Section RunTraces.

Context {C : Carriers} {E : Collaborators}.
Variable dim : nat.
Variable idx : PropertiesIndex.

Lemma body_force_constants s s' :
  constants s = constants s' -> body_force dim s = body_force dim s'.
Proof.
  intros Hk. unfold body_force.
  rewrite (f_equal (fun t => t.1.1) Hk : physical_properties s = _).
  reflexivity.
Qed.

(** The history of every timestep of a run is the trace of its calls:
    each call is made on the solver the stores of the calls before it
    have left, the first on the solver the timestep started from.  The
    body force is that of the solver. *)
Lemma run_timestep_trace fuel prm s h :
  In (s, h) (timesteps (construct_and_solve dim idx fuel prm)) ->
  h = trace dim idx (body_force dim s) (events_of dim s) s.
Proof.
  intros Hin.
  destruct (run_enters_loop dim idx fuel prm)
    as [Hl|(s_c & s1 & o1 & o2 & o3 & o4 & Hc & Hsig & Hr & Hs1 & Hl)];
    rewrite Hl in *; [destruct Hin|].
  destruct (timestep_loop_steps dim idx s_c o1 o2 o3 o4 _ Hsig fuel s1 Hs1
              s h Hin) as [(Hf & H1 & H2 & H3 & H4) ->].
  pose proof (timestep_loop_keeps dim idx (body_force dim s1)
                (fun s => constants s = constants s1)
                (fun s sc HI => HI)
                (timestep_keeps_constants dim idx s1 _) fuel s1 eq_refl)
    as Hall.
  rewrite List.Forall_forall in Hall.
  destruct (Hall _ Hin) as [Hk _]. cbn [fst] in Hk.
  rewrite (body_force_constants _ _ Hk).
  assert (Hconn : signals (triangulation s) = connected_signals).
  { unfold fixed in Hf. injection Hf as _ _ _ _ Hsg. congruence. }
  exact (timestep_history_trace dim idx _ s o1 o2 o3 o4 H1 H2 H3 H4 Hconn).
Qed.

End RunTraces.

(** * The searches and the forces of a timestep *)

Section AppliedCalls.

Context {C : Carriers} {E : Collaborators}.
Variable dim : nat.
Variable idx : PropertiesIndex.

(** An entry of a trace is made on the solver the calls before it have
    left. *)
Lemma trace_In g evs s e s_e :
  In (e, s_e) (trace dim idx g evs s) ->
  exists evs1 evs2,
    evs = evs1 ++ e :: evs2 /\ s_e = run_effects dim idx g evs1 s.
Proof.
  intros Hin. apply in_split in Hin as (h1 & h2 & Hh).
  destruct (trace_split dim idx g _ _ _ _ _ _ Hh) as (Hev & Hs & _).
  eauto.
Qed.

Lemma In_trace g evs1 e evs2 s :
  In (e, run_effects dim idx g evs1 s)
    (trace dim idx g (evs1 ++ e :: evs2) s).
Proof. rewrite trace_app. apply in_or_app. right. left. reflexivity. Qed.

(** A list with one occurrence of [e] splits around [e] in one way. *)
Lemma split_once {A} (e : A) (l1 l2 l1' l2' : list A) :
  l1 ++ e :: l2 = l1' ++ e :: l2' ->
  ~ In e l1 -> ~ In e l2 -> l1' = l1 /\ l2' = l2.
Proof.
  revert l1'. induction l1 as [|a l1 IH]; intros l1' Hl H1 H2.
  - destruct l1' as [|x l1']; cbn [app] in Hl.
    + injection Hl as ->. auto.
    + injection Hl as <- ->. destruct H2. apply in_or_app. right. left.
      reflexivity.
  - destruct l1' as [|x l1']; cbn [app] in Hl.
    + injection Hl as -> _. destruct H1. left. reflexivity.
    + injection Hl as <- Hl.
      destruct (IH l1' Hl) as [-> ->]; [intros ?; apply H1; right; auto
                                       | exact H2 |].
      auto.
Qed.

(** The solver on which the one call of [e] in a trace is made. *)
Lemma trace_at g evs1 e evs2 s s_e :
  ~ In e evs1 -> ~ In e evs2 ->
  In (e, s_e) (trace dim idx g (evs1 ++ e :: evs2) s) ->
  s_e = run_effects dim idx g evs1 s.
Proof.
  intros H1 H2 Hin.
  destruct (trace_In _ _ _ _ _ Hin) as (l1 & l2 & Hev & ->).
  destruct (split_once _ _ _ _ _ Hev H1 H2) as [-> _]. reflexivity.
Qed.

(** In a timestep of a run every call but the last is applied: the
    next call is made on the solver its store has left. *)
Lemma run_timestep_applied fuel prm s h e :
  In (s, h) (timesteps (construct_and_solve dim idx fuel prm)) ->
  e <> ev_integrate -> e <> ev_write_output_results ->
  applied dim idx (body_force dim s) h e.
Proof.
  intros Hin Hi Hw. rewrite (run_timestep_trace dim idx fuel prm s h Hin).
  apply trace_applied. intros evs1 Hev.
  pose proof (timestep_events_last dim (repartition_due s) (insertion_due s)
                (detection_due s)
                (is_output_iteration (simulation_control s))) as Hlast.
  fold (events_of dim s) in Hlast. rewrite Hev, last_snoc in Hlast.
  injection Hlast as ->.
  destruct (is_output_iteration (simulation_control s)); congruence.
Qed.

Lemma run_timestep_events_trace fuel prm s h :
  In (s, h) (timesteps (construct_and_solve dim idx fuel prm)) ->
  h = trace dim idx (body_force dim s) (events h) s.
Proof.
  intros Hin.
  rewrite (run_timestep_trace dim idx fuel prm s h Hin) at 1.
  destruct (run_timestep_facts dim idx fuel prm s h Hin) as (-> & _).
  reflexivity.
Qed.

(** C3, as the code has it.  In every timestep of a run, every call is
    made on the solver the stores of the calls before it have left, and
    [insert] is applied when it is called.  Each broad and fine search
    of the particle-particle, particle-wall and particle-point contacts
    is called if and only if particles were inserted in that timestep or
    its step number is a multiple of the contact detection frequency,
    and whenever it is called it is applied: the next call is made on
    the solver in which what the search returned is stored.  The two
    particle-line searches are called, and then applied, under the same
    condition in three dimensions, and never otherwise. *)
Theorem searches_on_detection_steps fuel prm s h :
  In (s, h) (timesteps (construct_and_solve dim idx fuel prm)) ->
  h = trace dim idx (body_force dim s) (events h) s /\
  applied dim idx (body_force dim s) h ev_insert /\
  (forall e, In e search_calls ->
     (In e (events h) <->
      In ev_insert (events h) \/
      step_number s
        mod Parameters.contact_detection_frequency (model_parameters prm)
      = 0) /\
     applied dim idx (body_force dim s) h e) /\
  (forall e, In e line_search_calls ->
     (In e (events h) <->
      dim = 3%nat /\
      (In ev_insert (events h) \/
       step_number s
         mod Parameters.contact_detection_frequency (model_parameters prm)
       = 0)) /\
     applied dim idx (body_force dim s) h e).
Proof.
  intros Hin.
  split; [exact (run_timestep_events_trace fuel prm s h Hin)|].
  split; [apply (run_timestep_applied fuel prm); [exact Hin|discriminate..]|].
  destruct (run_timestep_facts dim idx fuel prm s h Hin)
    as (He & _ & _ & o1 & o2 & o3 & o4 & _ & Hloop & HC & _).
  destruct (in_loop_frequencies _ _ _ _ _ _ Hloop) as (Hd & _ & _).
  assert (Hdet : detection_due s = true <->
                 step_number s
                   mod Parameters.contact_detection_frequency
                         (model_parameters prm) = 0).
  { unfold detection_due. rewrite double_eq_fmod, Hd. tauto. }
  rewrite He. unfold events_of.
  split; intros e Hcall; (split;
    [ rewrite !In_bool_decide, timestep_events_insert
    | apply (run_timestep_applied fuel prm); [exact Hin|..];
      intros ->; simpl in Hcall; intuition discriminate ]).
  - rewrite (timestep_events_search _ _ _ _ _ e Hcall), orb_true_iff, Hdet.
    reflexivity.
  - rewrite (timestep_events_line_search _ _ _ _ _ e Hcall), andb_true_iff,
      orb_true_iff, Hdet, Nat.eqb_eq.
    reflexivity.
Qed.

(** C4, as the code has it.  In every timestep of a run, whether or not
    a contact detection is due, the particle-particle, particle-wall and
    particle-point force computations are called and applied: the next
    call is made on the solver in which the contact objects and the
    particles the computation returned are stored.  The particle-
    particle and the particle-wall computation are those of the force
    models selected before the loop.  The particle-line force
    computation is called, and then applied, in three dimensions and
    never otherwise. *)
Theorem forces_on_every_step fuel prm s h :
  In (s, h) (timesteps (construct_and_solve dim idx fuel prm)) ->
  h = trace dim idx (body_force dim s) (events h) s /\
  (forall e, In e force_calls ->
     In e (events h) /\ applied dim idx (body_force dim s) h e) /\
  (In ev_calculate_particle_line_contact_force (events h) <-> dim = 3%nat) /\
  applied dim idx (body_force dim s) h
    ev_calculate_particle_line_contact_force /\
  exists o3 o4,
    pp_force_for (Parameters.pp_contact_force_method (model_parameters prm))
      = Some o3 /\
    pw_force_for (Parameters.pw_contact_force_method (model_parameters prm))
      = Some o4 /\
    (forall s_e, In (ev_calculate_pp_contact_force, s_e) h ->
       effect dim idx (body_force dim s) ev_calculate_pp_contact_force s_e
       = let r := calculate_pp_contact_force o3
                    (local_adjacent_particles s_e)
                    (ghost_adjacent_particles s_e)
                    (physical_properties s_e)
                    (get_time_step (simulation_control s_e))
                    (particle_handler s_e) in
         set_particle_handler r.2
           (set_ghost_adjacent_particles r.1.2
              (set_local_adjacent_particles r.1.1 s_e))) /\
    (forall s_e, In (ev_calculate_pw_contact_force, s_e) h ->
       effect dim idx (body_force dim s) ev_calculate_pw_contact_force s_e
       = let r := calculate_pw_contact_force o4 (pw_pairs_in_contact s_e)
                    (physical_properties s_e)
                    (get_time_step (simulation_control s_e))
                    (particle_handler s_e) in
         set_particle_handler r.2 (set_pw_pairs_in_contact r.1 s_e)).
Proof.
  intros Hin.
  split; [exact (run_timestep_events_trace fuel prm s h Hin)|].
  destruct (run_timestep_facts dim idx fuel prm s h Hin)
    as (He & Hall & _ & o1 & o2 & o3 & o4 & Hsel & Hloop & _).
  split; [|split; [|split]].
  - intros e Hcall. split.
    + rewrite He, In_bool_decide. apply timestep_events_force, Hcall.
    + apply (run_timestep_applied fuel prm); [exact Hin|..];
        intros ->; simpl in Hcall; intuition discriminate.
  - rewrite He, In_bool_decide. unfold events_of.
    rewrite timestep_events_line_force. apply Nat.eqb_eq.
  - apply (run_timestep_applied fuel prm); [exact Hin|discriminate..].
  - exists o3, o4.
    destruct Hsel as (_ & _ & Hs3 & Hs4).
    destruct Hloop as (_ & _ & _ & Ho3 & Ho4).
    rewrite List.Forall_forall in Hall.
    split; [exact Hs3|]. split; [exact Hs4|].
    split; intros s_e Hs; destruct (Hall _ Hs) as [Hc _]; cbn [fst snd] in Hc;
      destruct (control_objects _ _ Hc) as (_ & _ & Hc3 & Hc4);
      cbn [effect]; rewrite ?Hc3, ?Hc4, ?Ho3, ?Ho4; reflexivity.
Qed.

End AppliedCalls.

(** * A timestep that repartitions *)

Section Rebuild.

Context {C : Carriers} {E : Collaborators}.
Variable dim : nat.
Variable idx : PropertiesIndex.
Variable g : list float.

Lemma repartition_events_rebuild :
  repartition_events
  = [ev_repartition; ev_register_store_callback_function; ev_redistribute;
     ev_register_load_callback_function] ++ rebuild_events.
Proof. reflexivity. Qed.

(** The six [clear()] and the three rebuilding calls leave the mesh
    they were given and the containers computed from it and from empty
    containers. *)
Lemma rebuild_mesh_state s :
  mesh_state (run_effects dim idx g rebuild_events s)
  = mesh_containers (grid (triangulation s)).
Proof. reflexivity. Qed.

(** A call outside the repartition block leaves the mesh and its
    containers alone. *)
Lemma effect_keeps_mesh e s :
  ~ In e repartition_events ->
  mesh_state (effect dim idx g e s) = mesh_state s.
Proof.
  intros He.
  destruct e; try reflexivity;
    try (destruct He; simpl; tauto);
    try (match goal with c : cache |- _ => destruct c end;
         destruct He; simpl; tauto);
    cbn [effect];
    repeat match goal with
           | |- context [match ?o with Some _ => _ | None => _ end] =>
               destruct o
           end;
    reflexivity.
Qed.

Lemma trace_keeps_mesh evs s :
  Forall (fun e => ~ In e repartition_events) evs ->
  Forall (fun x => mesh_state x.2 = mesh_state s) (trace dim idx g evs s).
Proof.
  revert s. induction evs as [|e evs IH]; intros s Hevs; [constructor|].
  inversion Hevs as [|? ? He Hrest]; subst.
  cbn [trace]. constructor; [reflexivity|].
  rewrite <- (effect_keeps_mesh e s He). apply IH, Hrest.
Qed.

(** The six [clear()] and the three rebuilding calls are made on the
    mesh the first of them is made on. *)
Lemma rebuild_calls_grid s :
  Forall (fun x => grid (triangulation x.2) = grid (triangulation s))
    (trace dim idx g rebuild_events s).
Proof. repeat constructor. Qed.

(** The candidate lists the broad searches leave. *)
Lemma broad_search_candidates s :
  candidates
    (run_effects dim idx g
       (ev_find_PP_Contact_Pairs :: wall_broad_events dim) s)
  = (let pp := find_PP_Contact_Pairs (particle_handler s)
                 (cells_local_neighbor_list s) (cells_ghost_neighbor_list s)
                 (local_contact_pair_candidates s)
                 (ghost_contact_pair_candidates s) in
     (pp.1, pp.2,
      find_PW_Contact_Pairs (boundary_cells_information s)
        (particle_handler s) (pw_contact_candidates s),
      find_Particle_Point_Contact_Pairs (particle_handler s)
        (boundary_cells_with_points s),
      if (dim =? 3)%nat
      then find_Particle_Line_Contact_Pairs (particle_handler s)
             (boundary_cells_with_lines s)
      else particle_line_contact_candidates s)).
Proof.
  unfold wall_broad_events. destruct (dim =? 3)%nat; reflexivity.
Qed.

End Rebuild.

Section Repartition.

Context {C : Carriers} {E : Collaborators}.
Variable dim : nat.
Variable idx : PropertiesIndex.

(** The calls of a timestep that repartitions: after the repartition
    block no call of the block is made again, and the broad searches
    and [localize_contacts] are each called once. *)
Lemma rest_outside_repartition (ins out : bool) :
  exists rest : list event,
    timestep_events dim true ins true out
    = (ev_print_progression :: repartition_events) ++ rest /\
    Forall (fun e => ~ In e (ev_print_progression :: repartition_events))
      rest /\
    exists evs1 evs2 : list event,
      rest = evs1 ++ (ev_find_PP_Contact_Pairs
                      :: (wall_broad_events dim
                          ++ (ev_localize_contacts :: evs2))) /\
      ~ In ev_find_PP_Contact_Pairs evs1 /\
      ~ In ev_find_PP_Contact_Pairs
          (wall_broad_events dim ++ (ev_localize_contacts :: evs2)) /\
      ~ In ev_localize_contacts
          (evs1 ++ (ev_find_PP_Contact_Pairs :: wall_broad_events dim)) /\
      ~ In ev_localize_contacts evs2.
Proof.
  eexists. split; [reflexivity|]. split.
  - apply List.Forall_forall. intros e He. rewrite In_bool_decide.
    apply not_true_iff_false.
    revert e He. apply List.Forall_forall.
    unfold wall_broad_events, wall_fine_events, wall_force_events.
    destruct ins, out, (dim =? 3)%nat; cbn [orb app];
      repeat constructor.
  - exists ([ev_reinitialize_force; ev_insert_particles]
            ++ (if ins then [ev_insert] else [])
            ++ [ev_sort_particles_into_subdomains_and_cells;
                ev_exchange_ghost_particles]).
    eexists.
    split.
    { rewrite orb_true_r. cbn [app]. rewrite <- !app_assoc. cbn [app].
      destruct ins; cbn [app]; rewrite <- ?app_assoc; reflexivity. }
    unfold wall_broad_events, wall_fine_events, wall_force_events.
    rewrite !In_bool_decide.
    destruct ins, out, (dim =? 3)%nat; cbn [orb app];
      repeat split; intros Hb; vm_compute in Hb; discriminate Hb.
Qed.

Lemma In_trace_events g evs s x :
  In x (trace dim idx g evs s) -> In x.1 evs.
Proof.
  intros Hx. rewrite <- (trace_events dim idx g evs s).
  unfold events. apply in_map_iff. exists x. auto.
Qed.

(** C5, as the code has it.  In every timestep of a run that starts with
    a repartition, every call is made on the solver the stores of the
    calls before it have left.  [repartition()] is called with the
    connections of the constructor in place, the store callback on the
    signal deal.II fires before it redistributes the cells and the load
    callback on the signal it fires after; it returns the solver [s_n]
    that the store callback, the redistribution and the load callback
    have left in this order.  Then the six mesh caches are cleared and
    rebuilt, each of these calls made on the mesh of [s_n] and each
    rebuilding call finding the containers it fills empty; every later
    call of the timestep finds the mesh of [s_n] and the containers
    computed from it and from empty containers.  The contact
    detection runs in that same timestep: [localize_contacts] receives
    the candidate lists the broad searches have made with the rebuilt
    containers, the particle-point list and in three dimensions the
    particle-line list being what the search returned, the
    particle-particle and particle-wall lists what the search made of
    the lists it was handed.  The contact-object collections reach
    [localize_contacts] as they were when the timestep started. *)
Theorem repartition_rebuilds_mesh_caches fuel prm s h :
  In (s, h) (timesteps (construct_and_solve dim idx fuel prm)) ->
  In ev_repartition (events h) ->
  events h
    = timestep_events dim true (insertion_due s) true
        (is_output_iteration (simulation_control s)) /\
  h = trace dim idx (body_force dim s) (events h) s /\
  signals (triangulation s) = connected_signals /\
  (exists s_n,
     s_n = run_effects dim idx (body_force dim s)
             [ev_register_store_callback_function; ev_redistribute;
              ev_register_load_callback_function] s /\
     In (ev_clear c_cells_local_neighbor_list, s_n) h /\
     (forall e s_e, In (e, s_e) h -> In e rebuild_events ->
        grid (triangulation s_e) = grid (triangulation s_n)) /\
     (forall e s_e, In (e, s_e) h ->
        ~ In e (ev_print_progression :: repartition_events) ->
        mesh_state s_e = mesh_containers (grid (triangulation s_n))) /\
     (forall s_b s_e,
        In (ev_find_PP_Contact_Pairs, s_b) h ->
        In (ev_localize_contacts, s_e) h ->
        candidates s_e
        = (let pp := find_PP_Contact_Pairs (particle_handler s_b)
                       (cells_local_neighbor_list s_b)
                       (cells_ghost_neighbor_list s_b)
                       (local_contact_pair_candidates s_b)
                       (ghost_contact_pair_candidates s_b) in
           (pp.1, pp.2,
            find_PW_Contact_Pairs (boundary_cells_information s_b)
              (particle_handler s_b) (pw_contact_candidates s_b),
            find_Particle_Point_Contact_Pairs (particle_handler s_b)
              (boundary_cells_with_points s_b),
            if (dim =? 3)%nat
            then find_Particle_Line_Contact_Pairs (particle_handler s_b)
                   (boundary_cells_with_lines s_b)
            else particle_line_contact_candidates s_b)))) /\
  (forall s_e, In (ev_find_cell_neighbors, s_e) h ->
     cells_local_neighbor_list s_e = [] /\
     cells_ghost_neighbor_list s_e = []) /\
  (forall s_e, In (ev_find_boundary_cells_information, s_e) h ->
     boundary_cells_with_faces s_e = [] /\
     boundary_cells_information s_e = []) /\
  (forall s_e, In (ev_find_particle_point_and_line_contact_cells, s_e) h ->
     boundary_cells_with_lines s_e = [] /\
     boundary_cells_with_points s_e = []) /\
  (forall s_e, In (ev_localize_contacts, s_e) h ->
     contacts s_e = contacts s).
Proof.
  intros Hin Hrep.
  destruct (run_timestep_facts dim idx fuel prm s h Hin)
    as (He & Hall & _ & o1 & o2 & o3 & o4 & _ & Hloop & HC & HR).
  destruct (in_loop_frequencies _ _ _ _ _ _ Hloop) as (Hd & Hr & _).
  rewrite He in Hrep. unfold events_of in Hrep.
  rewrite In_bool_decide, timestep_events_repartition in Hrep.
  assert (Hdet : detection_due s = true).
  { unfold repartition_due in Hrep. apply double_eq_fmod in Hrep as [HR0 Hm].
    unfold detection_due. apply double_eq_fmod. rewrite Hd, Hr in *.
    split; [exact HC|].
    apply N.Lcm0.mod_divide in Hm. apply N.Lcm0.mod_divide in HR.
    apply N.Lcm0.mod_divide. exact (N.divide_trans _ _ _ HR Hm). }
  assert (Hev : events h
                = timestep_events dim true (insertion_due s) true
                    (is_output_iteration (simulation_control s))).
  { rewrite He. unfold events_of. rewrite Hrep, Hdet. reflexivity. }
  pose proof (run_timestep_events_trace dim idx fuel prm s h Hin) as Htr.
  split; [exact Hev|]. split; [exact Htr|]. split.
  { destruct Hloop as (Hf & _). unfold fixed in Hf.
    injection Hf as _ _ _ _ Hsg. exact Hsg. }
  rewrite List.Forall_forall in Hall.
  split.
  2:{ split; [|split; [|split]]; intros s_e Hs;
        destruct (Hall _ Hs) as [_ Hat]; simpl in Hat; tauto. }
  clear Hall.
  set (g := body_force dim s) in *.
  destruct (rest_outside_repartition (insertion_due s)
              (is_output_iteration (simulation_control s)))
    as (rest & Hsplit & Hout & evs1 & evs2 & Hrest & Hb1 & Hb2 & Hl1 & Hl2).
  rewrite <- Hev in Hsplit.
  set (s_n := run_effects dim idx g
                [ev_register_store_callback_function; ev_redistribute;
                 ev_register_load_callback_function] s).
  assert (Hblock : run_effects dim idx g
                     (ev_print_progression :: repartition_events) s
                   = run_effects dim idx g rebuild_events s_n)
    by reflexivity.
  assert (Hmesh : forall e s_e, In (e, s_e) h ->
            ~ In e (ev_print_progression :: repartition_events) ->
            mesh_state s_e = mesh_containers (grid (triangulation s_n))).
  { intros e s_e Hx Hx1. rewrite Htr, Hsplit, trace_app in Hx.
    apply in_app_or in Hx as [Hx|Hx].
    { destruct Hx1. exact (In_trace_events _ _ _ _ Hx). }
    rewrite <- (rebuild_mesh_state dim idx g s_n), <- Hblock.
    fold (run_effects dim idx g
            (ev_print_progression :: repartition_events) s) in Hx.
    assert (Hk : Forall (fun e => ~ In e repartition_events) rest).
    { eapply Forall_impl; [exact Hout|].
      intros e' He1 He2. apply He1. right. exact He2. }
    apply (trace_keeps_mesh dim idx g rest
             (run_effects dim idx g
                (ev_print_progression :: repartition_events) s)) in Hk.
    rewrite List.Forall_forall in Hk. exact (Hk _ Hx). }
  exists s_n. split; [reflexivity|].
  split; [|split; [|split; [exact Hmesh|]]].
  - rewrite Htr, Hev.
    exact (In_trace dim idx g
             [ev_print_progression; ev_repartition;
              ev_register_store_callback_function; ev_redistribute;
              ev_register_load_callback_function]
             (ev_clear c_cells_local_neighbor_list) _ s).
  - intros e s_e Hx Hre. rewrite Htr, Hsplit in Hx.
    change (ev_print_progression :: repartition_events)
      with ([ev_print_progression; ev_repartition;
             ev_register_store_callback_function; ev_redistribute;
             ev_register_load_callback_function] ++ rebuild_events) in Hx.
    rewrite <- app_assoc, !trace_app in Hx.
    apply in_app_or in Hx as [Hx|Hx]; [|apply in_app_or in Hx as [Hx|Hx]].
    + apply In_trace_events in Hx. cbn [fst] in Hx.
      apply In_bool_decide in Hre.
      simpl in Hx. repeat (destruct Hx as [<-|Hx]; [discriminate Hre|]).
      destruct Hx.
    + pose proof (rebuild_calls_grid dim idx g s_n) as Hgrid.
      rewrite List.Forall_forall in Hgrid. exact (Hgrid _ Hx).
    + apply In_trace_events in Hx. cbn [fst] in Hx.
      rewrite List.Forall_forall in Hout. destruct (Hout _ Hx).
      right. rewrite repartition_events_rebuild. apply in_or_app. right.
      exact Hre.
  - intros s_b s_e Hsb Hse.
    rewrite Htr, Hsplit, Hrest in Hsb, Hse.
    rewrite app_assoc in Hsb.
    apply trace_at in Hsb; [|shelve..].
    rewrite app_assoc in Hse.
    change (ev_find_PP_Contact_Pairs
            :: (wall_broad_events dim ++ ev_localize_contacts :: evs2))
      with ((ev_find_PP_Contact_Pairs :: wall_broad_events dim)
            ++ ev_localize_contacts :: evs2) in Hse.
    rewrite app_assoc in Hse.
    apply trace_at in Hse; [|shelve..].
    rewrite run_effects_app, <- Hsb in Hse. rewrite Hse.
    apply broad_search_candidates.
    Unshelve.
    + intros Hi. apply in_app_or in Hi as [Hi|Hi]; [|exact (Hb1 Hi)].
      apply In_bool_decide in Hi. vm_compute in Hi. discriminate Hi.
    + exact Hb2.
    + intros Hi. apply in_app_or in Hi as [Hi|Hi].
      * apply in_app_or in Hi as [Hi|Hi].
        { apply In_bool_decide in Hi. vm_compute in Hi. discriminate Hi. }
        apply Hl1, in_or_app. left. exact Hi.
      * apply Hl1, in_or_app. right. exact Hi.
    + exact Hl2.
Qed.

End Repartition.

(** * The reset of the forces *)

Section Reset.

Context {C : Carriers} {E : Collaborators}.
Variable dim : nat.
Variable idx : PropertiesIndex.

(** [reinitialize_force] rewrites each particle of the range
    [begin()..end()] where it stands. *)
Lemma reinitialize_force_lookup (ph : ParticleHandler) (k : nat)
    (p : Particle) :
  particles ph !! k = Some p ->
  particles (reinitialize_force dim idx ph) !! k
  = Some (reinitialize_particle dim idx p).
Proof.
  intros Hk. unfold reinitialize_force. cbn [particles set_particles].
  rewrite list_lookup_fmap, Hk. reflexivity.
Qed.

(** What the body of the loop of [reinitialize_force] does to one
    particle. *)
Lemma reinitialize_particle_slots (p : Particle) :
  id (reinitialize_particle dim idx p) = id p /\
  location (reinitialize_particle dim idx p) = location p /\
  reference_location (reinitialize_particle dim idx p)
    = reference_location p /\
  length (properties (reinitialize_particle dim idx p))
    = length (properties p) /\
  (forall i, In i (zeroed_slots dim idx) ->
     (i < length (properties p))%nat ->
     properties (reinitialize_particle dim idx p) !! i = Some 0%float) /\
  (forall i, ~ In i (zeroed_slots dim idx) ->
     properties (reinitialize_particle dim idx p) !! i = properties p !! i).
Proof.
  rewrite reinitialize_particle_properties.
  split; [reflexivity|]. split; [reflexivity|]. split; [reflexivity|].
  split; [apply zero_slots_length|]. split.
  - intros i Hi Hlen. apply zero_slots_lookup_in; [|exact Hlen].
    apply in_rev. rewrite rev_involutive. exact Hi.
  - intros i Hi. apply zero_slots_lookup_out.
    intros Hin. apply Hi, in_rev. exact Hin.
Qed.

(** C8, as the code has it.  Every timestep of a run starts with
    [print_progression] and, if one is due, the repartition block, none
    of which is an insertion, a contact detection or a force
    computation; then comes [reinitialize_force], and right after it
    [insert_particles], on a solver whose particle handler has the
    particles it had when [reinitialize_force] was called, as many and
    each in its place with its identifier and location, holding zero in
    force_x, force_y, M_x and M_y, and in three dimensions in force_z
    and M_z, and what it held in every other property.  These are the
    locally owned particles, the range [begin()..end()]; the ghost
    particles of the handler are left as they were. *)
Theorem forces_reset_before_use fuel prm s h :
  In (s, h) (timesteps (construct_and_solve dim idx fuel prm)) ->
  exists h1 s_r s_i h2,
    h = (ev_print_progression, s) :: h1
        ++ (ev_reinitialize_force, s_r) :: (ev_insert_particles, s_i) :: h2 /\
    Forall (fun e => insertion_detection_or_force e = false)
      (ev_print_progression :: events h1) /\
    particle_handler s_i = reinitialize_force dim idx (particle_handler s_r) /\
    length (particles (particle_handler s_i))
      = length (particles (particle_handler s_r)) /\
    ghost_particles (particle_handler s_i)
      = ghost_particles (particle_handler s_r) /\
    forall k p,
      particles (particle_handler s_r) !! k = Some p ->
      exists p',
        particles (particle_handler s_i) !! k = Some p' /\
        id p' = id p /\ location p' = location p /\
        reference_location p' = reference_location p /\
        length (properties p') = length (properties p) /\
        (forall i, In i (zeroed_slots dim idx) ->
           (i < length (properties p))%nat ->
           properties p' !! i = Some 0%float) /\
        (forall i, ~ In i (zeroed_slots dim idx) ->
           properties p' !! i = properties p !! i).
Proof.
  intros Hin.
  destruct (run_timestep_facts dim idx fuel prm s h Hin)
    as (_ & _ & (h1 & s_r & h2 & -> & He1) & _).
  exists h1, s_r,
    (set_particle_handler
       (reinitialize_force dim idx (particle_handler s_r)) s_r), h2.
  split; [reflexivity|]. split; [|split; [|split; [|split]]].
  - rewrite He1.
    pose proof (repartition_events_before_use (repartition_due s)) as Hb.
    rewrite forallb_forall in Hb. apply List.Forall_forall.
    intros e He. apply negb_true_iff, Hb, He.
  - reflexivity.
  - apply length_fmap.
  - reflexivity.
  - intros k p Hk. exists (reinitialize_particle dim idx p).
    split; [exact (reinitialize_force_lookup _ _ _ Hk)|].
    apply reinitialize_particle_slots.
Qed.

End Reset.

(** * The connections of the constructor *)

Section Connections.

Context {C : Carriers} {E : Collaborators}.
Variable dim : nat.
Variable idx : PropertiesIndex.

(** X7.  The three connections the constructor makes stay as they are:
    every call of every timestep of a run, [repartition()] among them,
    finds [cell_weight] the one slot of the [cell_weight] signal, the
    store callback the one slot of [pre_distributed_repartition] and
    the load callback, bound to the flag false, the one slot of
    [post_distributed_repartition]; the weights of a cell are the one
    weight [cell_weight] returns on the solver as it is then. *)
Theorem callbacks_stay_connected fuel prm s h :
  In (s, h) (timesteps (construct_and_solve dim idx fuel prm)) ->
  Forall
    (fun x =>
       cell_weight_signal (signals (triangulation x.2))
         = [slot_DEMSolver_cell_weight] /\
       pre_distributed_repartition (signals (triangulation x.2))
         = [slot_register_store_callback_function] /\
       post_distributed_repartition (signals (triangulation x.2))
         = [slot_register_load_callback_function false] /\
       forall cell status,
         cell_weights dim x.2 cell status = [cell_weight dim x.2 cell status])
    h.
Proof.
  intros Hin.
  destruct (run_timestep_facts dim idx fuel prm s h Hin)
    as (_ & Hall & _ & o1 & o2 & o3 & o4 & _ & Hloop & _).
  destruct Hloop as (Hf & _). unfold fixed in Hf.
  injection Hf as _ _ _ _ Hsg.
  eapply Forall_impl; [exact Hall|].
  intros x [Hc _].
  pose proof (control_signals _ _ Hc) as Hx. rewrite Hsg in Hx.
  unfold cell_weights. rewrite Hx. repeat split.
Qed.

End Connections.

(** * The claims on the small concrete world *)

#[local] Existing Instance Toy.carriers.
#[local] Existing Instance Toy.collaborators.

(** Membership in a list that evaluates to its elements. *)
Ltac in_evaluated_list :=
  vm_compute; repeat (first [left; reflexivity | right]).

Lemma constructor_checks_repartition_frequency_witness :
  DEMSolver_constructor Toy.indices (Toy.prm 2 3 1)
    = inl (runtime_error repartition_frequency_error) /\
  timesteps (construct_and_solve 3 Toy.indices 10 (Toy.prm 2 3 1)) = [] /\
  exists s, DEMSolver_constructor Toy.indices (Toy.prm 2 4 1) = inr s.
Proof.
  destruct (constructor_checks_repartition_frequency 3 Toy.indices 10
              (Toy.prm 2 3 1)) as [Hbad _]; [vm_compute; discriminate|].
  destruct (constructor_checks_repartition_frequency 3 Toy.indices 10
              (Toy.prm 2 4 1)) as [_ Hgood]; [vm_compute; discriminate|].
  destruct Hbad as [Hc Hrun]; [vm_compute; discriminate|].
  split; [exact Hc|]. split; [rewrite Hrun; reflexivity|].
  apply Hgood. reflexivity.
Defined.

Lemma insert_particles_on_cadence_witness :
  (exists s',
     (insert_particles (Toy.solver_at 2 4 3 4)).2 = inr (true, s') /\
     length (particles (particle_handler s')) = 1%nat) /\
  insert_particles (Toy.solver_at 2 4 3 5)
    = ([(ev_insert_particles, Toy.solver_at 2 4 3 5)],
       inr (false, Toy.solver_at 2 4 3 5)).
Proof.
  destruct (insert_particles_on_cadence (Toy.solver_at 2 4 3 4))
    as (Hdue & _ & _); [vm_compute; discriminate|].
  destruct (insert_particles_on_cadence (Toy.solver_at 2 4 3 5))
    as (_ & Hnot & _); [vm_compute; discriminate|].
  split.
  - eexists. rewrite (Hdue eq_refl UniformInsertion eq_refl).
    split; reflexivity.
  - apply Hnot. vm_compute. discriminate.
Defined.

Lemma reinitialize_force_frame_witness :
  exists p',
    particles (reinitialize_force 3 Toy.indices Toy.two_particles) !! 0%nat
      = Some p' /\
    id p' = 0 /\
    properties p' !! 10%nat = Some 0%float /\
    properties p' !! 4%nat = Some 1%float.
Proof.
  destruct (reinitialize_force_frame 3 Toy.indices Toy.two_particles 0
              (Toy.push (Toy.new_particle 0)) eq_refl)
    as (_ & _ & _ & _ & p' & Hp' & Hid & _ & _ & _ & Hout).
  exists p'. split; [exact Hp'|]. split; [exact Hid|]. split.
  - vm_compute in Hp'. injection Hp' as <-. reflexivity.
  - rewrite Hout; [reflexivity|]. vm_compute. intuition discriminate.
Defined.

Lemma searches_on_detection_steps_witness :
  (Toy.step 1).2
    = trace 3 Toy.indices (body_force 3 (Toy.step 1).1)
        (events (Toy.step 1).2) (Toy.step 1).1 /\
  In ev_pp_Fine_Search (events (Toy.step 1).2) /\
  applied 3 Toy.indices (body_force 3 (Toy.step 1).1) (Toy.step 1).2
    ev_pp_Fine_Search /\
  ~ In ev_pp_Fine_Search (events (Toy.step 2).2).
Proof.
  destruct (searches_on_detection_steps 3 Toy.indices 10 (Toy.prm 2 4 3)
              (Toy.step 1).1 (Toy.step 1).2) as (Htrace & _ & Hon & _);
    [in_evaluated_list|].
  destruct (searches_on_detection_steps 3 Toy.indices 10 (Toy.prm 2 4 3)
              (Toy.step 2).1 (Toy.step 2).2) as (_ & _ & Hoff & _);
    [in_evaluated_list|].
  assert (Hs : In ev_pp_Fine_Search search_calls) by in_evaluated_list.
  destruct (Hon ev_pp_Fine_Search Hs) as [Hcalled Happlied].
  destruct (Hoff ev_pp_Fine_Search Hs) as [Hskipped _].
  split; [exact Htrace|]. split; [|split; [exact Happlied|]].
  - assert (Hdet : step_number (Toy.step 1).1 mod 2 = 0)
      by (vm_compute; reflexivity).
    exact (proj2 Hcalled (or_intror Hdet)).
  - intros Hin. destruct (proj1 Hskipped Hin) as [Hins|Hdet].
    + pose proof (proj1 (In_bool_decide ev_insert _) Hins) as Hb.
      vm_compute in Hb. discriminate Hb.
    + vm_compute in Hdet. discriminate Hdet.
Defined.

(** In two dimensions the second timestep of the run is one of a
    contact detection, its step number being a multiple of the contact
    detection frequency: the particle-point searches are called and the
    particle-line searches are not. *)
Lemma line_searches_skipped_in_two_dimensions :
  In ((Toy.flat_step 1).1, (Toy.flat_step 1).2)
    (timesteps (construct_and_solve 2 Toy.indices 10 (Toy.prm 2 4 3))) /\
  step_number (Toy.flat_step 1).1
    mod Parameters.contact_detection_frequency
          (model_parameters (Toy.prm 2 4 3)) = 0 /\
  In ev_find_Particle_Point_Contact_Pairs (events (Toy.flat_step 1).2) /\
  In ev_Particle_Point_Fine_Search (events (Toy.flat_step 1).2) /\
  ~ In ev_find_Particle_Line_Contact_Pairs (events (Toy.flat_step 1).2) /\
  ~ In ev_Particle_Line_Fine_Search (events (Toy.flat_step 1).2).
Proof.
  split; [in_evaluated_list|]. split; [vm_compute; reflexivity|].
  split; [in_evaluated_list|]. split; [in_evaluated_list|].
  split; intros Hin.
  - pose proof (proj1 (In_bool_decide ev_find_Particle_Line_Contact_Pairs _)
                  Hin) as Hb.
    vm_compute in Hb. discriminate Hb.
  - pose proof (proj1 (In_bool_decide ev_Particle_Line_Fine_Search _) Hin)
      as Hb.
    vm_compute in Hb. discriminate Hb.
Defined.

Lemma forces_on_every_step_witness :
  In ev_calculate_pp_contact_force (events (Toy.step 2).2) /\
  applied 3 Toy.indices (body_force 3 (Toy.step 2).1) (Toy.step 2).2
    ev_calculate_pp_contact_force /\
  In ev_calculate_particle_line_contact_force (events (Toy.step 2).2).
Proof.
  destruct (forces_on_every_step 3 Toy.indices 10 (Toy.prm 2 4 3)
              (Toy.step 2).1 (Toy.step 2).2) as (_ & Hf & Hl & _);
    [in_evaluated_list|].
  assert (Hc : In ev_calculate_pp_contact_force force_calls)
    by in_evaluated_list.
  destruct (Hf ev_calculate_pp_contact_force Hc) as [Hcalled Happlied].
  split; [exact Hcalled|]. split; [exact Happlied|].
  exact (proj2 Hl eq_refl).
Defined.

(** In two dimensions the third timestep of the run computes the
    particle-point force and does not compute the particle-line
    force. *)
Lemma line_force_skipped_in_two_dimensions :
  In ((Toy.flat_step 2).1, (Toy.flat_step 2).2)
    (timesteps (construct_and_solve 2 Toy.indices 10 (Toy.prm 2 4 3))) /\
  In ev_calculate_particle_point_contact_force (events (Toy.flat_step 2).2) /\
  ~ In ev_calculate_particle_line_contact_force (events (Toy.flat_step 2).2).
Proof.
  split; [in_evaluated_list|]. split; [in_evaluated_list|].
  intros Hin.
  pose proof (proj1 (In_bool_decide ev_calculate_particle_line_contact_force
                       _) Hin) as Hb.
  vm_compute in Hb. discriminate Hb.
Defined.

(** In the first timestep of the run the particle-particle force is
    computed before the particle-wall fine search, so the four phases are
    not one sequence. *)
Lemma force_computed_before_wall_fine_search :
  In ((Toy.step 0).1, (Toy.step 0).2)
    (timesteps (construct_and_solve 3 Toy.indices 10 (Toy.prm 2 4 3))) /\
  (exists evs1 evs2 evs3,
     events (Toy.step 0).2
       = evs1 ++ ev_calculate_pp_contact_force
               :: evs2 ++ ev_pw_Fine_Search :: evs3) /\
  ~ in_order pipeline_phase (events (Toy.step 0).2).
Proof.
  split; [in_evaluated_list|]. split.
  - exists (take 14 (events (Toy.step 0).2)),
      [ev_particle_wall_fine_search],
      [ev_Particle_Point_Fine_Search; ev_Particle_Line_Fine_Search;
       ev_particle_wall_contact_force; ev_calculate_pw_contact_force;
       ev_calculate_particle_point_contact_force;
       ev_calculate_particle_line_contact_force; ev_integrate].
    vm_compute. reflexivity.
  - unfold in_order. intros Hsorted.
    pose proof (proj2 (nondecreasing_sorted _) Hsorted) as Hb.
    vm_compute in Hb. discriminate Hb.
Defined.

Lemma phases_in_order_per_family_witness :
  In ev_exchange_ghost_particles (events (Toy.step 0).2) /\
  in_order interleaved_phase (events (Toy.step 0).2).
Proof.
  destruct (phases_in_order_per_family 3 Toy.indices 10 (Toy.prm 2 4 3)
              (Toy.step 0).1 (Toy.step 0).2) as (He & _ & _ & _ & Hi);
    [in_evaluated_list|].
  exact (conj He Hi).
Defined.

(** The fourth timestep of the run repartitions, and the contact object
    the local collection held when it started is still in it when
    [localize_contacts] takes the collection. *)
Lemma stale_contact_survives_repartition :
  In ((Toy.step 3).1, (Toy.step 3).2)
    (timesteps (construct_and_solve 3 Toy.indices 10 (Toy.prm 2 4 3))) /\
  In ev_repartition (events (Toy.step 3).2) /\
  ~ stale_contacts_gone (Toy.step 3).1 (Toy.step 3).2.
Proof.
  split; [in_evaluated_list|]. split; [in_evaluated_list|].
  intros Hgone.
  assert (Hcall : In (ev_localize_contacts, Toy.at_localize (Toy.step 3).2)
                    (Toy.step 3).2) by in_evaluated_list.
  assert (Hold : In (0 : N) (local_adjacent_particles (Toy.step 3).1))
    by in_evaluated_list.
  assert (Hnow : In (0 : N)
                   (local_adjacent_particles
                      (Toy.at_localize (Toy.step 3).2)))
    by in_evaluated_list.
  exact (Hgone _ Hcall _ Hold Hnow).
Defined.

Lemma repartition_rebuilds_mesh_caches_witness :
  In ev_repartition (events (Toy.step 3).2) /\
  (exists s_n,
     In (ev_clear c_cells_local_neighbor_list, s_n) (Toy.step 3).2 /\
     mesh_state (Toy.at_localize (Toy.step 3).2)
       = mesh_containers (grid (triangulation s_n))) /\
  contacts (Toy.at_localize (Toy.step 3).2) = contacts (Toy.step 3).1.
Proof.
  assert (Hrep : In ev_repartition (events (Toy.step 3).2))
    by in_evaluated_list.
  split; [exact Hrep|].
  destruct (repartition_rebuilds_mesh_caches 3 Toy.indices 10
              (Toy.prm 2 4 3) (Toy.step 3).1 (Toy.step 3).2)
    as (_ & _ & _ & (s_n & _ & Hclear & _ & Hmesh & _) & _ & _ & _ & Hkept);
    [in_evaluated_list | exact Hrep |].
  assert (Hcall : In (ev_localize_contacts, Toy.at_localize (Toy.step 3).2)
                    (Toy.step 3).2) by in_evaluated_list.
  split; [|exact (Hkept _ Hcall)].
  exists s_n. split; [exact Hclear|].
  assert (Hlater : ~ In ev_localize_contacts
                       (ev_print_progression :: repartition_events)).
  { intros Hin.
    pose proof (proj1 (In_bool_decide ev_localize_contacts _) Hin) as Hb.
    vm_compute in Hb. discriminate Hb. }
  exact (Hmesh _ _ Hcall Hlater).
Defined.

(** A persisting, locally owned cell with 429497 particles has a weight
    other than 4294970000, and a locally owned cell with two particles
    and a status that is none of persist, refine and coarsen has a weight
    other than 20000. *)
Lemma cell_weight_wraps_around :
  is_locally_owned (1%nat : Cell) = true /\
  cell_weight 3 Toy.crowded 1%nat CELL_PERSIST
    <> inr (n_particles_in_cell (particle_handler Toy.crowded) 1%nat
            * particle_weight) /\
  cell_weight 3 Toy.busy 1%nat CELL_INVALID
    <> inr (n_particles_in_cell (particle_handler Toy.busy) 1%nat
            * particle_weight).
Proof.
  split; [reflexivity|].
  split; vm_compute; discriminate.
Defined.

Lemma cell_weight_counts_particles_witness :
  cell_weight 3 Toy.busy 1%nat CELL_REFINE = inr 20000 /\
  cell_weight 3 Toy.busy 1%nat CELL_COARSEN = inr 160000 /\
  cell_weight 3 Toy.crowded 1%nat CELL_PERSIST = inr 2704 /\
  cell_weight 3 Toy.busy 0%nat CELL_PERSIST = inr 0.
Proof.
  destruct (cell_weight_counts_particles 3 Toy.busy 1%nat CELL_REFINE)
    as (_ & _ & Hrefine & _).
  destruct (cell_weight_counts_particles 3 Toy.busy 1%nat CELL_COARSEN)
    as (_ & _ & _ & Hcoarsen).
  destruct (cell_weight_counts_particles 3 Toy.crowded 1%nat CELL_PERSIST)
    as (_ & _ & Hpersist & _).
  destruct (cell_weight_counts_particles 3 Toy.busy 0%nat CELL_PERSIST)
    as (_ & Hforeign & _).
  destruct (Hrefine eq_refl (or_intror eq_refl)) as [_ Hsmall].
  destruct (Hcoarsen eq_refl eq_refl) as [_ Hsum].
  destruct (Hpersist eq_refl (or_introl eq_refl)) as [Hwrapped _].
  split; [rewrite Hsmall; reflexivity|].
  split; [rewrite Hsum; reflexivity|].
  split; [rewrite Hwrapped; reflexivity | exact (Hforeign eq_refl)].
Defined.

Lemma forces_reset_before_use_witness :
  exists s_r s_i,
    In (ev_reinitialize_force, s_r) (Toy.step 1).2 /\
    In (ev_insert_particles, s_i) (Toy.step 1).2 /\
    length (particles (particle_handler s_i))
      = length (particles (particle_handler s_r)) /\
    forall p,
      particles (particle_handler s_r) !! 0%nat = Some p ->
      (10 < length (properties p))%nat ->
      exists p',
        particles (particle_handler s_i) !! 0%nat = Some p' /\
        id p' = id p /\
        properties p' !! 10%nat = Some 0%float.
Proof.
  destruct (forces_reset_before_use 3 Toy.indices 10 (Toy.prm 2 4 3)
              (Toy.step 1).1 (Toy.step 1).2)
    as (h1 & s_r & s_i & h2 & Hh & _ & _ & Hlen & _ & Hzero);
    [in_evaluated_list|].
  exists s_r, s_i. split; [|split; [|split; [exact Hlen|]]].
  - rewrite Hh. right. apply in_or_app. right. left. reflexivity.
  - rewrite Hh. right. apply in_or_app. right. right. left. reflexivity.
  - intros p Hp Hslot.
    destruct (Hzero 0%nat p Hp) as (p' & Hp' & Hid & _ & _ & _ & Hz & _).
    exists p'. split; [exact Hp'|]. split; [exact Hid|].
    assert (Hin : In 10%nat (zeroed_slots 3 Toy.indices))
      by in_evaluated_list.
    exact (Hz 10%nat Hin Hslot).
Defined.

(** In the world with ghost particles, the second timestep of the run
    calls [insert_particles], right after [reinitialize_force], on a
    handler that has a ghost particle whose force_x is 2.5, as the force
    computation of the first timestep left it. *)
Lemma ghost_particle_keeps_its_force :
  In ((Toy.ghost_step 1).1, (Toy.ghost_step 1).2)
    (timesteps
       (@construct_and_solve Toy.carriers Toy.ghosting 3 Toy.indices 10
          (Toy.prm 2 4 3))) /\
  In (ev_insert_particles,
      Toy.at_first ev_insert_particles (Toy.ghost_step 1).2)
    (Toy.ghost_step 1).2 /\
  exists p,
    In p (ghost_particles
            (particle_handler
               (Toy.at_first ev_insert_particles (Toy.ghost_step 1).2))) /\
    properties p !! force_x Toy.indices = Some 2.5%float /\
    (2.5 =? 0)%float = false.
Proof.
  split; [in_evaluated_list|]. split; [in_evaluated_list|].
  exists (Toy.push (Toy.new_particle 0)).
  split; [in_evaluated_list|]. split; vm_compute; reflexivity.
Defined.

Lemma selections_made_before_loop_witness :
  result (construct_and_solve 3 Toy.indices 10 Toy.prm_unlisted)
    = Aborted (thrown_literal invalid_insertion_method) /\
  timesteps (construct_and_solve 3 Toy.indices 10 Toy.prm_unlisted) = [] /\
  events (setup_history (construct_and_solve 3 Toy.indices 10 (Toy.prm 2 4 3)))
    = setup_events ev_generate_from_name_and_arguments UniformInsertion
        VelocityVerletIntegrator PPNonLinearForce PWNonLinearForce /\
  insertion_object (Toy.step 2).1 = Some UniformInsertion.
Proof.
  destruct (selections_made_before_loop 3 Toy.indices 10 Toy.prm_unlisted)
    as [Hbad _].
  destruct (selections_made_before_loop 3 Toy.indices 10 (Toy.prm 2 4 3))
    as [_ Hgood].
  destruct (Hbad (or_introl eq_refl)) as (e & Hres & Hnone & _ & Hcfg).
  assert (Hc : DEMSolver_constructor Toy.indices Toy.prm_unlisted
               = inr (Toy.constructed Toy.prm_unlisted))
    by (vm_compute; reflexivity).
  pose proof (Hcfg _ Hc) as He. vm_compute in He. injection He as <-.
  split; [exact Hres|]. split; [exact Hnone|].
  assert (Hc' : DEMSolver_constructor Toy.indices (Toy.prm 2 4 3)
                = inr (Toy.solver 2 4 3))
    by (vm_compute; reflexivity).
  assert (Hsel : selected (Toy.prm 2 4 3) UniformInsertion
                   VelocityVerletIntegrator PPNonLinearForce PWNonLinearForce)
    by (repeat split).
  destruct (Hgood _ ev_generate_from_name_and_arguments _ _ _ _
              Hc' eq_refl Hsel) as [Hsetup Hsteps].
  split; [exact Hsetup|].
  destruct (Hsteps (Toy.step 2).1 (Toy.step 2).2) as (Hins & _);
    [in_evaluated_list | exact Hins].
Defined.

(** ** The further properties on the small concrete world *)

Lemma constructor_at_zero_frequencies_witness :
  DEMSolver_constructor Toy.indices (Toy.prm 0 4 3)
    = inl (runtime_error repartition_frequency_error) /\
  exists s,
    DEMSolver_constructor Toy.indices (Toy.prm 2 0 3) = inr s /\
    repartition_frequency s = 0.
Proof.
  destruct (constructor_at_zero_frequencies Toy.indices (Toy.prm 0 4 3))
    as [Hzero _].
  destruct (constructor_at_zero_frequencies Toy.indices (Toy.prm 2 0 3))
    as [_ Hnone].
  split; [exact (Hzero eq_refl)|].
  apply Hnone; [vm_compute; discriminate | reflexivity].
Defined.

Lemma reinitialize_force_keeps_z_outside_3d_witness :
  exists p',
    particles (reinitialize_force 2 Toy.indices Toy.two_particles) !! 0%nat
      = Some p' /\
    properties p' !! 12%nat = Some 1%float /\
    properties p' !! 20%nat = Some 1%float.
Proof.
  destruct (reinitialize_force_keeps_z_outside_3d 2 Toy.indices
              Toy.two_particles 0 (Toy.push (Toy.new_particle 0)))
    as (p' & Hp' & Hfz & Hmz);
    [ lia | vm_compute; intuition discriminate
    | vm_compute; intuition discriminate | reflexivity | ].
  exists p'. split; [exact Hp'|].
  split; [exact (eq_trans Hfz eq_refl) | exact (eq_trans Hmz eq_refl)].
Defined.

Lemma insert_particles_at_zero_frequency_witness :
  insert_particles (Toy.solver_at 2 4 0 1)
    = ([(ev_insert_particles, Toy.solver_at 2 4 0 1)],
       inr (false, Toy.solver_at 2 4 0 1)).
Proof.
  apply insert_particles_at_zero_frequency. reflexivity.
Defined.

Lemma finish_simulation_prints_in_rank_order_witness :
  finish_simulation_actions Toy.prm_test 4 1
    = [print_summary; MPI_Barrier; print_xyz; MPI_Barrier; MPI_Barrier;
       MPI_Barrier].
Proof.
  rewrite (finish_simulation_prints_in_rank_order Toy.prm_test 4 1);
    reflexivity.
Defined.

Lemma callbacks_stay_connected_witness :
  Forall (fun x =>
            pre_distributed_repartition (signals (triangulation x.2))
            = [slot_register_store_callback_function] /\
            post_distributed_repartition (signals (triangulation x.2))
            = [slot_register_load_callback_function false])
    (Toy.step 3).2.
Proof.
  eapply Forall_impl;
    [ apply (callbacks_stay_connected 3 Toy.indices 10 (Toy.prm 2 4 3)
               (Toy.step 3).1 (Toy.step 3).2); in_evaluated_list |].
  intros x (_ & Hpre & Hpost & _). exact (conj Hpre Hpost).
Defined.

Lemma timestep_calls_in_closed_form_witness :
  exists rep ins det,
    events (Toy.step 3).2
      = timestep_events 3 rep ins det
          (is_output_iteration (simulation_control (Toy.step 3).1)).
Proof.
  destruct (timestep_calls_in_closed_form 3 Toy.indices 10 (Toy.prm 2 4 3)
              (Toy.step 3).1 (Toy.step 3).2)
    as (rep & ins & det & He & _); [in_evaluated_list|].
  exists rep, ins, det. exact He.
Defined.

Lemma repartition_on_cadence_witness :
  In ev_repartition (events (Toy.step 3).2) /\
  In ev_find_cell_neighbors (events (Toy.step 3).2).
Proof.
  destruct (repartition_on_cadence 3 Toy.indices 10 (Toy.prm 2 4 3)
              (Toy.step 3).1 (Toy.step 3).2) as [Hrep Hrebuild];
    [in_evaluated_list|].
  assert (Hdue : 4 <> 0 /\ step_number (Toy.step 3).1 mod 4 = 0)
    by (split; [discriminate | vm_compute; reflexivity]).
  assert (Hcall : In ev_find_cell_neighbors repartition_events)
    by in_evaluated_list.
  pose proof (proj2 Hrep Hdue) as Hin.
  split; [exact Hin | exact (proj2 (Hrebuild _ Hcall) Hin)].
Defined.

Lemma insertion_on_cadence_witness :
  In ev_insert (events (Toy.step 0).2).
Proof.
  destruct (insertion_on_cadence 3 Toy.indices 10 (Toy.prm 2 4 3)
              (Toy.step 0).1 (Toy.step 0).2) as [Hins _];
    [in_evaluated_list|].
  assert (Hdue : 3 <> 0 /\ step_number (Toy.step 0).1 mod 3 = 1)
    by (split; [discriminate | vm_compute; reflexivity]).
  exact (proj2 Hins Hdue).
Defined.

Lemma particles_located_once_witness :
  count_calls locating_calls (events (Toy.step 2).2) = 1%nat /\
  In ev_locate_local_particles_in_cells (events (Toy.step 1).2).
Proof.
  destruct (particles_located_once 3 Toy.indices 10 (Toy.prm 2 4 3)
              (Toy.step 2).1 (Toy.step 2).2) as (_ & _ & Hone);
    [in_evaluated_list|].
  destruct (particles_located_once 3 Toy.indices 10 (Toy.prm 2 4 3)
              (Toy.step 1).1 (Toy.step 1).2) as (Hdet & _ & _);
    [in_evaluated_list|].
  assert (Hcall : In ev_locate_local_particles_in_cells detection_calls)
    by in_evaluated_list.
  assert (Hdue : step_number (Toy.step 1).1 mod 2 = 0)
    by (vm_compute; reflexivity).
  split; [exact Hone | exact (proj2 (Hdet _ Hcall) (or_intror Hdue))].
Defined.

Lemma results_written_last_witness :
  last (events (Toy.step 0).2) = Some ev_integrate.
Proof.
  destruct (results_written_last 3 Toy.indices 10 (Toy.prm 2 4 3)
              (Toy.step 0).1 (Toy.step 0).2) as (_ & Hlast & _);
    [in_evaluated_list|].
  exact Hlast.
Defined.

Lemma timestep_calls_at_one_step_witness :
  Forall (fun x => step_number x.2 = step_number (Toy.step 1).1)
    (Toy.step 1).2.
Proof.
  destruct (timestep_calls_at_one_step 3 Toy.indices 10 (Toy.prm 2 4 3)
              (Toy.step 1).1 (Toy.step 1).2)
    as (o1 & o2 & o3 & o4 & _ & Hall); [in_evaluated_list|].
  eapply Forall_impl; [exact Hall|].
  intros x (_ & Hstep & _). exact Hstep.
Defined.

Lemma unsupported_mesh_aborts_run_witness :
  result (construct_and_solve 3 Toy.indices 10 Toy.prm_unsupported_mesh)
    = Aborted (runtime_error unsupported_mesh_error).
Proof.
  assert (Hc : DEMSolver_constructor Toy.indices Toy.prm_unsupported_mesh
               = inr (Toy.constructed Toy.prm_unsupported_mesh))
    by (vm_compute; reflexivity).
  rewrite (unsupported_mesh_aborts_run 3 Toy.indices 10
             Toy.prm_unsupported_mesh _ Hc eq_refl).
  reflexivity.
Defined.

Lemma loop_entered_without_particles_witness :
  particles (particle_handler (Toy.step 0).1) = [] /\
  contacts (Toy.step 0).1 = ([], [], [], [], []).
Proof.
  destruct (loop_entered_without_particles 3 Toy.indices 10 (Toy.prm 2 4 3)
              (Toy.step 0).1 (Toy.step 0).2) as (Hp & _ & _ & Hc);
    [vm_compute; reflexivity|].
  exact (conj Hp Hc).
Defined.

Lemma loop_entered_with_mesh_containers_witness :
  exists g,
    mesh_read (mesh (Toy.prm 2 4 3)) empty_grid = Some g /\
    mesh_state (Toy.step 0).1 = mesh_containers g.
Proof.
  apply (loop_entered_with_mesh_containers 3 Toy.indices 10 (Toy.prm 2 4 3)
           (Toy.step 0).1 (Toy.step 0).2).
  vm_compute. reflexivity.
Defined.

Lemma mesh_kept_without_repartition_witness :
  mesh_state (Toy.step 1).1 = mesh_state (Toy.step 0).1.
Proof.
  destruct (mesh_kept_without_repartition 3 Toy.indices 10 (Toy.prm 2 4 3)
              (Toy.step 0).1 (Toy.step 0).2) as [_ Hnext];
    [in_evaluated_list | |].
  { intros Hin.
    pose proof (proj1 (In_bool_decide ev_repartition _) Hin) as Hb.
    vm_compute in Hb. discriminate Hb. }
  assert (Hcons : consecutive
                    (timesteps
                       (construct_and_solve 3 Toy.indices 10 (Toy.prm 2 4 3)))
                    ((Toy.step 0).1, (Toy.step 0).2) (Toy.step 1)).
  { exists [], (drop 2 Toy.steps). vm_compute. reflexivity. }
  exact (Hnext _ Hcons).
Defined.

Lemma candidates_kept_without_detection_witness :
  candidates (Toy.step 3).1 = candidates (Toy.step 2).1.
Proof.
  destruct (candidates_kept_without_detection 3 Toy.indices 10
              (Toy.prm 2 4 3) (Toy.step 2).1 (Toy.step 2).2) as [_ Hnext];
    [in_evaluated_list | |].
  { intros Hin.
    pose proof (proj1 (In_bool_decide ev_find_PP_Contact_Pairs _) Hin) as Hb.
    vm_compute in Hb. discriminate Hb. }
  assert (Hcons : consecutive
                    (timesteps
                       (construct_and_solve 3 Toy.indices 10 (Toy.prm 2 4 3)))
                    ((Toy.step 2).1, (Toy.step 2).2) (Toy.step 3)).
  { exists (take 2 Toy.steps), []. vm_compute. reflexivity. }
  exact (Hnext _ Hcons).
Defined.

Lemma constants_of_a_run_witness :
  Forall (fun x => physical_properties x.2
                   = physical_properties_prm (Toy.prm 2 4 3))
    (Toy.step 1).2.
Proof.
  eapply Forall_impl;
    [ apply (constants_of_a_run 3 Toy.indices 10 (Toy.prm 2 4 3)
               (Toy.step 1).1 (Toy.step 1).2); in_evaluated_list |].
  intros x [Hphys _]. exact Hphys.
Defined.
